(** * The authenticated transport layer of the GOTRS Python SDK

    A shallow embedding of [gotrs_sdk/exceptions.py], [gotrs_sdk/auth.py],
    [gotrs_sdk/http_client.py] and the convenience functions of
    [gotrs_sdk/__init__.py], and the properties of the transport layer
    established on it.

    Conventions of the embedding:
    - a Python object is a [value]; a [dict] with string keys is an
      association list read with [dict_get] (first binding of a key);
    - a [datetime] is an aware one and is identified with its instant, an
      exact rational number of seconds since the epoch; its
      [timestamp()] is the double nearest to that number, and a sum of
      doubles is rounded to the nearest double ([Double.round64]);
    - a function that may raise returns a [result]; the clock, the refresh
      callback, the HTTP transport and the sleeps are explicit arguments
      and outputs. *)

From Stdlib Require Import ZArith QArith Qpower Qround Lqa List String Ascii Bool Lia
  DecimalString.
From Stdlib Require PrimFloat SpecFloat FloatOps Uint63.
Import ListNotations.

Local Open Scope string_scope.
Local Open Scope list_scope.
Local Open Scope Z_scope.

Set Warnings "-register-all".

(** ** Python values *)

Inductive value : Type :=
| VNone
| VBool (b : bool)
| VInt (n : Z)
| VFloat (x : Q)
| VStr (s : string)
| VList (items : list value)
| VDict (entries : list (string * value))
| VDatetime (instant : Q).

(** [bool(v)]: the truth value Python gives to an object. *)
Definition truthy (v : value) : bool :=
  match v with
  | VNone => false
  | VBool b => b
  | VInt n => negb (n =? 0)
  | VFloat x => negb (Qeq_bool x 0)
  | VStr s => negb (s =? "")%string
  | VList items => match items with [] => false | _ :: _ => true end
  | VDict entries => match entries with [] => false | _ :: _ => true end
  | VDatetime _ => true
  end.

(** [d.get(key)] on the entries of a dict; [None] when the key is absent. *)
Fixpoint dict_get {A : Type} (d : list (string * A)) (key : string) : option A :=
  match d with
  | [] => None
  | (k, v) :: rest => if (k =? key)%string then Some v else dict_get rest key
  end.

(** [d.get(key, default)]. *)
Definition dict_get_default {A : Type} (d : list (string * A)) (key : string)
    (default : A) : A :=
  match dict_get d key with
  | Some v => v
  | None => default
  end.

(** [isinstance(v, dict)]. *)
Definition is_dict (v : value) : bool :=
  match v with
  | VDict _ => true
  | _ => false
  end.

(** ** Python strings

    A [string] is a sequence of code points below 256. *)

Definition ord (c : ascii) : Z := Z.of_N (N_of_ascii c).

(** [s.lstrip(c)] for a one-character [c]. *)
Fixpoint lstrip_char (c : ascii) (s : string) : string :=
  match s with
  | EmptyString => EmptyString
  | String a rest => if (a =? c)%char then lstrip_char c rest else s
  end.

(** [s.rstrip(c)] for a one-character [c]. *)
Fixpoint rstrip_char (c : ascii) (s : string) : string :=
  match s with
  | EmptyString => EmptyString
  | String a rest =>
      match rstrip_char c rest with
      | EmptyString => if (a =? c)%char then EmptyString else String a EmptyString
      | kept => String a kept
      end
  end.

(** [c in s]. *)
Fixpoint contains_char (c : ascii) (s : string) : bool :=
  match s with
  | EmptyString => false
  | String a rest => (a =? c)%char || contains_char c rest
  end.

(** [s.split(c, 1)] when [c] occurs in [s]: what is before its first
    occurrence and what is after it. *)
Fixpoint cut_at (c : ascii) (s : string) : option (string * string) :=
  match s with
  | EmptyString => None
  | String a rest =>
      if (a =? c)%char then Some (EmptyString, rest)
      else
        match cut_at c rest with
        | Some (before, after) => Some (String a before, after)
        | None => None
        end
  end.

(** [s.split(c)]. *)
Fixpoint split_char (c : ascii) (s : string) : list string :=
  match s with
  | EmptyString => [EmptyString]
  | String a rest =>
      if (a =? c)%char then EmptyString :: split_char c rest
      else
        match split_char c rest with
        | segment :: segments => String a segment :: segments
        | [] => [String a EmptyString]
        end
  end.

(** [sep.join(parts)]. *)
Definition join (sep : string) (parts : list string) : string :=
  String.concat sep parts.

(** [s] between double quotes. *)
Definition quoted (s : string) : string :=
  let mark := String (ascii_of_N 34) EmptyString in
  (mark ++ s ++ mark)%string.

Definition lower_char (c : ascii) : ascii :=
  if (65 <=? ord c) && (ord c <=? 90) then ascii_of_N (N_of_ascii c + 32) else c.

(** [s.lower()] on ASCII letters. *)
Fixpoint lower (s : string) : string :=
  match s with
  | EmptyString => EmptyString
  | String a rest => String (lower_char a) (lower rest)
  end.

Fixpoint string_forallb (p : ascii -> bool) (s : string) : bool :=
  match s with
  | EmptyString => true
  | String a rest => p a && string_forallb p rest
  end.

Fixpoint string_filter (p : ascii -> bool) (s : string) : string :=
  match s with
  | EmptyString => EmptyString
  | String a rest => if p a then String a (string_filter p rest) else string_filter p rest
  end.

(** The characters of [s] from the first one that does not satisfy [p]. *)
Fixpoint lstrip_if (p : ascii -> bool) (s : string) : string :=
  match s with
  | EmptyString => EmptyString
  | String a rest => if p a then lstrip_if p rest else s
  end.

Fixpoint rstrip_if (p : ascii -> bool) (s : string) : string :=
  match s with
  | EmptyString => EmptyString
  | String a rest =>
      match rstrip_if p rest with
      | EmptyString => if p a then EmptyString else String a EmptyString
      | kept => String a kept
      end
  end.

Definition is_digit (c : ascii) : bool := (48 <=? ord c) && (ord c <=? 57).

Definition is_alpha (c : ascii) : bool :=
  ((65 <=? ord c) && (ord c <=? 90)) || ((97 <=? ord c) && (ord c <=? 122)).

(** [Py_ISSPACE]: the characters [int] strips from both ends of the text
    it parses. *)
Definition is_space (c : ascii) : bool :=
  ((9 <=? ord c) && (ord c <=? 13)) || (ord c =? 32).

Definition is_ascii (s : string) : bool := string_forallb (fun c => ord c <? 128) s.

Fixpoint string_map (f : ascii -> ascii) (s : string) : string :=
  match s with
  | EmptyString => EmptyString
  | String a rest => String (f a) (string_map f rest)
  end.

(** What [int] makes of a character of a text that is not all ASCII
    before it parses the text: a whitespace character from 127 on (below
    256: the next-line character and the no-break space) becomes a space;
    any other character from 127 on (none below 256 is a decimal digit)
    becomes a question mark, where the text is cut. A text that is all
    ASCII is parsed as it is. *)
Definition to_ascii (c : ascii) : ascii :=
  if ord c <? 127 then c
  else if (ord c =? 133) || (ord c =? 160) then " "%char
  else "?"%char.

(** The digits of a decimal literal, most significant first; one
    underscore may stand between two digits. [after_digit] tells whether
    the previous character was a digit, [count] the digits read so far. *)
Fixpoint int_digits (s : string) (acc : Z) (after_digit : bool) (count : Z)
    : option (Z * Z) :=
  match s with
  | EmptyString => if after_digit then Some (acc, count) else None
  | String c rest =>
      if is_digit c then int_digits rest (10 * acc + (ord c - 48)) true (count + 1)
      else if (c =? "_")%char && after_digit then int_digits rest acc false count
      else None
  end.

(** [int(s)] for a string of code points below 256: [None] is
    [ValueError]. The interpreter also refuses a literal of more than
    4300 digits. *)
Definition py_int (s : string) : option Z :=
  let text := if is_ascii s then s else string_map to_ascii s in
  let body := rstrip_if is_space (lstrip_if is_space text) in
  let signed (sign : Z) (digits : string) :=
    match int_digits digits 0 false 0 with
    | Some (n, count) => if 4300 <? count then None else Some (sign * n)
    | None => None
    end in
  match body with
  | String "-" digits => signed (-1) digits
  | String "+" digits => signed 1 digits
  | _ => signed 1 body
  end.

(** ** Doubles

    A Python [float] is an IEEE 754 double. A finite double is a rational
    number, and an operation on doubles returns the double nearest to the
    exact result, the one with the even significand when two are equally
    near. The exponent is not bounded here: the timestamp of a datetime,
    between the years 1 and 9999, is 0 or lies between [2 ^ -20] and
    [2 ^ 38] in magnitude, far from where doubles overflow or lose
    precision. *)

Module Double.

(** The exponent [e] of a positive [x]: [2 ^ e <= x < 2 ^ (e + 1)]. *)
Definition exponent (x : Q) : Z :=
  let d := Z.log2 (Qnum x) - Z.log2 (Zpos (Qden x)) in
  if Qle_bool (2 ^ d) x then d else d - 1.

(** The integer nearest to [x], the even one when two are equally near. *)
Definition nearest_even (x : Q) : Z :=
  let below := Qfloor x in
  match (x - inject_Z below ?= 1 # 2)%Q with
  | Lt => below
  | Gt => below + 1
  | Eq => if Z.even below then below else below + 1
  end.

(** The multiple of [2 ^ k] nearest to [x]. *)
Definition round_to (k : Z) (x : Q) : Q :=
  (inject_Z (nearest_even (x / 2 ^ k)) * 2 ^ k)%Q.

(** The double nearest to [x]: 53 significant bits. *)
Definition round64 (x : Q) : Q :=
  match (x ?= 0)%Q with
  | Eq => 0%Q
  | Gt => round_to (exponent x - 52) x
  | Lt => (- round_to (exponent (- x) - 52) (- x))%Q
  end.

(** [float + float]. *)
Definition add (x y : Q) : Q := round64 (x + y).

(** The same on the doubles of the machine, for instants given as a whole
    number of microseconds: [int / int] is the double nearest to the
    quotient, as is the quotient of the two doubles when both integers
    are below [2 ^ 53]. *)
Definition machine_of_Z (n : Z) : PrimFloat.float :=
  if n <? 0 then PrimFloat.opp (PrimFloat.of_uint63 (Uint63.of_Z (- n)))
  else PrimFloat.of_uint63 (Uint63.of_Z n).

Definition machine_timestamp (microseconds : Z) : PrimFloat.float :=
  PrimFloat.div (machine_of_Z microseconds) (machine_of_Z 1000000).

(** The rational number a finite double of the machine is. *)
Definition machine_to_Q (f : PrimFloat.float) : Q :=
  match FloatOps.Prim2SF f with
  | SpecFloat.S754_finite negative m e =>
      ((if negative then - inject_Z (Z.pos m) else inject_Z (Z.pos m)) * 2 ^ e)%Q
  | _ => 0%Q
  end.

(** [expiry.timestamp() <= now.timestamp() + 60] on the doubles of the
    machine. *)
Definition machine_check (expiry_microseconds now_microseconds : Z) : bool :=
  PrimFloat.leb (machine_timestamp expiry_microseconds)
    (PrimFloat.add (machine_timestamp now_microseconds) (machine_of_Z 60)).

(** The instants of the examples, in microseconds. *)
Definition sample_instants : list Z :=
  [0; 1; 997795; 60997795; 939000000; 940000000; 1000000000; 100000000; 105000000;
   1700000000123456; 2147483588000006; 2147483648000006; 2147483647999999;
   2147483648000001; 4294967296000003; 8999999999999999; -997795;
   -1700000000123457].

End Double.

(** ** exceptions.py *)

Module Exceptions.

Inductive error_class : Type :=
| cls_GotrsError
| cls_ValidationError
| cls_NetworkError
| cls_TimeoutError
| cls_AuthenticationError
| cls_NotFoundError
| cls_UnauthorizedError
| cls_ForbiddenError
| cls_RateLimitError
| cls_ServerError
| cls_ConfigurationError
| cls_WebSocketError.

(** An instance of the taxonomy: the attributes [GotrsError.__init__]
    sets, and [retry_after], which only [RateLimitError] instances carry
    ([None] on them when the header gave no integer). *)
Record error : Type := mk_error {
  cls : error_class;
  message : value;
  status_code : option Z;
  code : value;
  details : value;
  response_data : value;
  retry_after : option Z
}.

(** The keyword arguments a caller passes on; [None] is a key that was
    not passed. *)
Record kwargs : Type := mk_kwargs {
  kw_status_code : option Z;
  kw_code : option value;
  kw_details : option value;
  kw_response_data : option value
}.

Definition no_kwargs : kwargs := mk_kwargs None None None None.

Definition or_None (v : option value) : value :=
  match v with
  | Some x => x
  | None => VNone
  end.

(** [GotrsError.__init__] run for an instance of class [c]. *)
Definition init (c : error_class) (msg : value) (kw : kwargs) : error :=
  {| cls := c;
     message := msg;
     status_code := kw_status_code kw;
     code := or_None (kw_code kw);
     details := or_None (kw_details kw);
     response_data := or_None (kw_response_data kw);
     retry_after := None |}.

Definition GotrsError (msg : value) (kw : kwargs) : error :=
  init cls_GotrsError msg kw.

Definition AuthenticationError (msg : value) (kw : kwargs) : error :=
  init cls_AuthenticationError msg kw.

Definition NetworkError (msg : value) (kw : kwargs) : error :=
  init cls_NetworkError msg kw.

Definition TimeoutError (msg : value) (kw : kwargs) : error :=
  init cls_TimeoutError msg kw.

(** The classes below fix [status_code] and [code] themselves; their
    callers pass [details] and [response_data] only. *)
Definition NotFoundError (msg : value) (details response_data : option value) : error :=
  init cls_NotFoundError msg
    (mk_kwargs (Some 404) (Some (VStr "NOT_FOUND")) details response_data).

Definition UnauthorizedError (msg : value) (details response_data : option value) : error :=
  init cls_UnauthorizedError msg
    (mk_kwargs (Some 401) (Some (VStr "UNAUTHORIZED")) details response_data).

Definition ForbiddenError (msg : value) (details response_data : option value) : error :=
  init cls_ForbiddenError msg
    (mk_kwargs (Some 403) (Some (VStr "FORBIDDEN")) details response_data).

Definition RateLimitError (msg : value) (retry : option Z)
    (details response_data : option value) : error :=
  let e := init cls_RateLimitError msg
             (mk_kwargs (Some 429) (Some (VStr "RATE_LIMITED")) details response_data) in
  {| cls := cls e; message := message e; status_code := status_code e;
     code := code e; details := Exceptions.details e;
     response_data := Exceptions.response_data e;
     retry_after := retry |}.

(** [kwargs.setdefault]: the default is used for a key that was not
    passed, and only for such a key. *)
Definition setdefault {A : Type} (passed : option A) (default : A) : option A :=
  match passed with
  | Some v => Some v
  | None => Some default
  end.

Definition ServerError (msg : value) (kw : kwargs) : error :=
  let kw1 := mk_kwargs (setdefault (kw_status_code kw) 500) (kw_code kw)
               (kw_details kw) (kw_response_data kw) in
  let kw2 := mk_kwargs (kw_status_code kw1) (setdefault (kw_code kw1) (VStr "SERVER_ERROR"))
               (kw_details kw1) (kw_response_data kw1) in
  init cls_ServerError msg kw2.

(** [isinstance(e, AuthenticationError)]. *)
Definition is_authentication_error (e : error) : bool :=
  match cls e with
  | cls_AuthenticationError | cls_UnauthorizedError | cls_ForbiddenError => true
  | _ => false
  end.

(** What a call can raise: an instance of the taxonomy, one of the
    interpreter's own exceptions, or an exception of the HTTP library
    that the client does not catch. *)
Inductive exn : Type :=
| Gotrs (e : error)
| AttributeError
| KeyError (key : string)
| TypeError
| ValueError (text : string)
| TransportError (text : string).

Definition is_taxonomy (x : exn) : bool :=
  match x with
  | Gotrs _ => true
  | _ => false
  end.

End Exceptions.

Import Exceptions.

Inductive result (A : Type) : Type :=
| Return (a : A)
| Raise (e : exn).

Arguments Return {A} a.
Arguments Raise {A} e.

(** ** auth.py *)

Module Auth.

(** What awaiting the caller's refresh procedure gives: the object it
    returns, or an exception, of which [str(e)] is kept. *)
Inductive callback_outcome : Type :=
| Returns (v : value)
| Fails (text : string).

(** The refresh procedure is called with the refresh token; as it may
    keep state of its own (a counter of its invocations), its outcome
    may also depend on how many times it was invoked before. *)
Definition refresh_procedure : Type := nat -> value -> callback_outcome.

(** The attributes of [JWTAuth] and of [OAuth2Auth]. [OAuth2Auth] calls
    the first [access_token] and has [token_type] besides; the bodies of
    [is_expired] and [refresh] are the same in both classes. *)
Record token_state : Type := mk_token_state {
  token : value;
  refresh_token : value;
  expires_at : value;
  refresh_function : option refresh_procedure
}.

Inductive Authenticator : Type :=
| NoAuth
| APIKeyAuth (api_key header_name : string)
| JWTAuth (s : token_state)
| OAuth2Auth (token_type : string) (s : token_state).

Definition auth_type (a : Authenticator) : string :=
  match a with
  | NoAuth => "none"
  | APIKeyAuth _ _ => "api-key"
  | JWTAuth _ => "jwt"
  | OAuth2Auth _ _ => "oauth2"
  end.

(** The token attributes of a [JWTAuth] or [OAuth2Auth] instance, and the
    instance with these attributes assigned. *)
Definition tokens_of (a : Authenticator) : option token_state :=
  match a with
  | JWTAuth s | OAuth2Auth _ s => Some s
  | NoAuth | APIKeyAuth _ _ => None
  end.

Definition with_tokens (a : Authenticator) (s : token_state) : Authenticator :=
  match a with
  | JWTAuth _ => JWTAuth s
  | OAuth2Auth token_type _ => OAuth2Auth token_type s
  | NoAuth | APIKeyAuth _ _ => a
  end.

(** The expiry held in the state; [None] for a variant that
    has no such attribute. *)
Definition stored_expiry (a : Authenticator) : value :=
  match a with
  | JWTAuth s | OAuth2Auth _ s => expires_at s
  | NoAuth | APIKeyAuth _ _ => VNone
  end.

Definition credential (a : Authenticator) : value :=
  match a with
  | JWTAuth s | OAuth2Auth _ s => token s
  | APIKeyAuth k _ => VStr k
  | NoAuth => VNone
  end.

(** [datetime.timestamp()] of an aware datetime: the double nearest to
    the seconds since the epoch. *)
Definition timestamp (instant : Q) : Q := Double.round64 instant.

(** [JWTAuth.is_expired] / [OAuth2Auth.is_expired]; [now] is the instant
    [datetime.now(timezone.utc)] reads. The sum and the comparison are
    those of doubles. An attribute that is neither falsy nor a datetime
    has no [timestamp] method. *)
Definition token_is_expired (s : token_state) (now : Q) : result bool :=
  if negb (truthy (expires_at s)) then Return false
  else
    match expires_at s with
    | VDatetime expiry =>
        let buffer_time := Double.add (timestamp now) 60 in
        Return (Qle_bool (timestamp expiry) buffer_time)
    | _ => Raise AttributeError
    end.

Definition is_expired (a : Authenticator) (now : Q) : result bool :=
  match a with
  | NoAuth => Return false
  | APIKeyAuth _ _ => Return false
  | JWTAuth s => token_is_expired s now
  | OAuth2Auth _ s => token_is_expired s now
  end.

(** [s.replace("Z", "+00:00")]. *)
Fixpoint replace_Z (s : string) : string :=
  match s with
  | EmptyString => EmptyString
  | String c rest =>
      if (c =? "Z")%char then ("+00:00" ++ replace_Z rest)%string
      else String c (replace_Z rest)
  end.

Definition no_refresh_available : exn :=
  Gotrs (AuthenticationError (VStr "No refresh function or refresh token available")
           no_kwargs).

(** [AuthenticationError(f"Failed to refresh token: {e}")]. *)
Definition refresh_failed (text : string) : exn :=
  Gotrs (AuthenticationError (VStr ("Failed to refresh token: " ++ text)%string) no_kwargs).

Section Refresh.

(** [datetime.fromisoformat]: the instant of the datetime read, or
    the text of the [ValueError]. *)
Variable fromisoformat : string -> Q + string.

(** The text of the [TypeError] the interpreter raises when an object
    that is not a dict is subscripted with a string. *)
Variable subscript_error : value -> string.

(** The body of the [try] once the refresh procedure has answered:
    the attributes are assigned one after the other, so those assigned
    before a failure keep their new value. *)
Definition store_refreshed (s : token_state) (out : callback_outcome)
    : token_state * result unit :=
  match out with
  | Fails text => (s, Raise (refresh_failed text))
  | Returns (VDict d) =>
      match dict_get d "access_token" with
      | None => (s, Raise (refresh_failed "'access_token'"))
      | Some access =>
          let s1 := mk_token_state access (refresh_token s) (expires_at s)
                      (refresh_function s) in
          let s2 := mk_token_state (token s1)
                      (dict_get_default d "refresh_token" (refresh_token s1))
                      (expires_at s1) (refresh_function s1) in
          match dict_get d "expires_at" with
          | None => (s2, Return tt)
          | Some (VStr iso) =>
              match fromisoformat (replace_Z iso) with
              | inl expiry =>
                  (mk_token_state (token s2) (refresh_token s2) (VDatetime expiry)
                     (refresh_function s2), Return tt)
              | inr text => (s2, Raise (refresh_failed text))
              end
          | Some other =>
              (mk_token_state (token s2) (refresh_token s2) other
                 (refresh_function s2), Return tt)
          end
      end
  | Returns other => (s, Raise (refresh_failed (subscript_error other)))
  end.

(** [JWTAuth.refresh] / [OAuth2Auth.refresh] run by one caller with
    nobody else holding the lock. [calls] counts the invocations of
    the refresh procedure; [now] is the clock read by the check made
    under the lock. *)
Definition token_refresh (s : token_state) (calls : nat) (now : Q)
    : token_state * nat * result unit :=
  match refresh_function s with
  | None => (s, calls, Raise no_refresh_available)
  | Some procedure =>
      if negb (truthy (refresh_token s)) then (s, calls, Raise no_refresh_available)
      else
        match token_is_expired s now with
        | Raise e => (s, calls, Raise e)
        | Return false => (s, calls, Return tt)
        | Return true =>
            let (s', r) := store_refreshed s (procedure calls (refresh_token s)) in
            (s', S calls, r)
        end
  end.

Definition refresh (a : Authenticator) (calls : nat) (now : Q)
    : Authenticator * nat * result unit :=
  match a with
  | NoAuth => (a, calls, Return tt)
  | APIKeyAuth _ _ => (a, calls, Return tt)
  | JWTAuth s =>
      let '(s', calls', r) := token_refresh s calls now in (JWTAuth s', calls', r)
  | OAuth2Auth token_type s =>
      let '(s', calls', r) := token_refresh s calls now in
      (OAuth2Auth token_type s', calls', r)
  end.

End Refresh.




End Auth.


(** ** urllib.parse.urljoin

    [_build_url] joins with the standard library's [urljoin]. This is its
    algorithm (CPython 3.11.2 as distributed with the fixes of [urlsplit]
    for bracketed hosts), for [str] arguments of code points below 256,
    on which the check of the host under NFKC normalization never
    fails. *)

Module Urllib.

Definition uses_relative : list string :=
  [""; "ftp"; "http"; "gopher"; "nntp"; "imap"; "wais"; "file"; "https"; "shttp";
   "mms"; "prospero"; "rtsp"; "rtspu"; "sftp"; "svn"; "svn+ssh"; "ws"; "wss"].

Definition uses_netloc : list string :=
  [""; "ftp"; "http"; "gopher"; "nntp"; "telnet"; "imap"; "wais"; "file"; "mms";
   "https"; "shttp"; "snews"; "prospero"; "rtsp"; "rtspu"; "rsync"; "svn";
   "svn+ssh"; "sftp"; "nfs"; "git"; "git+ssh"; "ws"; "wss"].

Definition uses_params : list string :=
  [""; "ftp"; "hdl"; "prospero"; "http"; "imap"; "https"; "shttp"; "rtsp"; "rtspu";
   "sip"; "sips"; "mms"; "sftp"; "tel"].

Definition member (s : string) (l : list string) : bool :=
  existsb (String.eqb s) l.

Definition scheme_char (c : ascii) : bool :=
  is_alpha c || is_digit c || (c =? "+")%char || (c =? "-")%char || (c =? ".")%char.

Definition c0_control_or_space (c : ascii) : bool := ord c <=? 32.

Definition unsafe_to_remove (c : ascii) : bool :=
  (ord c =? 9) || (ord c =? 10) || (ord c =? 13).

Record ParseResult : Type := mk_ParseResult {
  scheme : string;
  netloc : string;
  path : string;
  params : string;
  query : string;
  fragment : string
}.

(** [_splitnetloc(url, 2)] on what follows the two slashes: the host part
    ends at the first of [/], [?] and [#]. *)
Fixpoint splitnetloc (s : string) : string * string :=
  match s with
  | EmptyString => (EmptyString, EmptyString)
  | String a rest =>
      if (a =? "/")%char || (a =? "?")%char || (a =? "#")%char then (EmptyString, s)
      else let (host, tail) := splitnetloc rest in (String a host, tail)
  end.

(** The scheme of [url] and what follows its colon, when [url] starts
    with a scheme. *)
Definition split_scheme (url : string) : option (string * string) :=
  match url with
  | String first _ =>
      if is_alpha first then
        match cut_at ":" url with
        | Some (before, after) =>
            if string_forallb scheme_char before then Some (lower before, after) else None
        | None => None
        end
      else None
  | EmptyString => None
  end.

(** [_splitparams]: the parameters are what follows the first [;] of the
    last segment of the path. *)
Definition splitparams (url : string) : string * string :=
  let segments := split_char "/" url in
  let last_segment := last segments EmptyString in
  match cut_at ";" last_segment with
  | Some (before, after) => (join "/" (removelast segments ++ [before]), after)
  | None => (url, EmptyString)
  end.

Definition nonempty (s : string) : bool := negb (s =? "")%string.

(** [s.rpartition(c)[2]]: what follows the last [c], all of [s] when
    there is none. *)
Fixpoint after_last (c : ascii) (s : string) : string :=
  match s with
  | EmptyString => EmptyString
  | String a rest =>
      if contains_char c rest then after_last c rest
      else if (a =? c)%char then rest
      else s
  end.

Definition backslash : ascii := ascii_of_N 92.

Definition hex_digit (n : Z) : ascii :=
  ascii_of_N (Z.to_N (if n <? 10 then 48 + n else 87 + n)).

(** [str.isprintable] on a code point below 256. *)
Definition printable (c : ascii) : bool :=
  ((32 <=? ord c) && (ord c <? 127)) || ((161 <=? ord c) && negb (ord c =? 173)).

Definition repr_char (quote c : ascii) : string :=
  if (c =? quote)%char || (c =? backslash)%char then String backslash (String c EmptyString)
  else if ord c =? 9 then String backslash "t"
  else if ord c =? 10 then String backslash "n"
  else if ord c =? 13 then String backslash "r"
  else if printable c then String c EmptyString
  else String backslash
         (String "x" (String (hex_digit (ord c / 16)) (String (hex_digit (ord c mod 16))
                                                             EmptyString))).

Fixpoint repr_chars (quote : ascii) (s : string) : string :=
  match s with
  | EmptyString => EmptyString
  | String a rest => (repr_char quote a ++ repr_chars quote rest)%string
  end.

(** [repr(s)] of a string: between double quotes when it holds a single
    quote and no double quote, between single quotes otherwise. *)
Definition repr (s : string) : string :=
  let quote :=
    if contains_char "'" s && negb (contains_char (ascii_of_N 34) s)
    then ascii_of_N 34 else "'"%char in
  (String quote (repr_chars quote s) ++ String quote EmptyString)%string.

Definition is_hex (c : ascii) : bool :=
  is_digit c || ((65 <=? ord c) && (ord c <=? 70)) || ((97 <=? ord c) && (ord c <=? 102)).

Definition starts_with (c : ascii) (s : string) : bool :=
  match s with
  | String a _ => (a =? c)%char
  | EmptyString => false
  end.

(** [re.match(r"\Av[a-fA-F0-9]+\..+\Z", hostname)]: a [v], hexadecimal
    digits, a dot, and characters other than the newline up to the end,
    at least one of each. *)
Definition ipvfuture (hostname : string) : bool :=
  match hostname with
  | String "v" rest =>
      match rest with
      | String first _ =>
          is_hex first
          && match lstrip_if is_hex rest with
             | String "." (String c more) =>
                 string_forallb (fun x => negb (ord x =? 10)) (String c more)
             | _ => false
             end
      | EmptyString => false
      end
  | _ => false
  end.

(** The value of a string of decimal digits. *)
Fixpoint decimal (s : string) (acc : Z) : Z :=
  match s with
  | EmptyString => acc
  | String c rest => decimal rest (10 * acc + (ord c - 48))
  end.

(** [IPv4Address._parse_octet] does not raise. *)
Definition octet_ok (s : string) : bool :=
  nonempty s && string_forallb is_digit s && (String.length s <=? 3)%nat
  && ((s =? "0")%string || negb (starts_with "0" s))
  && (decimal s 0 <=? 255).

(** [IPv4Address(s)] does not raise. *)
Definition ipv4_ok (s : string) : bool :=
  negb (contains_char "/" s) && nonempty s
  && (List.length (split_char "." s) =? 4)%nat
  && forallb octet_ok (split_char "." s).

(** [IPv6Address._parse_hextet] does not raise. *)
Definition hextet_ok (s : string) : bool :=
  string_forallb is_hex s && (String.length s <=? 4)%nat && nonempty s.

(** The indices, counted from [from], of the empty strings of [parts]. *)
Fixpoint empty_positions (parts : list string) (from : nat) : list nat :=
  match parts with
  | [] => []
  | part :: rest =>
      if nonempty part then empty_positions rest (S from)
      else from :: empty_positions rest (S from)
  end.

(** [IPv6Address._ip_int_from_string] does not raise. The two hextets
    that stand for an IPv4 suffix are hexadecimal numbers of at most four
    digits, which ["0"] stands for here. *)
Definition ipv6_int_ok (ip_str : string) : bool :=
  let parts := split_char ":" ip_str in
  nonempty ip_str && (3 <=? List.length parts)%nat
  && (if contains_char "." (last parts EmptyString)
      then ipv4_ok (last parts EmptyString) else true)
  && (let parts :=
        if contains_char "." (last parts EmptyString)
        then removelast parts ++ ["0"; "0"]%string else parts in
      let len := List.length parts in
      (len <=? 9)%nat
      && match empty_positions (removelast (tl parts)) 1 with
         | _ :: _ :: _ => false
         | [skip_index] =>
             let parts_hi := skip_index in
             let parts_lo := (len - skip_index - 1)%nat in
             let leading := negb (nonempty (hd EmptyString parts)) in
             let trailing := negb (nonempty (last parts EmptyString)) in
             let parts_hi := if leading then (parts_hi - 1)%nat else parts_hi in
             let parts_lo := if trailing then (parts_lo - 1)%nat else parts_lo in
             (if leading then (parts_hi =? 0)%nat else true)
             && (if trailing then (parts_lo =? 0)%nat else true)
             && (parts_hi + parts_lo <? 8)%nat
             && forallb hextet_ok (firstn parts_hi parts)
             && forallb hextet_ok (skipn (len - parts_lo) parts)
         | [] =>
             (len =? 8)%nat
             && nonempty (hd EmptyString parts)
             && nonempty (last parts EmptyString)
             && forallb hextet_ok parts
         end).

(** [IPv6Address(s)] does not raise. *)
Definition ipv6_ok (s : string) : bool :=
  negb (contains_char "/" s)
  && match cut_at "%" s with
     | None => ipv6_int_ok s
     | Some (addr, scope_id) =>
         nonempty scope_id && negb (contains_char "%" scope_id) && ipv6_int_ok addr
     end.

(** [_check_bracketed_host]. *)
Definition check_bracketed_host (hostname : string) : result unit :=
  if starts_with "v" hostname then
    if ipvfuture hostname then Return tt
    else Raise (ValueError "IPvFuture address is invalid")
  else if ipv4_ok hostname then
    Raise (ValueError "An IPv4 address cannot be in brackets")
  else if ipv6_ok hostname then Return tt
  else Raise (ValueError (repr hostname
                            ++ " does not appear to be an IPv4 or IPv6 address")%string).

(** [_check_bracketed_netloc]. *)
Definition check_bracketed_netloc (the_netloc : string) : result unit :=
  let hostname_and_port := after_last "@" the_netloc in
  match cut_at "[" hostname_and_port with
  | Some (before_bracket, bracketed) =>
      if nonempty before_bracket then Raise (ValueError "Invalid IPv6 URL")
      else
        let (hostname, port) :=
          match cut_at "]" bracketed with
          | Some found => found
          | None => (bracketed, EmptyString)
          end in
        if nonempty port && negb (starts_with ":" port)
        then Raise (ValueError "Invalid IPv6 URL")
        else check_bracketed_host hostname
  | None =>
      let hostname :=
        match cut_at ":" hostname_and_port with
        | Some (before, _) => before
        | None => hostname_and_port
        end in
      check_bracketed_host hostname
  end.

(** [urlparse(url, scheme)]. *)
Definition urlparse (url default_scheme : string) : result ParseResult :=
  let url := string_filter (fun c => negb (unsafe_to_remove c))
               (lstrip_if c0_control_or_space url) in
  let default_scheme :=
    string_filter (fun c => negb (unsafe_to_remove c))
      (rstrip_if c0_control_or_space (lstrip_if c0_control_or_space default_scheme)) in
  let (the_scheme, url) :=
    match split_scheme url with
    | Some found => found
    | None => (default_scheme, url)
    end in
  let (the_netloc, url) :=
    match url with
    | String "/" (String "/" rest) => splitnetloc rest
    | _ => (EmptyString, url)
    end in
  if xorb (contains_char "[" the_netloc) (contains_char "]" the_netloc)
  then Raise (ValueError "Invalid IPv6 URL")
  else
    match (if contains_char "[" the_netloc && contains_char "]" the_netloc
           then check_bracketed_netloc the_netloc else Return tt) with
    | Raise e => Raise e
    | Return _ =>
    let (url, the_fragment) :=
      match cut_at "#" url with
      | Some found => found
      | None => (url, EmptyString)
      end in
    let (url, the_query) :=
      match cut_at "?" url with
      | Some found => found
      | None => (url, EmptyString)
      end in
    let (url, the_params) :=
      if member the_scheme uses_params && contains_char ";" url then splitparams url
      else (url, EmptyString) in
    Return (mk_ParseResult the_scheme the_netloc url the_params the_query the_fragment)
    end.

Definition starts_with_slash (s : string) : bool :=
  match s with
  | String "/" _ => true
  | _ => false
  end.

Definition starts_with_two_slashes (s : string) : bool :=
  match s with
  | String "/" (String "/" _) => true
  | _ => false
  end.

(** [urlunparse]. *)
Definition urlunparse (p : ParseResult) : string :=
  let url := if nonempty (params p) then (path p ++ ";" ++ params p)%string else path p in
  let url :=
    if nonempty (netloc p)
       || (nonempty (scheme p) && member (scheme p) uses_netloc
           && negb (starts_with_two_slashes url))
    then
      let url := if nonempty url && negb (starts_with_slash url)
                 then ("/" ++ url)%string else url in
      ("//" ++ netloc p ++ url)%string
    else url in
  let url := if nonempty (scheme p) then (scheme p ++ ":" ++ url)%string else url in
  let url := if nonempty (query p) then (url ++ "?" ++ query p)%string else url in
  if nonempty (fragment p) then (url ++ "#" ++ fragment p)%string else url.

(** [segments[1:-1] = filter(None, segments[1:-1])]. *)
Definition drop_empty_inner (segments : list string) : list string :=
  match segments with
  | first :: (_ :: _) as rest =>
      first :: filter nonempty (removelast rest) ++ [last rest EmptyString]
  | _ => segments
  end.

(** The loop over the segments; [resolved] is kept in reverse. *)
Fixpoint resolve_dots (segments resolved : list string) : list string :=
  match segments with
  | [] => rev resolved
  | seg :: rest =>
      if (seg =? "..")%string then resolve_dots rest (tl resolved)
      else if (seg =? ".")%string then resolve_dots rest resolved
      else resolve_dots rest (seg :: resolved)
  end.

Definition urljoin (base url : string) : result string :=
  if negb (nonempty base) then Return url
  else if negb (nonempty url) then Return base
  else
    match urlparse base EmptyString with
    | Raise e => Raise e
    | Return b =>
        match urlparse url (scheme b) with
        | Raise e => Raise e
        | Return u =>
            if negb (scheme u =? scheme b)%string || negb (member (scheme u) uses_relative)
            then Return url
            else if member (scheme u) uses_netloc && nonempty (netloc u)
            then Return (urlunparse u)
            else
              let the_netloc :=
                if member (scheme u) uses_netloc then netloc b else netloc u in
              if negb (nonempty (path u)) && negb (nonempty (params u))
              then
                Return (urlunparse
                          (mk_ParseResult (scheme u) the_netloc (path b) (params b)
                             (if nonempty (query u) then query u else query b)
                             (fragment u)))
              else
                let base_parts := split_char "/" (path b) in
                let base_parts :=
                  if nonempty (last base_parts EmptyString) then removelast base_parts
                  else base_parts in
                let segments :=
                  if starts_with_slash (path u) then split_char "/" (path u)
                  else drop_empty_inner (base_parts ++ split_char "/" (path u)) in
                let resolved := resolve_dots segments [] in
                let resolved :=
                  let final := last segments EmptyString in
                  if (final =? ".")%string || (final =? "..")%string
                  then resolved ++ [EmptyString] else resolved in
                let joined := join "/" resolved in
                Return (urlunparse
                          (mk_ParseResult (scheme u) the_netloc
                             (if nonempty joined then joined else "/")
                             (params u) (query u) (fragment u)))
        end
    end.

End Urllib.


(** ** http_client.py *)

Module HttpClient.

(** What the client reads of an [httpx.Response]: [json] is [None] when
    [response.json()] raises, the parsed body otherwise. *)
Record Response : Type := mk_Response {
  status_code : Z;
  headers : list (string * string);
  text : string;
  json : option value
}.

(** [response.is_success]: the status is a 2xx. *)
Definition is_success (response : Response) : bool :=
  (200 <=? status_code response) && (status_code response <=? 299).

(** [name in response.headers]: header names compare without case. *)
Definition headers_contains (hs : list (string * string)) (name : string) : bool :=
  existsb (fun h => (lower (fst h) =? lower name)%string) hs.

(** [response.headers[name]] for a name that is present: the values of
    the header lines of that name, joined with a comma and a space. *)
Definition headers_get (hs : list (string * string)) (name : string) : string :=
  join ", " (map snd (filter (fun h => (lower (fst h) =? lower name)%string) hs)).

Record HTTPClient : Type := mk_HTTPClient {
  base_url : string;
  auth : Auth.Authenticator;
  timeout : value;
  retries : Z;
  user_agent : string;
  debug : bool
}.

(** [HTTPClient.__init__]. *)
Definition init (base_url : string) (auth : option Auth.Authenticator) (timeout : value)
    (retries : Z) (user_agent : string) (debug : bool) : HTTPClient :=
  {| base_url := rstrip_char "/" base_url;
     auth := match auth with Some a => a | None => Auth.NoAuth end;
     timeout := timeout;
     retries := retries;
     user_agent := user_agent;
     debug := debug |}.

(** [_handle_error]: it never returns, what it raises is its value. *)
Definition _handle_error (response : Response) : exn :=
  let error_data :=
    match json response with
    | Some parsed => parsed
    | None =>
        VDict [("error",
                if (text response =? "")%string then VStr "Unknown error"
                else VStr (text response))]
    end in
  match error_data with
  | VDict d =>
      let message :=
        dict_get_default d "message" (dict_get_default d "error" (VStr "Unknown error")) in
      let code := dict_get_default d "code" (VStr "") in
      let details := dict_get_default d "details" (VStr "") in
      if status_code response =? 404 then
        Gotrs (NotFoundError message (Some details) (Some error_data))
      else if status_code response =? 401 then
        Gotrs (UnauthorizedError message (Some details) (Some error_data))
      else if status_code response =? 403 then
        Gotrs (ForbiddenError message (Some details) (Some error_data))
      else if status_code response =? 429 then
        let retry_after :=
          if headers_contains (headers response) "Retry-After"
          then py_int (headers_get (headers response) "Retry-After")
          else None in
        Gotrs (RateLimitError message retry_after (Some details) (Some error_data))
      else if (500 <=? status_code response) && (status_code response <? 600) then
        Gotrs (ServerError message
                 (mk_kwargs (Some (status_code response)) (Some code) (Some details)
                    (Some error_data)))
      else
        Gotrs (GotrsError message
                 (mk_kwargs (Some (status_code response)) (Some code) (Some details)
                    (Some error_data)))
  | _ => AttributeError
  end.

(** What one call of [self._client.request] does. *)
Inductive transport_outcome : Type :=
| Responds (response : Response)
| TimesOut
| NetworkFails (text : string)
| Crashes (e : exn).

(** What the retry loop does besides computing its result, in order. *)
Inductive event : Type :=
| Requested
| Printed (line : string)
| Slept (delay : Z).

(** [range(n)]. *)
Definition range (n : Z) : list Z := map Z.of_nat (seq 0 (Z.to_nat n)).

Section Engine.

(** [str(v)]. *)
Variable str : value -> string.

(** [urllib.parse.urljoin] and [urllib.parse.urlencode]. *)
Variable urljoin : string -> string -> result string.
Variable urlencode : list (string * string) -> string.

(** The comprehension of [_build_url] that drops the parameters whose
    value is [None] and turns the others into strings. *)
Fixpoint clean (params : list (string * value)) : list (string * string) :=
  match params with
  | [] => []
  | (key, VNone) :: rest => clean rest
  | (key, VList items) :: rest => (key, join "," (map str items)) :: clean rest
  | (key, v) :: rest => (key, str v) :: clean rest
  end.

Definition _build_url (c : HTTPClient) (path : string)
    (params : option (list (string * value))) : result string :=
  match urljoin (base_url c ++ "/")%string (lstrip_char "/" path) with
  | Raise e => Raise e
  | Return url =>
      match params with
      | Some ((_ :: _) as given) =>
          match clean given with
          | [] => Return url
          | clean_params => Return (url ++ "?" ++ urlencode clean_params)%string
          end
      | _ => Return url
      end
  end.

(** The line printed before a backoff when [debug] is set. *)
Definition retry_notice (c : HTTPClient) (what : string) (attempt delay : Z) : list event :=
  if debug c
  then [Printed (what ++ " (attempt " ++ str (VInt (attempt + 1)) ++ "), retrying in "
                   ++ str (VInt delay) ++ "s...")%string]
  else [].

(** The [for] loop of [_make_request_with_retries] over the attempts
    [todo] that remain. [transport n] is the outcome of the call of
    [self._client.request] made after [n] earlier calls; [made] counts
    the calls already made. *)
Fixpoint attempts (c : HTTPClient) (transport : nat -> transport_outcome)
    (todo : list Z) (made : nat) (last_exception : option exn)
    : list event * result Response :=
  match todo with
  | [] =>
      match last_exception with
      | Some e => ([], Raise e)
      | None =>
          ([], Raise (Gotrs (GotrsError (VStr "Request failed after all retry attempts")
                               no_kwargs)))
      end
  | attempt :: rest =>
      match transport made with
      | Responds response =>
          if is_success response then ([Requested], Return response)
          else if (400 <=? status_code response) && (status_code response <? 500)
                  && negb (status_code response =? 429)
          then ([Requested], Raise (_handle_error response))
          else if attempt <? retries c then
            let delay := 2 ^ attempt in
            let (later, outcome) := attempts c transport rest (S made) last_exception in
            (Requested :: retry_notice c "Request failed" attempt delay
               ++ Slept delay :: later, outcome)
          else ([Requested], Raise (_handle_error response))
      | TimesOut =>
          let last_exception :=
            Some (Gotrs (TimeoutError
                           (VStr ("Request timed out after " ++ str (timeout c) ++ "s")%string)
                           no_kwargs)) in
          if attempt <? retries c then
            let delay := 2 ^ attempt in
            let (later, outcome) := attempts c transport rest (S made) last_exception in
            (Requested :: retry_notice c "Request timed out" attempt delay
               ++ Slept delay :: later, outcome)
          else
            let (later, outcome) := attempts c transport rest (S made) last_exception in
            (Requested :: later, outcome)
      | NetworkFails text =>
          let last_exception :=
            Some (Gotrs (NetworkError (VStr ("Network error: " ++ text)%string) no_kwargs)) in
          if attempt <? retries c then
            let delay := 2 ^ attempt in
            let (later, outcome) := attempts c transport rest (S made) last_exception in
            (Requested :: retry_notice c "Network error" attempt delay
               ++ Slept delay :: later, outcome)
          else
            let (later, outcome) := attempts c transport rest (S made) last_exception in
            (Requested :: later, outcome)
      | Crashes e => ([Requested], Raise e)
      end
  end.

Definition _make_request_with_retries (c : HTTPClient)
    (transport : nat -> transport_outcome) : list event * result Response :=
  attempts c transport (range (retries c + 1)) 0%nat None.

(** [[model_class.model_validate(item) for item in result_data]]. *)
Fixpoint validate_each (model_validate : value -> result value) (items : list value)
    : result (list value) :=
  match items with
  | [] => Return []
  | item :: rest =>
      match model_validate item with
      | Raise e => Raise e
      | Return model =>
          match validate_each model_validate rest with
          | Raise e => Raise e
          | Return models => Return (model :: models)
          end
      end
  end.

(** The last block of [_extract_data]: the value is parsed with the
    model when one was asked for and the value is not [None]. *)
Definition parse_with_model (model_class : option (value -> result value))
    (result_data : value) : result value :=
  match model_class, result_data with
  | None, _ => Return result_data
  | Some _, VNone => Return result_data
  | Some model_validate, VList items =>
      match validate_each model_validate items with
      | Raise e => Raise e
      | Return models => Return (VList models)
      end
  | Some model_validate, _ => model_validate result_data
  end.

(** [_extract_data]; [model_class] is given by its [model_validate]. *)
Definition _extract_data (response : Response)
    (model_class : option (value -> result value)) : result value :=
  match json response with
  | None => Return (VStr (text response))
  | Some data =>
      let unwrapped : result value :=
        match data with
        | VDict d =>
            match dict_get d "success" with
            | Some success =>
                if negb (truthy success) then
                  let error_msg := dict_get_default d "error" (VStr "API request failed") in
                  Raise (Gotrs (GotrsError error_msg
                                  (mk_kwargs (Some (status_code response)) None None None)))
                else Return (dict_get_default d "data" data)
            | None => Return data
            end
        | _ => Return data
        end in
      match unwrapped with
      | Raise e => Raise e
      | Return result_data => parse_with_model model_class result_data
      end
  end.

End Engine.

(** *** Reading a trace *)

(** The number of calls made to the transport. *)
Definition requests (evs : list event) : nat :=
  List.length (filter (fun e => match e with Requested => true | _ => false end) evs).

(** The delays slept, in order. *)
Definition delays (evs : list event) : list Z :=
  flat_map (fun e => match e with Slept d => [d] | _ => [] end) evs.

(** The trace without the lines printed in debug mode. *)
Definition quiet (evs : list event) : list event :=
  filter (fun e => match e with Printed _ => false | _ => true end) evs.

(** [k] attempts, the first numbered [from], each followed by its
    backoff. *)
Fixpoint backoffs (from : nat) (k : nat) : list event :=
  match k with
  | O => []
  | S k' => Requested :: Slept (2 ^ Z.of_nat from) :: backoffs (S from) k'
  end.

(** An outcome after which the loop goes on to the next attempt while
    attempts remain: a response that is neither a success nor a client
    error other than 429, a timeout, a network failure. *)
Definition retryable (o : transport_outcome) : bool :=
  match o with
  | Responds response =>
      negb (is_success response)
      && negb ((400 <=? status_code response) && (status_code response <? 500)
               && negb (status_code response =? 429))
  | TimesOut => true
  | NetworkFails _ => true
  | Crashes _ => false
  end.

(** The body of an error response is usable by [_handle_error] when it is
    not JSON or is a JSON object. *)
Definition object_or_text (response : Response) : bool :=
  match json response with
  | None => true
  | Some parsed => is_dict parsed
  end.

(** The fields [_handle_error] reads: those of the body when it is a JSON
    object, the one it makes up when the body is not JSON. *)
Definition error_fields (response : Response) : list (string * value) :=
  match json response with
  | Some (VDict d) => d
  | _ =>
      [("error",
        if (text response =? "")%string then VStr "Unknown error" else VStr (text response))]
  end.

(** *** Examples, and the envelope law as the specification states it *)

(** [str] for the examples, where nothing is printed. *)
Definition silent (v : value) : string := EmptyString.

(** The body [{"error": "boom"}] of a response of status 500. *)
Definition boom_response : Response :=
  mk_Response 500 []
    ("{" ++ quoted "error" ++ ": " ++ quoted "boom" ++ "}")%string
    (Some (VDict [("error", VStr "boom")])).

(** The client of the examples: three retries, as by default. *)
Definition client : HTTPClient :=
  init "https://x.test" None (VFloat 30) 3 "gotrs-python-sdk/1.0.0" false.

(** The body [{"success": true, "data": {"id": 7}}], answered with
    status 200. *)
Definition success_with_data : Response :=
  mk_Response 200 []
    ("{" ++ quoted "success" ++ ": true, " ++ quoted "data" ++ ": {" ++ quoted "id"
       ++ ": 7}}")%string
    (Some (VDict [("success", VBool true); ("data", VDict [("id", VInt 7)])])).

(** A transport that answers 500 to its first two calls and then
    [success_with_data]. *)
Definition fails_twice (n : nat) : transport_outcome :=
  if (n <? 2)%nat
  then Responds (mk_Response 500 [] "Internal Server Error" None)
  else Responds success_with_data.

(** A response of status 429 with the body [{"error": "slow down"}] and
    the given value of the [Retry-After] header. *)
Definition slow_down (retry_after : string) : Response :=
  mk_Response 429 [("retry-after", retry_after)]
    ("{" ++ quoted "error" ++ ": " ++ quoted "slow down" ++ "}")%string
    (Some (VDict [("error", VStr "slow down")])).

(** The message the specification gives to the failure of an envelope
    whose [success] is false: the ["error"] field of the body, or else
    its ["message"] field. *)
Definition stated_message (d : list (string * value)) : option value :=
  match dict_get d "error" with
  | Some m => Some m
  | None => dict_get d "message"
  end.

(** The envelope law as the specification states it. *)
Definition stated_envelope_law : Prop :=
  forall (response : Response) (d : list (string * value)) (success m : value),
    json response = Some (VDict d) ->
    dict_get d "success" = Some success ->
    truthy success = false ->
    stated_message d = Some m ->
    exists e,
      _extract_data response None = Raise (Gotrs e)
      /\ message e = m
      /\ Exceptions.status_code e = Some (status_code response).

(** The body [{"success": false, "message": "boom"}], answered with
    status 200. *)
Definition failure_with_message : Response :=
  mk_Response 200 []
    ("{" ++ quoted "success" ++ ": false, " ++ quoted "message" ++ ": " ++ quoted "boom"
       ++ "}")%string
    (Some (VDict [("success", VBool false); ("message", VStr "boom")])).

(** The body [{"success": false, "error": "boom"}], answered with
    status 200. *)
Definition failure_with_error : Response :=
  mk_Response 200 []
    ("{" ++ quoted "success" ++ ": false, " ++ quoted "error" ++ ": " ++ quoted "boom"
       ++ "}")%string
    (Some (VDict [("success", VBool false); ("error", VStr "boom")])).

End HttpClient.


(** ** Concurrent callers of [refresh]

    Coroutines that call [refresh()] on one authenticator run one at a
    time and give way only where they suspend: on the lock when it is
    held, and while the refresh procedure is awaited. A schedule names,
    step after step, the caller that runs next and the clock it reads. A
    caller that waits for the lock may take it whenever it is free, in any
    order: the schedules include those of a first-come-first-served lock. *)

Module Concurrent.

Import Auth.

(** Where a caller is in [refresh]: not started, suspended on the lock,
    suspended on the refresh procedure (it holds the lock; the outcome is
    what the procedure will answer), or finished. *)
Inductive position : Type :=
| Start
| Waiting
| Awaiting (outcome : callback_outcome)
| Done (r : result unit).

Record state : Type := mk_state {
  auth : Authenticator;
  locked : bool;
  calls : nat;
  callers : list position
}.

Fixpoint set_caller (i : nat) (p : position) (l : list position) {struct l}
    : list position :=
  match l with
  | [] => []
  | q :: rest =>
      match i with
      | O => p :: rest
      | S j => q :: set_caller j p rest
      end
  end.

Definition is_done (p : position) : bool :=
  match p with
  | Done _ => true
  | _ => false
  end.

Definition all_done (st : state) : bool := forallb is_done (callers st).

(** [n] callers have been launched and none has run yet. *)
Definition launch (a : Authenticator) (n : nat) : state :=
  mk_state a false 0 (repeat Start n).

Section Scheduler.

Variable fromisoformat : string -> Q + string.
Variable subscript_error : value -> string.

(** Caller [i] has the lock: the check made under it, and the call of
    the refresh procedure when the credential is still expired. Leaving
    the [async with] block, by [return] or by an exception, frees the
    lock. *)
Definition under_lock (st : state) (i : nat) (s : token_state) (now : Q) : state :=
  match token_is_expired s now with
  | Raise e =>
      mk_state (auth st) false (calls st) (set_caller i (Done (Raise e)) (callers st))
  | Return false =>
      mk_state (auth st) false (calls st) (set_caller i (Done (Return tt)) (callers st))
  | Return true =>
      match refresh_function s with
      | Some procedure =>
          mk_state (auth st) true (S (calls st))
            (set_caller i (Awaiting (procedure (calls st) (refresh_token s))) (callers st))
      | None =>
          mk_state (auth st) false (calls st)
            (set_caller i (Done (Raise (refresh_failed "'NoneType' object is not callable")))
               (callers st))
      end
  end.

(** Caller [i] runs up to its next suspension; [now] is the clock it
    reads if it gets to [is_expired]. A caller that cannot go on (it is
    finished, or the lock it waits for is held) leaves the state as it is. *)
Definition step (i : nat) (now : Q) (st : state) : state :=
  match nth_error (callers st) i with
  | None => st
  | Some Start =>
      match tokens_of (auth st) with
      | None =>
          mk_state (auth st) (locked st) (calls st)
            (set_caller i (Done (Return tt)) (callers st))
      | Some s =>
          match refresh_function s with
          | None =>
              mk_state (auth st) (locked st) (calls st)
                (set_caller i (Done (Raise no_refresh_available)) (callers st))
          | Some _ =>
              if negb (truthy (refresh_token s)) then
                mk_state (auth st) (locked st) (calls st)
                  (set_caller i (Done (Raise no_refresh_available)) (callers st))
              else if locked st then
                mk_state (auth st) (locked st) (calls st)
                  (set_caller i Waiting (callers st))
              else under_lock st i s now
          end
      end
  | Some Waiting =>
      if locked st then st
      else
        match tokens_of (auth st) with
        | None => st
        | Some s => under_lock st i s now
        end
  | Some (Awaiting outcome) =>
      match tokens_of (auth st) with
      | None => st
      | Some s =>
          let (s', r) := store_refreshed fromisoformat subscript_error s outcome in
          mk_state (with_tokens (auth st) s') false (calls st)
            (set_caller i (Done r) (callers st))
      end
  | Some (Done _) => st
  end.

Fixpoint run (schedule : list (nat * Q)) (st : state) : state :=
  match schedule with
  | [] => st
  | (i, now) :: rest => run rest (step i now st)
  end.

End Scheduler.

(** A clock reading at which a credential that expires at [old_expiry] is
    expired and one that expires at [new_expiry] is not. *)
Definition in_window (old_expiry new_expiry now : Q) : bool :=
  Qle_bool (timestamp old_expiry) (Double.add (timestamp now) 60)
  && negb (Qle_bool (timestamp new_expiry) (Double.add (timestamp now) 60)).

(** A schedule under which every caller finishes: the first caller runs
    twice, to take the lock and to store what the refresh procedure
    answered, then the others run in turn. *)
Definition in_turn (n : nat) (now : Q) : list (nat * Q) :=
  (0%nat, now) :: (0%nat, now) :: map (fun i => (i, now)) (seq 1 (n - 1)).

(** How a caller may have finished once the credential is refreshed. *)
Definition finished (refreshed : token_state) (p : position) : Prop :=
  p = Done (Return tt)
  \/ (p = Done (Raise no_refresh_available) /\ truthy (refresh_token refreshed) = false).

(** A caller that has not entered the critical section. *)
Definition idle (p : position) : Prop := p = Start \/ p = Waiting.

(** The three stages of a run in which the first answer [outcome] of the
    refresh procedure turns the credential of [a] into [refreshed]:
    nobody has run; one caller holds the lock and awaits the procedure;
    the credential is refreshed and the lock is free. *)
Inductive stage (a : Authenticator) (refreshed : token_state) (outcome : callback_outcome)
    (st : state) : Prop :=
| Untouched :
    auth st = a -> locked st = false -> calls st = 0%nat ->
    Forall (eq Start) (callers st) ->
    stage a refreshed outcome st
| Refreshing (i : nat) (others : list position) :
    auth st = a -> locked st = true -> calls st = 1%nat ->
    callers st = set_caller i (Awaiting outcome) others ->
    (i < List.length others)%nat ->
    Forall idle others ->
    stage a refreshed outcome st
| Refreshed :
    auth st = with_tokens a refreshed -> locked st = false -> calls st = 1%nat ->
    Forall (fun p => idle p \/ finished refreshed p) (callers st) ->
    stage a refreshed outcome st.

(** Stand-ins for the two interpreter functions in the examples, where
    neither is reached. *)
Definition no_isoformat (s : string) : Q + string := inr "Invalid isoformat string".

Definition not_subscriptable (v : value) : string := "object is not subscriptable".

(** A JWT authenticator that expired at the epoch, with a refresh
    procedure whose result holds a new access token and no expiry. *)
Definition stale_jwt : Authenticator :=
  JWTAuth (mk_token_state (VStr "old") (VStr "again") (VDatetime 0)
             (Some (fun _ _ => Returns (VDict [("access_token", VStr "new")])))).

(** An OAuth2 authenticator that expired at the epoch, with a refresh
    procedure whose result holds a new access token and the expiry 1000. *)
Definition stale_oauth2 : Authenticator :=
  OAuth2Auth "Bearer"
    (mk_token_state (VStr "old") (VStr "again") (VDatetime 0)
       (Some (fun _ _ => Returns (VDict [("access_token", VStr "new");
                                         ("expires_at", VDatetime 1000)])))).

(** A run of two callers: the first takes the lock, the second finds it
    held, the first stores the answer, the second takes the lock and
    stores the answer it gets. The clock reads 100 throughout. *)
Definition two_callers : list (nat * Q) :=
  [(0%nat, 100%Q); (1%nat, 100%Q); (0%nat, 100%Q); (1%nat, 100%Q); (1%nat, 100%Q)].

(** A run of three callers in which the clock advances. *)
Definition three_callers : list (nat * Q) :=
  [(2%nat, 100%Q); (0%nat, 101%Q); (1%nat, 102%Q); (2%nat, 103%Q); (1%nat, 104%Q);
   (0%nat, 105%Q)].

(** The claim on concurrent callers as the specification states it: any
    refresh procedure, and an authenticator that is expired for the
    expiry it starts with at every clock reading of the run. *)
Definition stated_single_refresh : Prop :=
  forall (n : nat) (a : Authenticator) (s : token_state) (procedure : refresh_procedure)
         (schedule : list (nat * Q)),
    (1 <= n)%nat ->
    tokens_of a = Some s ->
    refresh_function s = Some procedure ->
    truthy (refresh_token s) = true ->
    (forall ev, In ev schedule -> is_expired a (snd ev) = Return true) ->
    all_done (run no_isoformat not_subscriptable schedule (launch a n)) = true ->
    calls (run no_isoformat not_subscriptable schedule (launch a n)) = 1%nat.

End Concurrent.


(** ** Dicts that are written to

    A dict keeps its keys in the order of their first insertion; a key
    is bound once. *)

(** [d[key] = v]. *)
Fixpoint dict_set {A : Type} (d : list (string * A)) (key : string) (v : A)
    : list (string * A) :=
  match d with
  | [] => [(key, v)]
  | (k, old) :: rest =>
      if (k =? key)%string then (key, v) :: rest else (k, old) :: dict_set rest key v
  end.

(** [d.update(other)]. *)
Definition dict_update {A : Type} (d other : list (string * A)) : list (string * A) :=
  fold_left (fun acc binding => dict_set acc (fst binding) (snd binding)) other d.

(** [del d[key]] for a key that is present. *)
Definition dict_del {A : Type} (d : list (string * A)) (key : string) : list (string * A) :=
  filter (fun binding => negb (fst binding =? key)%string) d.

(** The entries are those of a dict: no key is bound twice. *)
Definition is_a_dict {A : Type} (d : list (string * A)) : Prop := NoDup (map fst d).

(** [value is None]. *)
Definition is_None (v : value) : bool :=
  match v with
  | VNone => true
  | _ => false
  end.

(** [n] slashes. *)
Fixpoint slashes (n : nat) : string :=
  match n with
  | O => EmptyString
  | S m => String "/" (slashes m)
  end.

(** ** exceptions.py: the rendering of an error *)

Module Rendering.

Section Str.

(** [str(v)], which an f-string applies to what it interpolates. *)
Variable str : value -> string.

(** [GotrsError.__str__]. [base_msg] is the message as it was given until
    a prefix or a suffix makes a string of it; what is returned has to be
    a string. *)
Definition __str__ (e : error) : result string :=
  let base_msg := message e in
  let base_msg :=
    match Exceptions.status_code e with
    | Some status =>
        if negb (status =? 0)
        then VStr ("HTTP " ++ str (VInt status) ++ ": " ++ str base_msg)%string
        else base_msg
    | None => base_msg
    end in
  let base_msg :=
    if truthy (details e)
    then VStr (str base_msg ++ " - " ++ str (details e))%string
    else base_msg in
  match base_msg with
  | VStr rendered => Return rendered
  | _ => Raise TypeError
  end.

End Str.

(** [str] on strings and integers, for the examples; no other value is
    rendered in them. *)
Definition str_of_text_or_int (v : value) : string :=
  match v with
  | VStr s => s
  | VInt n => NilZero.string_of_int (Z.to_int n)
  | _ => EmptyString
  end.

End Rendering.

(** ** auth.py: the headers of an authenticator *)

Module AuthHeaders.

Import Auth.

Section Headers.

Variable str : value -> string.

(** [get_auth_headers] of the four classes. *)
Definition get_auth_headers (a : Authenticator) : list (string * string) :=
  match a with
  | NoAuth => []
  | APIKeyAuth api_key header_name => [(header_name, api_key)]
  | JWTAuth s => [("Authorization", ("Bearer " ++ str (token s))%string)]
  | OAuth2Auth token_type s =>
      [("Authorization", (token_type ++ " " ++ str (token s))%string)]
  end.

End Headers.

End AuthHeaders.

(** ** http_client.py: the headers and the verbs *)

Module Verbs.

Import Auth AuthHeaders HttpClient.

(** The [json] argument of [post], [put] and [patch]: any object, or an
    instance of [BaseModel], which is given by what
    [model_dump(exclude_none=True)] returns for it. *)
Inductive json_argument : Type :=
| Plain (v : value)
| Model (dump : value).

(** The [files] argument the upload passes on: the one entry ["file"],
    a triple of the file name, the bytes and the content type. *)
Record file_part : Type := mk_file_part {
  filename : string;
  file_data : string;
  content_type : option string
}.

(** What [self._client.request] is called with. *)
Record Request : Type := mk_Request {
  req_method : string;
  req_url : string;
  req_headers : list (string * string);
  req_json : option value;
  req_data : option value;
  req_files : option file_part
}.

(** [set_auth]. *)
Definition set_auth (c : HTTPClient) (a : Authenticator) : HTTPClient :=
  mk_HTTPClient (base_url c) a (timeout c) (retries c) (user_agent c) (debug c).

(** The block of [post], [put] and [patch] that fills [kwargs]: [json]
    when it is not [None], else [data] when it is not [None]. The result
    is the pair of the [json] and [data] keyword arguments. *)
Definition body_kwargs (json : json_argument) (data : value) : option value * option value :=
  match json with
  | Model dump => (Some dump, None)
  | Plain VNone =>
      match data with
      | VNone => (None, None)
      | _ => (None, Some data)
      end
  | Plain v => (Some v, None)
  end.

Section Engine.

Variable str : value -> string.
Variable urljoin : string -> string -> result string.
Variable urlencode : list (string * string) -> string.
Variable fromisoformat : string -> Q + string.
Variable subscript_error : value -> string.

(** [response.content]: the bytes of the body. *)
Variable content : Response -> string.

(** [_prepare_headers]. [calls] counts the invocations of the refresh
    procedure, [now] is the clock read by [self.auth.is_expired()] and
    [now_locked] the clock read by the check [refresh] makes under its
    lock. The authenticator is an attribute of the client and [refresh]
    assigns to it in place: the client comes back with it. *)
Definition _prepare_headers (c : HTTPClient) (headers : option (list (string * string)))
    (calls : nat) (now now_locked : Q)
    : HTTPClient * nat * result (list (string * string)) :=
  let final_headers := [("Content-Type", "application/json")] in
  let final_headers :=
    match headers with
    | Some ((_ :: _) as given) => dict_update final_headers given
    | _ => final_headers
    end in
  match is_expired (auth c) now with
  | Raise e => (c, calls, Raise e)
  | Return false =>
      (c, calls, Return (dict_update final_headers (get_auth_headers str (auth c))))
  | Return true =>
      let '(a, calls', refreshed) :=
        refresh fromisoformat subscript_error (auth c) calls now_locked in
      match refreshed with
      | Raise e => (set_auth c a, calls', Raise e)
      | Return _ =>
          (set_auth c a, calls',
           Return (dict_update final_headers (get_auth_headers str a)))
      end
  end.

(** The two lines every verb starts with: the URL is built, then the
    headers are prepared. *)
Definition prepared (c : HTTPClient) (path : string)
    (params : option (list (string * value))) (headers : option (list (string * string)))
    (calls : nat) (now now_locked : Q)
    : HTTPClient * nat * result (string * list (string * string)) :=
  match _build_url str urljoin urlencode c path params with
  | Raise e => (c, calls, Raise e)
  | Return url =>
      let '(c', calls', request_headers) :=
        _prepare_headers c headers calls now now_locked in
      match request_headers with
      | Raise e => (c', calls', Raise e)
      | Return hs => (c', calls', Return (url, hs))
      end
  end.

(** What a verb leaves behind and gives back: the client, the count of
    invocations of the refresh procedure, the trace of the retry loop,
    and the value returned or the exception raised. *)
Definition outcome (A : Type) : Type := (HTTPClient * nat * list event * result A)%type.

(** The request is sent with retries and the data is extracted from the
    response. [server request n] is what the transport does with
    [request] after [n] earlier calls. *)
Definition send (c : HTTPClient) (calls : nat)
    (server : Request -> nat -> transport_outcome) (request : Request)
    (model_class : option (value -> result value)) : outcome value :=
  let (evs, response) := _make_request_with_retries str c (server request) in
  match response with
  | Raise e => (c, calls, evs, Raise e)
  | Return r => (c, calls, evs, _extract_data r model_class)
  end.

Definition get (c : HTTPClient) (server : Request -> nat -> transport_outcome)
    (path : string) (params : option (list (string * value)))
    (headers : option (list (string * string)))
    (model_class : option (value -> result value))
    (calls : nat) (now now_locked : Q) : outcome value :=
  match prepared c path params headers calls now now_locked with
  | (c', calls', Raise e) => (c', calls', [], Raise e)
  | (c', calls', Return (url, request_headers)) =>
      send c' calls' server (mk_Request "GET" url request_headers None None None)
        model_class
  end.

Definition post (c : HTTPClient) (server : Request -> nat -> transport_outcome)
    (path : string) (data : value) (json : json_argument)
    (headers : option (list (string * string)))
    (model_class : option (value -> result value))
    (calls : nat) (now now_locked : Q) : outcome value :=
  match prepared c path None headers calls now now_locked with
  | (c', calls', Raise e) => (c', calls', [], Raise e)
  | (c', calls', Return (url, request_headers)) =>
      send c' calls' server
        (mk_Request "POST" url request_headers (fst (body_kwargs json data))
           (snd (body_kwargs json data)) None)
        model_class
  end.

Definition put (c : HTTPClient) (server : Request -> nat -> transport_outcome)
    (path : string) (data : value) (json : json_argument)
    (headers : option (list (string * string)))
    (model_class : option (value -> result value))
    (calls : nat) (now now_locked : Q) : outcome value :=
  match prepared c path None headers calls now now_locked with
  | (c', calls', Raise e) => (c', calls', [], Raise e)
  | (c', calls', Return (url, request_headers)) =>
      send c' calls' server
        (mk_Request "PUT" url request_headers (fst (body_kwargs json data))
           (snd (body_kwargs json data)) None)
        model_class
  end.

Definition delete (c : HTTPClient) (server : Request -> nat -> transport_outcome)
    (path : string) (headers : option (list (string * string)))
    (model_class : option (value -> result value))
    (calls : nat) (now now_locked : Q) : outcome value :=
  match prepared c path None headers calls now now_locked with
  | (c', calls', Raise e) => (c', calls', [], Raise e)
  | (c', calls', Return (url, request_headers)) =>
      send c' calls' server (mk_Request "DELETE" url request_headers None None None)
        model_class
  end.

Definition patch (c : HTTPClient) (server : Request -> nat -> transport_outcome)
    (path : string) (data : value) (json : json_argument)
    (headers : option (list (string * string)))
    (model_class : option (value -> result value))
    (calls : nat) (now now_locked : Q) : outcome value :=
  match prepared c path None headers calls now now_locked with
  | (c', calls', Raise e) => (c', calls', [], Raise e)
  | (c', calls', Return (url, request_headers)) =>
      send c' calls' server
        (mk_Request "PATCH" url request_headers (fst (body_kwargs json data))
           (snd (body_kwargs json data)) None)
        model_class
  end.

(** The headers of an upload: [Content-Type] is deleted when present. *)
Definition upload_headers (request_headers : list (string * string))
    : list (string * string) :=
  match dict_get request_headers "Content-Type" with
  | Some _ => dict_del request_headers "Content-Type"
  | None => request_headers
  end.

(** [additional_fields or {}], as the [data] keyword argument. *)
Definition upload_fields (additional_fields : option (list (string * string))) : value :=
  match additional_fields with
  | Some ((_ :: _) as fields) => VDict (map (fun f => (fst f, VStr (snd f))) fields)
  | _ => VDict []
  end.

Definition upload_file (c : HTTPClient) (server : Request -> nat -> transport_outcome)
    (path : string) (file_data filename : string) (content_type : option string)
    (additional_fields : option (list (string * string)))
    (headers : option (list (string * string)))
    (model_class : option (value -> result value))
    (calls : nat) (now now_locked : Q) : outcome value :=
  match prepared c path None headers calls now now_locked with
  | (c', calls', Raise e) => (c', calls', [], Raise e)
  | (c', calls', Return (url, request_headers)) =>
      send c' calls' server
        (mk_Request "POST" url (upload_headers request_headers) None
           (Some (upload_fields additional_fields))
           (Some (mk_file_part filename file_data content_type)))
        model_class
  end.

Definition download_file (c : HTTPClient) (server : Request -> nat -> transport_outcome)
    (path : string) (headers : option (list (string * string)))
    (calls : nat) (now now_locked : Q) : outcome string :=
  match prepared c path None headers calls now now_locked with
  | (c', calls', Raise e) => (c', calls', [], Raise e)
  | (c', calls', Return (url, request_headers)) =>
      let (evs, response) :=
        _make_request_with_retries str c'
          (server (mk_Request "GET" url request_headers None None None)) in
      match response with
      | Raise e => (c', calls', evs, Raise e)
      | Return r =>
          if negb (is_success r) then (c', calls', evs, Raise (_handle_error r))
          else (c', calls', evs, Return (content r))
      end
  end.

End Engine.

(** *** Examples *)

(** A client whose retry count is negative. *)
Definition no_attempt_client : HTTPClient :=
  init "https://x.test" None (VFloat 30) (-1) "gotrs-python-sdk/1.0.0" false.

(** A transport that never answers in time. *)
Definition always_late (n : nat) : transport_outcome := TimesOut.

(** A transport that is rate limited once, times out once, and then
    answers [success_with_data]. *)
Definition recovers (n : nat) : transport_outcome :=
  match n with
  | O => Responds (slow_down "1")
  | S O => TimesOut
  | _ => Responds success_with_data
  end.

(** A transport whose second call fails with an exception the client does
    not catch. *)
Definition breaks (n : nat) : transport_outcome :=
  match n with
  | O => NetworkFails "connection reset"
  | _ => Crashes (TransportError "too many redirects")
  end.

(** A response of status 404 whose body has a message, an error, a code
    and details. *)
Definition not_found : Response :=
  mk_Response 404 []
    ("{" ++ quoted "message" ++ ": " ++ quoted "no such ticket" ++ ", " ++ quoted "error"
       ++ ": " ++ quoted "missing" ++ ", " ++ quoted "code" ++ ": " ++ quoted "E42" ++ ", "
       ++ quoted "details" ++ ": " ++ quoted "id 7" ++ "}")%string
    (Some (VDict [("message", VStr "no such ticket"); ("error", VStr "missing");
                  ("code", VStr "E42"); ("details", VStr "id 7")])).

(** A success whose [data] is a list of two items. *)
Definition two_items : Response :=
  mk_Response 200 []
    ("{" ++ quoted "success" ++ ": true, " ++ quoted "data" ++ ": [1, 2]}")%string
    (Some (VDict [("success", VBool true); ("data", VList [VInt 1; VInt 2])])).

(** A model that accepts integers and wraps them. *)
Definition integers_only (v : value) : result value :=
  match v with
  | VInt n => Return (VDict [("value", VInt n)])
  | _ => Raise (ValueError "not an integer")
  end.

(** A JWT authenticator that expired at the epoch and has no refresh
    procedure. *)
Definition stuck_jwt : Authenticator :=
  JWTAuth (mk_token_state (VStr "old") (VStr "again") (VDatetime 0) None).

(** A JWT authenticator whose refresh procedure fails. *)
Definition failing_jwt : Authenticator :=
  JWTAuth (mk_token_state (VStr "old") (VStr "again") (VDatetime 0)
             (Some (fun _ _ => Fails "connection refused"))).

(** A JWT authenticator whose refresh procedure answers with a new token
    and an expiry that does not parse. *)
Definition garbled_jwt : Authenticator :=
  JWTAuth (mk_token_state (VStr "old") (VStr "again") (VDatetime 0)
             (Some (fun _ _ => Returns (VDict [("access_token", VStr "new");
                                               ("expires_at", VStr "soon")])))).

(** A server that answers every request with [success_with_data]. *)
Definition obliging (request : Request) (n : nat) : transport_outcome :=
  Responds success_with_data.

(** A server that answers every request with the failure envelope
    [failure_with_error]. *)
Definition refusing (request : Request) (n : nat) : transport_outcome :=
  Responds failure_with_error.

(** [response.content] for the examples: the text of the body. *)
Definition text_bytes (response : Response) : string := text response.

End Verbs.

(** ** __init__.py: the convenience functions *)

Module Helpers.

(** The base class of a class of the taxonomy; [GotrsError] derives from
    [Exception]. *)
Definition base_class (c : error_class) : option error_class :=
  match c with
  | cls_GotrsError => None
  | cls_UnauthorizedError | cls_ForbiddenError => Some cls_AuthenticationError
  | _ => Some cls_GotrsError
  end.

Definition same_class (a b : error_class) : bool :=
  match a, b with
  | cls_GotrsError, cls_GotrsError
  | cls_ValidationError, cls_ValidationError
  | cls_NetworkError, cls_NetworkError
  | cls_TimeoutError, cls_TimeoutError
  | cls_AuthenticationError, cls_AuthenticationError
  | cls_NotFoundError, cls_NotFoundError
  | cls_UnauthorizedError, cls_UnauthorizedError
  | cls_ForbiddenError, cls_ForbiddenError
  | cls_RateLimitError, cls_RateLimitError
  | cls_ServerError, cls_ServerError
  | cls_ConfigurationError, cls_ConfigurationError
  | cls_WebSocketError, cls_WebSocketError => true
  | _, _ => false
  end.

(** [issubclass(c, base)]: the hierarchy is two levels deep. *)
Definition issubclass (c base : error_class) : bool :=
  same_class c base
  || match base_class c with
     | None => false
     | Some parent =>
         same_class parent base
         || match base_class parent with
            | None => false
            | Some grandparent => same_class grandparent base
            end
     end.

(** [isinstance(error, base)] for a class of the taxonomy. *)
Definition isinstance (error : exn) (base : error_class) : bool :=
  match error with
  | Gotrs e => issubclass (cls e) base
  | _ => false
  end.

Definition is_gotrs_error (error : exn) : bool := isinstance error cls_GotrsError.

Definition is_not_found_error (error : exn) : bool := isinstance error cls_NotFoundError.

Definition is_unauthorized_error (error : exn) : bool :=
  isinstance error cls_UnauthorizedError.

Definition is_forbidden_error (error : exn) : bool := isinstance error cls_ForbiddenError.

Definition is_rate_limit_error (error : exn) : bool := isinstance error cls_RateLimitError.

Definition is_validation_error (error : exn) : bool := isinstance error cls_ValidationError.

Definition is_network_error (error : exn) : bool := isinstance error cls_NetworkError.

Definition is_timeout_error (error : exn) : bool := isinstance error cls_TimeoutError.

End Helpers.

(** ** Counting the concurrent callers *)

Module Census.

Import Auth Concurrent.

Definition is_awaiting (p : position) : bool :=
  match p with
  | Awaiting _ => true
  | _ => false
  end.

(** The callers that have taken the lock at some time or were refused
    before it: those that await the refresh procedure or are done. *)
Definition has_entered (p : position) : bool :=
  match p with
  | Awaiting _ | Done _ => true
  | Start | Waiting => false
  end.

Fixpoint census (f : position -> bool) (l : list position) : nat :=
  match l with
  | [] => O
  | p :: rest => ((if f p then 1 else 0) + census f rest)%nat
  end.

(** The callers that hold the lock and await the refresh procedure. *)
Definition awaiting (st : state) : nat := census is_awaiting (callers st).

Definition entered (st : state) : nat := census has_entered (callers st).

(** The lock is held exactly while one caller awaits the refresh
    procedure, and the procedure has been invoked at most once for each
    caller that has entered. *)
Definition balanced (st : state) : Prop :=
  awaiting st = (if locked st then 1 else 0)%nat /\ (calls st <= entered st)%nat.

End Census.

(** * Properties *)

(** ** Doubles: rounding to the nearest *)

Module DoubleFacts.

Import Double.

Local Open Scope Q_scope.

Lemma nearest_even_cases (x : Q) :
  (nearest_even x = Qfloor x /\ x - inject_Z (Qfloor x) <= 1 # 2)
  \/ (nearest_even x = (Qfloor x + 1)%Z /\ 1 # 2 <= x - inject_Z (Qfloor x)).
Proof.
  unfold nearest_even.
  destruct (Qcompare_spec (x - inject_Z (Qfloor x)) (1 # 2)) as [H | H | H].
  - destruct (Z.even (Qfloor x)); [left | right]; split; try reflexivity; rewrite H; apply Qle_refl.
  - left. split; [reflexivity | apply Qlt_le_weak; exact H].
  - right. split; [reflexivity | apply Qlt_le_weak; exact H].
Qed.

Lemma inject_Z_succ (n : Z) : inject_Z (n + 1) == inject_Z n + 1.
Proof. rewrite inject_Z_plus. reflexivity. Qed.

Lemma nearest_even_near (x : Q) :
  x - (1 # 2) <= inject_Z (nearest_even x) /\ inject_Z (nearest_even x) <= x + (1 # 2).
Proof.
  pose proof (Qfloor_le x) as Hlo. pose proof (Qlt_floor x) as Hhi.
  rewrite inject_Z_succ in Hhi.
  destruct (nearest_even_cases x) as [[E H] | [E H]]; rewrite E;
    rewrite ?inject_Z_succ; split; lra.
Qed.

Lemma nearest_even_Z (n : Z) : nearest_even (inject_Z n) = n.
Proof.
  unfold nearest_even. rewrite Qfloor_Z.
  destruct (Qcompare_spec (inject_Z n - inject_Z n) (1 # 2)) as [H | H | H];
    [exfalso; lra | reflexivity | exfalso; lra].
Qed.

Lemma nearest_even_comp (x y : Q) : x == y -> nearest_even x = nearest_even y.
Proof.
  intro E. unfold nearest_even. rewrite (Qfloor_comp x y E).
  assert (Hc : (x - inject_Z (Qfloor y) ?= 1 # 2) = (y - inject_Z (Qfloor y) ?= 1 # 2)).
  { apply Qcompare_comp; [rewrite E; reflexivity | reflexivity]. }
  rewrite Hc. reflexivity.
Qed.

Lemma nearest_even_mono (x y : Q) : x <= y -> (nearest_even x <= nearest_even y)%Z.
Proof.
  intro Hle.
  pose proof (Qfloor_resp_le x y Hle) as Hf.
  pose proof (Qfloor_le x) as Hxl. pose proof (Qlt_floor x) as Hxh.
  pose proof (Qfloor_le y) as Hyl. pose proof (Qlt_floor y) as Hyh.
  rewrite inject_Z_succ in Hxh, Hyh.
  destruct (Z.eq_dec (Qfloor x) (Qfloor y)) as [Heq | Hne].
  - unfold nearest_even. rewrite <- Heq in *.
    destruct (Qcompare_spec (x - inject_Z (Qfloor x)) (1 # 2)) as [Hx | Hx | Hx];
      destruct (Qcompare_spec (y - inject_Z (Qfloor x)) (1 # 2)) as [Hy | Hy | Hy];
      try (destruct (Z.even (Qfloor x))); try lia; exfalso; lra.
  - destruct (nearest_even_cases x) as [[Ex _] | [Ex _]];
      destruct (nearest_even_cases y) as [[Ey _] | [Ey _]]; lia.
Qed.

Lemma two_pos (k : Z) : 0 < 2 ^ k.
Proof. apply Qpower_0_lt. reflexivity. Qed.

Lemma round_to_mono (k : Z) (x y : Q) : x <= y -> round_to k x <= round_to k y.
Proof.
  intro Hle. unfold round_to. pose proof (two_pos k) as Hk.
  apply Qmult_le_compat_r; [ | apply Qlt_le_weak; exact Hk].
  rewrite <- Zle_Qle. apply nearest_even_mono.
  apply Qmult_le_compat_r; [exact Hle | ].
  apply Qlt_le_weak. apply Qinv_lt_0_compat. exact Hk.
Qed.


Lemma round_to_near (k : Z) (x : Q) :
  x - 2 ^ k * (1 # 2) <= round_to k x /\ round_to k x <= x + 2 ^ k * (1 # 2).
Proof.
  unfold round_to. pose proof (two_pos k) as Hk.
  destruct (nearest_even_near (x / 2 ^ k)) as [Hlo Hhi].
  assert (Hx : x == x / 2 ^ k * 2 ^ k).
  { field. intro E. rewrite E in Hk. discriminate. }
  split.
  - apply Qmult_le_compat_r with (z := 2 ^ k) in Hlo; [ | lra].
    rewrite Hx at 1. lra.
  - apply Qmult_le_compat_r with (z := 2 ^ k) in Hhi; [ | lra].
    rewrite Hx at 2. lra.
Qed.

Lemma two_ne (k : Z) : ~ 2 ^ k == 0.
Proof. intro E. pose proof (two_pos k) as H. rewrite E in H. discriminate. Qed.

Lemma two_succ (k : Z) : 2 ^ (k + 1) == 2 * 2 ^ k.
Proof. rewrite Qpower_plus; [ | discriminate]. rewrite Qpower_1_r. ring. Qed.

Lemma two_pred (k : Z) : 2 ^ k == 2 * 2 ^ (k - 1).
Proof. rewrite <- two_succ. replace (k - 1 + 1)%Z with k by lia. reflexivity. Qed.

Lemma two_le (n m : Z) : (n <= m)%Z -> 2 ^ n <= 2 ^ m.
Proof. intro H. apply Qpower_le_compat_l; [exact H | discriminate]. Qed.

Lemma two_lt_inv (n m : Z) : 2 ^ n < 2 ^ m -> (n < m)%Z.
Proof.
  intro H. destruct (Z_lt_le_dec n m) as [Hlt | Hge]; [exact Hlt | ].
  exfalso. apply (Qlt_not_le _ _ H). apply two_le. exact Hge.
Qed.

Lemma log2_bracket (n : Z) :
  (0 < n)%Z -> 2 ^ Z.log2 n <= inject_Z n /\ inject_Z n < 2 * 2 ^ Z.log2 n.
Proof.
  intro Hn. destruct (Z.log2_spec n Hn) as [Hlo Hhi].
  pose proof (Z.log2_nonneg n) as Hnn.
  assert (E : 2 ^ Z.log2 n == inject_Z (2 ^ Z.log2 n)).
  { rewrite Zpower_Qpower; [reflexivity | exact Hnn]. }
  split.
  - rewrite E. rewrite <- Zle_Qle. exact Hlo.
  - rewrite E. change 2 with (inject_Z 2) at 1. rewrite <- inject_Z_mult.
    rewrite <- Zlt_Qlt. rewrite Z.pow_succ_r in Hhi; [exact Hhi | exact Hnn].
Qed.

Lemma exponent_spec (x : Q) :
  0 < x -> 2 ^ exponent x <= x /\ x < 2 ^ (exponent x + 1).
Proof.
  intro Hx. unfold exponent.
  set (p := Qnum x). set (q := Z.pos (Qden x)).
  assert (Hp : (0 < p)%Z).
  { unfold p. unfold Qlt in Hx. simpl in Hx. lia. }
  assert (Hq : (0 < q)%Z) by reflexivity.
  destruct (log2_bracket p Hp) as [Hpl Hph].
  destruct (log2_bracket q Hq) as [Hql Hqh].
  assert (Ex : x == inject_Z p / inject_Z q).
  { unfold p, q. rewrite <- Qmake_Qdiv. destruct x; reflexivity. }
  assert (HQ : 0 < inject_Z q) by (rewrite Zlt_Qlt in Hq; exact Hq).
  assert (Ed : 2 ^ (Z.log2 p - Z.log2 q) == 2 ^ Z.log2 p / 2 ^ Z.log2 q).
  { apply Qpower_minus. discriminate. }
  pose proof (two_pos (Z.log2 p)) as HA. pose proof (two_pos (Z.log2 q)) as HB.
  set (d := (Z.log2 p - Z.log2 q)%Z) in *.
  assert (Hupper : x < 2 * 2 ^ d).
  { rewrite Ex, Ed. apply Qlt_shift_div_r; [exact HQ | ].
    setoid_replace (2 * (2 ^ Z.log2 p / 2 ^ Z.log2 q) * inject_Z q)
      with (2 * 2 ^ Z.log2 p * (inject_Z q / 2 ^ Z.log2 q))
      by (field; apply two_ne).
    assert (H1 : 1 <= inject_Z q / 2 ^ Z.log2 q).
    { apply Qle_shift_div_l; [exact HB | lra]. }
    nra. }
  assert (Hlower : 2 ^ d < 2 * x).
  { rewrite Ex, Ed. apply Qlt_shift_div_r; [exact HB | ].
    setoid_replace (2 * (inject_Z p / inject_Z q) * 2 ^ Z.log2 q)
      with (2 * inject_Z p * (2 ^ Z.log2 q / inject_Z q))
      by (field; intro E; rewrite E in HQ; discriminate).
    assert (H1 : 1 # 2 < 2 ^ Z.log2 q / inject_Z q).
    { apply Qlt_shift_div_l; [exact HQ | lra]. }
    nra. }
  destruct (Qle_bool (2 ^ d) x) eqn:Htest.
  - apply Qle_bool_iff in Htest. split; [exact Htest | ].
    rewrite two_succ. exact Hupper.
  - assert (Hlt : x < 2 ^ d).
    { apply Qnot_le_lt. intro H. apply Qle_bool_iff in H. rewrite H in Htest. discriminate. }
    replace (d - 1 + 1)%Z with d by lia. split; [ | exact Hlt].
    rewrite (two_pred d) in Hlower. lra.
Qed.



Lemma round_to_power (k e : Z) : (k <= e)%Z -> round_to k (2 ^ e) == 2 ^ e.
Proof.
  intro H.
  assert (E : 2 ^ e == inject_Z (2 ^ (e - k)) * 2 ^ k).
  { rewrite Zpower_Qpower by lia. rewrite <- Qpower_plus by discriminate.
    replace (e - k + k)%Z with e by lia. reflexivity. }
  unfold round_to.
  rewrite (nearest_even_comp (2 ^ e / 2 ^ k) (inject_Z (2 ^ (e - k)))).
  - rewrite nearest_even_Z. symmetry. exact E.
  - rewrite E. field. apply two_ne.
Qed.

Lemma round_pos_mono (x y : Q) :
  0 < x -> x <= y ->
  round_to (exponent x - 52) x <= round_to (exponent y - 52) y.
Proof.
  intros Hx Hle. assert (Hy : 0 < y) by lra.
  destruct (exponent_spec x Hx) as [Hxl Hxh]. destruct (exponent_spec y Hy) as [Hyl Hyh].
  assert (He : (exponent x <= exponent y)%Z).
  { assert (H : (exponent x < exponent y + 1)%Z) by (apply two_lt_inv; lra). lia. }
  destruct (Z.eq_dec (exponent x) (exponent y)) as [Heq | Hne].
  - rewrite Heq. apply round_to_mono. exact Hle.
  - apply Qle_trans with (y := 2 ^ (exponent x + 1)).
    + rewrite <- (round_to_power (exponent x - 52) (exponent x + 1)) by lia.
      apply round_to_mono. apply Qlt_le_weak. exact Hxh.
    + apply Qle_trans with (y := 2 ^ exponent y); [apply two_le; lia | ].
      rewrite <- (round_to_power (exponent y - 52) (exponent y)) by lia.
      apply round_to_mono. exact Hyl.
Qed.

Lemma round_pos_pos (x : Q) : 0 < x -> 0 < round_to (exponent x - 52) x.
Proof.
  intro Hx. destruct (exponent_spec x Hx) as [Hxl _].
  apply Qlt_le_trans with (y := 2 ^ exponent x); [apply two_pos | ].
  rewrite <- (round_to_power (exponent x - 52) (exponent x)) by lia.
  apply round_to_mono. exact Hxl.
Qed.

Lemma round64_pos (x : Q) : 0 < x -> round64 x = round_to (exponent x - 52) x.
Proof.
  intro H. unfold round64. destruct (Qcompare_spec x 0) as [E | E | E];
    [exfalso; lra | exfalso; lra | reflexivity].
Qed.

Lemma round64_neg (x : Q) : x < 0 -> round64 x = - round_to (exponent (- x) - 52) (- x).
Proof.
  intro H. unfold round64. destruct (Qcompare_spec x 0) as [E | E | E];
    [exfalso; lra | reflexivity | exfalso; lra].
Qed.

Lemma round64_zero (x : Q) : x == 0 -> round64 x = 0.
Proof.
  intro H. unfold round64. destruct (Qcompare_spec x 0) as [E | E | E];
    [reflexivity | exfalso; lra | exfalso; lra].
Qed.

Lemma round64_mono (x y : Q) : x <= y -> round64 x <= round64 y.
Proof.
  intro Hle.
  destruct (Qcompare_spec x 0) as [Hx | Hx | Hx];
    destruct (Qcompare_spec y 0) as [Hy | Hy | Hy]; try (exfalso; lra).
  - rewrite (round64_zero x Hx), (round64_zero y Hy). apply Qle_refl.
  - rewrite (round64_zero x Hx), (round64_pos y Hy).
    apply Qlt_le_weak. apply round_pos_pos. exact Hy.
  - rewrite (round64_neg x Hx), (round64_zero y Hy).
    assert (H : 0 < - x) by lra. pose proof (round_pos_pos (- x) H). lra.
  - rewrite (round64_neg x Hx), (round64_neg y Hy).
    assert (H : 0 < - y) by lra. assert (H' : - y <= - x) by lra.
    pose proof (round_pos_mono (- y) (- x) H H'). lra.
  - rewrite (round64_neg x Hx), (round64_pos y Hy).
    assert (H : 0 < - x) by lra.
    pose proof (round_pos_pos (- x) H). pose proof (round_pos_pos y Hy). lra.
  - rewrite (round64_pos x Hx), (round64_pos y Hy). apply round_pos_mono; assumption.
Qed.



(** The error of one rounding of a number below [2 ^ n] in magnitude. *)
Lemma round64_near (x : Q) (n : Z) :
  0 <= x -> x < 2 ^ n ->
  x - 2 ^ (n - 54) <= round64 x /\ round64 x <= x + 2 ^ (n - 54).
Proof.
  intros Hx Hn.
  destruct (Qcompare_spec x 0) as [Hz | Hneg | Hpos]; [ | exfalso; lra | ].
  - rewrite (round64_zero x Hz). pose proof (two_pos (n - 54)). lra.
  - rewrite (round64_pos x Hpos).
    destruct (exponent_spec x Hpos) as [Hl Hh].
    assert (He : (exponent x < n)%Z) by (apply two_lt_inv; lra).
    destruct (round_to_near (exponent x - 52) x) as [Hlo Hhi].
    assert (Hu : 2 ^ (exponent x - 52) * (1 # 2) <= 2 ^ (n - 54)).
    { assert (E : 2 ^ (exponent x - 52) == 2 * 2 ^ (exponent x - 53)).
      { rewrite <- two_succ. replace (exponent x - 53 + 1)%Z with (exponent x - 52)%Z by lia.
        reflexivity. }
      rewrite E. pose proof (two_le (exponent x - 53) (n - 54) ltac:(lia)). lra. }
    lra.
Qed.

(** The sum of doubles grows with its first argument. *)
Lemma add_mono (x y z : Q) : x <= y -> add x z <= add y z.
Proof. intro H. unfold add. apply round64_mono. lra. Qed.

(** On the instants of the examples, [round64] and [add] give the
    doubles the machine computes. *)
Lemma agrees_with_machine :
  forallb (fun microseconds =>
             Qeq_bool (round64 (microseconds # 1000000))
               (machine_to_Q (machine_timestamp microseconds))
             && Qeq_bool (add (round64 (microseconds # 1000000)) 60)
                  (machine_to_Q (PrimFloat.add (machine_timestamp microseconds)
                                   (machine_of_Z 60))))
    sample_instants = true.
Proof. vm_compute. reflexivity. Qed.

(** On the doubles of the machine, an expiry of 60.997795 seconds is not
    within the buffer at 0.997795 seconds, nor one of 03:14:08.000006 on
    19 January 2038 at 03:13:08.000006. *)
Lemma boundary_on_the_machine :
  machine_check 60997795 997795 = false
  /\ machine_check 2147483648000006 2147483588000006 = false.
Proof. split; vm_compute; reflexivity. Qed.

End DoubleFacts.

(** ** Expiry of a credential *)

Module ExpiryFacts.

Import Auth.


Lemma buffer_monotone (expiry now later : Q) :
  (now <= later)%Q ->
  Qle_bool (timestamp expiry) (Double.add (timestamp now) 60) = true ->
  Qle_bool (timestamp expiry) (Double.add (timestamp later) 60) = true.
Proof.
  rewrite !Qle_bool_iff. intros Hle H.
  apply Qle_trans with (y := Double.add (timestamp now) 60); [exact H | ].
  apply DoubleFacts.add_mono. apply DoubleFacts.round64_mono. exact Hle.
Qed.


(** Between the epoch and [2 ^ 32] seconds the three roundings of the
    check move the boundary by less than two microseconds. *)
Lemma far_from_boundary (expiry now : Q) :
  (0 <= expiry)%Q -> (expiry <= 4294967296)%Q ->
  (0 <= now)%Q -> (now <= 4294967296)%Q ->
  ((expiry - 60 + (2 # 1000000) <= now)%Q ->
   Qle_bool (timestamp expiry) (Double.add (timestamp now) 60) = true)
  /\ ((now <= expiry - 60 - (2 # 1000000))%Q ->
      Qle_bool (timestamp expiry) (Double.add (timestamp now) 60) = false).
Proof.
  intros He0 He1 Hn0 Hn1. unfold timestamp, Double.add.
  assert (P33 : (2 ^ 33 == 8589934592)%Q) by reflexivity.
  assert (P21 : (2 ^ (33 - 54) == 1 # 2097152)%Q) by reflexivity.
  assert (Hpos : (0 <= Double.round64 now)%Q).
  { change 0%Q with (Double.round64 0). apply DoubleFacts.round64_mono. exact Hn0. }
  destruct (DoubleFacts.round64_near expiry 33 He0) as [Hel Heh]; [rewrite P33; lra | ].
  destruct (DoubleFacts.round64_near now 33 Hn0) as [Hnl Hnh]; [rewrite P33; lra | ].
  rewrite P21 in Hel, Heh, Hnl, Hnh.
  destruct (DoubleFacts.round64_near (Double.round64 now + 60) 33) as [Hbl Hbh];
    [lra | rewrite P33; lra | ].
  rewrite P21 in Hbl, Hbh.
  split; intro Hgap.
  - apply Qle_bool_iff. lra.
  - destruct (Qle_bool (Double.round64 expiry)
                (Double.round64 (Double.round64 now + 60))) eqn:Hle; [ | reflexivity].
    apply Qle_bool_iff in Hle. exfalso. lra.
Qed.




(** C8. An authenticator without an expiry timestamp is never expired,
    whatever the clock reads: [NoAuth], [APIKeyAuth], and [JWTAuth] and
    [OAuth2Auth] built without [expires_at]. *)
Theorem no_expiry_never_expired (now : Q) :
  is_expired NoAuth now = Return false
  /\ (forall api_key header_name, is_expired (APIKeyAuth api_key header_name) now = Return false)
  /\ (forall tok again procedure,
        is_expired (JWTAuth (mk_token_state tok again VNone procedure)) now = Return false)
  /\ (forall token_type tok again procedure,
        is_expired (OAuth2Auth token_type (mk_token_state tok again VNone procedure)) now
        = Return false).
Proof.
  repeat split; intros; reflexivity.
Qed.

Section RefreshFacts.

Variable fromisoformat : string -> Q + string.
Variable subscript_error : value -> string.

Lemma store_without_expires_at (s : token_state) (d : list (string * value)) :
  dict_get d "expires_at" = None ->
  forall s' r,
    store_refreshed fromisoformat subscript_error s (Returns (VDict d)) = (s', r) ->
    expires_at s' = expires_at s
    /\ (r = Return tt ->
        Some (token s') = dict_get d "access_token"
        /\ refresh_token s' = dict_get_default d "refresh_token" (refresh_token s)).
Proof.
  intros Hno s' r. unfold store_refreshed.
  destruct (dict_get d "access_token") as [access | ].
  - rewrite Hno. intro E. injection E as E1 E2. subst s'. simpl. auto.
  - intro E. injection E as E1 E2. subst s' r. split; [reflexivity | discriminate].
Qed.

(** C10. When [refresh] of a JWT or OAuth2 authenticator succeeds and the
    result of the refresh procedure has no ["expires_at"] key, the stored
    expiry is unchanged; if the authenticator was expired, the procedure
    was invoked once, the token is the result's ["access_token"], the
    refresh token is the result's ["refresh_token"] or else the previous
    one, and the authenticator still reports expired at every later
    clock reading. *)
Theorem refresh_without_expires_at_keeps_expiry
    (a a' : Authenticator) (s : token_state) (procedure : refresh_procedure)
    (d : list (string * value)) (calls calls' : nat) (now : Q) :
  tokens_of a = Some s ->
  refresh_function s = Some procedure ->
  procedure calls (refresh_token s) = Returns (VDict d) ->
  dict_get d "expires_at" = None ->
  refresh fromisoformat subscript_error a calls now = (a', calls', Return tt) ->
  stored_expiry a' = stored_expiry a
  /\ (is_expired a now = Return true ->
      calls' = S calls
      /\ Some (credential a') = dict_get d "access_token"
      /\ option_map refresh_token (tokens_of a')
         = Some (dict_get_default d "refresh_token" (refresh_token s))
      /\ forall later, (now <= later)%Q -> is_expired a' later = Return true).
Proof.
  intros Ha Hf Hres Hno Hrun.
  assert (Hcore : forall s' c r,
            token_refresh fromisoformat subscript_error s calls now = (s', c, r) ->
            r = Return tt ->
            expires_at s' = expires_at s
            /\ (token_is_expired s now = Return true ->
                c = S calls
                /\ Some (token s') = dict_get d "access_token"
                /\ refresh_token s' = dict_get_default d "refresh_token" (refresh_token s))).
  { intros s' c r. unfold token_refresh. rewrite Hf.
    destruct (negb (truthy (refresh_token s))).
    - intros E Hr. injection E as E1 E2 E3. subst r. discriminate.
    - destruct (token_is_expired s now) as [[ | ] | e].
      + rewrite Hres.
        destruct (store_refreshed fromisoformat subscript_error s (Returns (VDict d)))
          as [s1 r1] eqn:Hs.
        intros E Hr. injection E as E1 E2 E3. subst s1 c r1.
        destruct (store_without_expires_at s d Hno s' r Hs) as [Hexp Hrest].
        split; [exact Hexp | ]. intros _. destruct (Hrest Hr). auto.
      + intros E _. injection E as E1 E2 E3. subst s'. split; [reflexivity | discriminate].
      + intros E Hr. injection E as E1 E2 E3. subst r. discriminate. }
  assert (Hlater : forall s', expires_at s' = expires_at s ->
            token_is_expired s now = Return true ->
            forall later, (now <= later)%Q -> token_is_expired s' later = Return true).
  { intros s' He. unfold token_is_expired. rewrite He.
    destruct (negb (truthy (expires_at s))); [discriminate | ].
    destruct (expires_at s); try discriminate.
    intros E later Hle. injection E as E. f_equal.
    exact (buffer_monotone _ _ _ Hle E). }
  destruct a as [ | key name | s0 | kind s0]; simpl in Ha; try discriminate;
    injection Ha as Ha; subst s0; simpl in Hrun |- *;
    destruct (token_refresh fromisoformat subscript_error s calls now) as [[s' c] r] eqn:Ht;
    injection Hrun as E1 E2 E3; subst a' c r;
    destruct (Hcore s' calls' (Return tt) eq_refl eq_refl) as [Hexp Hrest];
    (split; [exact Hexp | ]); intro Hexpired; simpl;
    destruct (Hrest Hexpired) as (Hc & Htok & Hagain);
    repeat split; try assumption; try (rewrite Hagain; reflexivity);
    apply Hlater; assumption.
Qed.

End RefreshFacts.

Lemma refresh_without_expires_at_keeps_expiry_witness :
  let after := refresh Concurrent.no_isoformat Concurrent.not_subscriptable
                 Concurrent.stale_jwt 0 100 in
  snd after = Return tt
  /\ stored_expiry (fst (fst after)) = stored_expiry Concurrent.stale_jwt
  /\ (is_expired Concurrent.stale_jwt 100 = Return true ->
      snd (fst after) = 1%nat
      /\ Some (credential (fst (fst after)))
         = dict_get [("access_token", VStr "new")] "access_token"
      /\ option_map refresh_token (tokens_of (fst (fst after)))
         = Some (dict_get_default [("access_token", VStr "new")] "refresh_token"
                   (VStr "again"))
      /\ forall later, (100 <= later)%Q -> is_expired (fst (fst after)) later = Return true).
Proof.
  split; [reflexivity | ].
  exact (refresh_without_expires_at_keeps_expiry
           Concurrent.no_isoformat Concurrent.not_subscriptable
           Concurrent.stale_jwt _
           (mk_token_state (VStr "old") (VStr "again") (VDatetime 0)
              (Some (fun _ _ => Returns (VDict [("access_token", VStr "new")]))))
           (fun _ _ => Returns (VDict [("access_token", VStr "new")]))
           [("access_token", VStr "new")] 0 1 100
           eq_refl eq_refl eq_refl eq_refl eq_refl).
Defined.

End ExpiryFacts.


(** ** The retry loop *)

Module RetryFacts.

Import HttpClient.

Lemma requests_app (xs ys : list event) :
  requests (xs ++ ys) = (requests xs + requests ys)%nat.
Proof. unfold requests. rewrite filter_app, length_app. reflexivity. Qed.

Lemma delays_app (xs ys : list event) : delays (xs ++ ys) = delays xs ++ delays ys.
Proof. unfold delays. apply flat_map_app. Qed.

Lemma quiet_app (xs ys : list event) : quiet (xs ++ ys) = quiet xs ++ quiet ys.
Proof. unfold quiet. apply filter_app. Qed.

Lemma requests_quiet (evs : list event) : requests (quiet evs) = requests evs.
Proof.
  induction evs as [ | e evs IH]; [reflexivity | ].
  destruct e; simpl; unfold requests in *; simpl; rewrite ?IH; auto.
Qed.

Lemma delays_quiet (evs : list event) : delays (quiet evs) = delays evs.
Proof.
  induction evs as [ | e evs IH]; [reflexivity | ].
  destruct e; simpl; unfold delays in *; simpl; rewrite ?IH; auto.
Qed.

Lemma requests_backoffs (k : nat) : forall from, requests (backoffs from k) = k.
Proof.
  induction k as [ | k IH]; intro from; [reflexivity | ].
  simpl. unfold requests in *. simpl. rewrite IH. reflexivity.
Qed.

Lemma delays_backoffs (k : nat) :
  forall from, delays (backoffs from k) = map (fun i => 2 ^ Z.of_nat i) (seq from k).
Proof.
  induction k as [ | k IH]; intro from; [reflexivity | ].
  simpl. unfold delays in *. simpl. rewrite IH. reflexivity.
Qed.

Section Loop.

Variable str : value -> string.
Variable c : HTTPClient.
Variable transport : nat -> transport_outcome.

Lemma quiet_notice (what : string) (attempt delay : Z) :
  quiet (retry_notice str c what attempt delay) = [].
Proof. unfold retry_notice. destruct (debug c); reflexivity. Qed.

(** While the outcomes are retryable and attempts remain, the loop makes
    the request, sleeps [2 ^ attempt] and goes on with the rest. *)
Lemma retried_attempts (k : nat) :
  forall (m n : nat) (last : option exn),
    (forall i, (i < k)%nat -> retryable (transport (m + i)) = true) ->
    Z.of_nat (m + k) <= retries c ->
    (k <= n)%nat ->
    exists pre last',
      attempts str c transport (map Z.of_nat (seq m n)) m last
      = (pre ++ fst (attempts str c transport (map Z.of_nat (seq (m + k) (n - k)))
                       (m + k) last'),
         snd (attempts str c transport (map Z.of_nat (seq (m + k) (n - k))) (m + k) last'))
      /\ quiet pre = backoffs m k.
Proof.
  induction k as [ | k IH]; intros m n last Hretry Hle Hn.
  - exists [], last. rewrite Nat.add_0_r, Nat.sub_0_r. simpl.
    split; [ | reflexivity].
    destruct (attempts str c transport (map Z.of_nat (seq m n)) m last); reflexivity.
  - destruct n as [ | n]; [lia | ].
    assert (Hm : (Z.of_nat m <? retries c) = true) by (apply Z.ltb_lt; lia).
    assert (H0 : retryable (transport m) = true).
    { rewrite <- (Nat.add_0_r m). apply Hretry. lia. }
    assert (Hnext : forall last0, exists pre last',
               attempts str c transport (map Z.of_nat (seq (S m) n)) (S m) last0
               = (pre ++ fst (attempts str c transport
                                (map Z.of_nat (seq (m + S k) (S n - S k))) (m + S k) last'),
                  snd (attempts str c transport
                         (map Z.of_nat (seq (m + S k) (S n - S k))) (m + S k) last'))
               /\ quiet pre = backoffs (S m) k).
    { intro last0.
      destruct (IH (S m) n last0) as (pre & last' & E & Q).
      - intros i Hi. replace (S m + i)%nat with (m + S i)%nat by lia. apply Hretry. lia.
      - lia.
      - lia.
      - exists pre, last'.
        replace (m + S k)%nat with (S m + k)%nat by lia.
        replace (S n - S k)%nat with (n - k)%nat by lia.
        split; assumption. }
    cbn [seq map attempts].
    destruct (transport m) as [response | | text | e]; simpl in H0.
    + apply andb_prop in H0. destruct H0 as [Hs Hc].
      apply negb_true_iff in Hs. apply negb_true_iff in Hc.
      rewrite Hs, Hc, Hm.
      destruct (Hnext last) as (pre & last' & E & Q).
      rewrite E.
      exists (Requested :: retry_notice str c "Request failed" (Z.of_nat m) (2 ^ Z.of_nat m)
                ++ Slept (2 ^ Z.of_nat m) :: pre), last'.
      split.
      * cbn [fst snd]. rewrite <- app_comm_cons, <- app_assoc. reflexivity.
      * cbn [quiet filter]. fold (quiet (retry_notice str c "Request failed" (Z.of_nat m)
                                           (2 ^ Z.of_nat m) ++ Slept (2 ^ Z.of_nat m) :: pre)).
        rewrite quiet_app, quiet_notice. cbn [app quiet filter]. fold (quiet pre).
        rewrite Q. reflexivity.
    + rewrite Hm.
      match goal with
      | |- context [attempts str c transport _ (S m) ?l] =>
          destruct (Hnext l) as (pre & last' & E & Q)
      end.
      rewrite E.
      exists (Requested :: retry_notice str c "Request timed out" (Z.of_nat m) (2 ^ Z.of_nat m)
                ++ Slept (2 ^ Z.of_nat m) :: pre), last'.
      split.
      * cbn [fst snd]. rewrite <- app_comm_cons, <- app_assoc. reflexivity.
      * cbn [quiet filter]. fold (quiet (retry_notice str c "Request timed out" (Z.of_nat m)
                                           (2 ^ Z.of_nat m) ++ Slept (2 ^ Z.of_nat m) :: pre)).
        rewrite quiet_app, quiet_notice. cbn [app quiet filter]. fold (quiet pre).
        rewrite Q. reflexivity.
    + rewrite Hm.
      match goal with
      | |- context [attempts str c transport _ (S m) ?l] =>
          destruct (Hnext l) as (pre & last' & E & Q)
      end.
      rewrite E.
      exists (Requested :: retry_notice str c "Network error" (Z.of_nat m) (2 ^ Z.of_nat m)
                ++ Slept (2 ^ Z.of_nat m) :: pre), last'.
      split.
      * cbn [fst snd]. rewrite <- app_comm_cons, <- app_assoc. reflexivity.
      * cbn [quiet filter]. fold (quiet (retry_notice str c "Network error" (Z.of_nat m)
                                           (2 ^ Z.of_nat m) ++ Slept (2 ^ Z.of_nat m) :: pre)).
        rewrite quiet_app, quiet_notice. cbn [app quiet filter]. fold (quiet pre).
        rewrite Q. reflexivity.
    + discriminate.
Qed.

(** What the loop does when the outcomes of the first [k] calls are
    retryable and the outcome of the call after them ends the loop in
    [final] whatever was remembered before. *)
Lemma after_retries (k : nat) (final : list event * result Response) :
  (forall i, (i < k)%nat -> retryable (transport i) = true) ->
  Z.of_nat k <= retries c ->
  (forall rest last,
      attempts str c transport (Z.of_nat k :: rest) k last = final) ->
  exists pre,
    _make_request_with_retries str c transport = (pre ++ fst final, snd final)
    /\ quiet pre = backoffs 0 k.
Proof.
  intros Hretry Hle Hfinal.
  unfold _make_request_with_retries, range.
  destruct (retried_attempts k 0 (Z.to_nat (retries c + 1)) None) as (pre & last' & E & Q).
  - exact Hretry.
  - exact Hle.
  - lia.
  - exists pre. split; [ | exact Q].
    rewrite E. cbn [Nat.add].
    destruct (Z.to_nat (retries c + 1) - k)%nat as [ | n] eqn:Hn; [lia | ].
    cbn [seq map]. rewrite Hfinal. reflexivity.
Qed.

Lemma observed (pre : list event) (k : nat) :
  quiet pre = backoffs 0 k ->
  requests (pre ++ [Requested]) = S k
  /\ delays (pre ++ [Requested]) = map (fun i => 2 ^ Z.of_nat i) (seq 0 k)
  /\ quiet (pre ++ [Requested]) = backoffs 0 k ++ [Requested].
Proof.
  intro Q. repeat split.
  - rewrite requests_app, <- (requests_quiet pre), Q, requests_backoffs.
    unfold requests. simpl. lia.
  - rewrite delays_app, <- (delays_quiet pre), Q, delays_backoffs.
    unfold delays. simpl. apply app_nil_r.
  - rewrite quiet_app, Q. reflexivity.
Qed.

(** C1. If the transport answers 500 to the first [k] calls, with
    [k < retries], and 200 to the next one, [_make_request_with_retries]
    returns that response; it has made [k + 1] calls and slept the [k]
    delays [2^0, ..., 2^(k-1)], one after each failed call and before the
    next call. *)
Theorem retry_law (k : nat) (ok : Response) :
  Z.of_nat k < retries c ->
  (forall i, (i < k)%nat -> exists r, transport i = Responds r /\ status_code r = 500) ->
  transport k = Responds ok ->
  status_code ok = 200 ->
  snd (_make_request_with_retries str c transport) = Return ok
  /\ requests (fst (_make_request_with_retries str c transport)) = S k
  /\ delays (fst (_make_request_with_retries str c transport))
     = map (fun i => 2 ^ Z.of_nat i) (seq 0 k)
  /\ quiet (fst (_make_request_with_retries str c transport)) = backoffs 0 k ++ [Requested].
Proof.
  intros Hk Hfail Hok Hstatus.
  destruct (after_retries k ([Requested], Return ok)) as (pre & E & Q).
  - intros i Hi. destruct (Hfail i Hi) as (r & Hr & Hs).
    rewrite Hr. unfold retryable, is_success. rewrite Hs. reflexivity.
  - lia.
  - intros rest last. cbn [attempts]. rewrite Hok.
    unfold is_success. rewrite Hstatus. reflexivity.
  - rewrite E. cbn [fst snd]. split; [reflexivity | ]. apply observed. exact Q.
Qed.

(** The no-retry law: a response with a status in [400,500) other than
    429, got after [k] retried attempts, ends the loop at once with what
    [_handle_error] raises for it; nothing is slept after the call and no
    other call is made. *)
Lemma no_retry_law (k : nat) (response : Response) :
  Z.of_nat k <= retries c ->
  (forall i, (i < k)%nat -> retryable (transport i) = true) ->
  transport k = Responds response ->
  400 <= status_code response < 500 ->
  status_code response <> 429 ->
  snd (_make_request_with_retries str c transport) = Raise (_handle_error response)
  /\ requests (fst (_make_request_with_retries str c transport)) = S k
  /\ delays (fst (_make_request_with_retries str c transport))
     = map (fun i => 2 ^ Z.of_nat i) (seq 0 k)
  /\ quiet (fst (_make_request_with_retries str c transport)) = backoffs 0 k ++ [Requested].
Proof.
  intros Hk Hretry Hr Hrange Hnot.
  destruct (after_retries k ([Requested], Raise (_handle_error response))) as (pre & E & Q).
  - exact Hretry.
  - exact Hk.
  - intros rest last. cbn [attempts]. rewrite Hr.
    assert (Hs : is_success response = false).
    { unfold is_success. apply andb_false_iff. right. apply Z.leb_gt. lia. }
    assert (Hc : ((400 <=? status_code response) && (status_code response <? 500)
                  && negb (status_code response =? 429)) = true).
    { rewrite !andb_true_iff, negb_true_iff. repeat split.
      - apply Z.leb_le. lia.
      - apply Z.ltb_lt. lia.
      - apply Z.eqb_neq. exact Hnot. }
    rewrite Hs, Hc. reflexivity.
  - rewrite E. cbn [fst snd]. split; [reflexivity | ]. apply observed. exact Q.
Qed.

(** A response that is neither a success nor a client error, got on the
    last attempt, is handed to [_handle_error]. *)
Lemma exhausted_law (response : Response) :
  0 <= retries c ->
  (forall i, (i < Z.to_nat (retries c))%nat -> retryable (transport i) = true) ->
  transport (Z.to_nat (retries c)) = Responds response ->
  retryable (Responds response) = true ->
  snd (_make_request_with_retries str c transport) = Raise (_handle_error response)
  /\ requests (fst (_make_request_with_retries str c transport)) = S (Z.to_nat (retries c)).
Proof.
  intros Hk Hretry Hr Hlast.
  destruct (after_retries (Z.to_nat (retries c)) ([Requested], Raise (_handle_error response)))
    as (pre & E & Q).
  - exact Hretry.
  - lia.
  - intros rest last. cbn [attempts]. rewrite Hr.
    simpl in Hlast. apply andb_prop in Hlast. destruct Hlast as [Hs Hc].
    apply negb_true_iff in Hs. apply negb_true_iff in Hc. rewrite Hs, Hc.
    assert (Hno : (Z.of_nat (Z.to_nat (retries c)) <? retries c) = false)
      by (apply Z.ltb_ge; lia).
    rewrite Hno. reflexivity.
  - rewrite E. cbn [fst snd]. split; [reflexivity | ].
    apply (observed pre _ Q).
Qed.

End Loop.

Lemma retry_law_witness :
  Z.of_nat 2 < retries client
  /\ snd (_make_request_with_retries silent client fails_twice) = Return success_with_data
  /\ requests (fst (_make_request_with_retries silent client fails_twice)) = 3%nat
  /\ delays (fst (_make_request_with_retries silent client fails_twice)) = [1; 2]
  /\ quiet (fst (_make_request_with_retries silent client fails_twice))
     = [Requested; Slept 1; Requested; Slept 2; Requested].
Proof.
  split; [reflexivity | ].
  refine (retry_law silent client fails_twice 2 success_with_data eq_refl _ eq_refl eq_refl).
  intros i Hi.
  destruct i as [ | [ | i]]; [eexists; split; reflexivity | eexists; split; reflexivity | lia].
Defined.

End RetryFacts.

(** ** Classification of error responses *)

Module ClassificationFacts.

Import HttpClient.

Lemma error_data_of (response : Response) :
  object_or_text response = true ->
  match json response with
  | Some parsed => parsed
  | None =>
      VDict [("error",
              if (text response =? "")%string then VStr "Unknown error"
              else VStr (text response))]
  end = VDict (error_fields response).
Proof.
  unfold object_or_text, error_fields.
  destruct (json response) as [[ | | | | | | d | ] | ]; simpl; intro H;
    try discriminate; reflexivity.
Qed.

(** For a body that is not JSON or is a JSON object, a 429 is classified
    as [RateLimitError] with the fixed status and code, and [retry_after]
    is the integer read from the [Retry-After] header, absent when there
    is no such header or [int] refuses its value. *)
Lemma rate_limit_classified (response : Response) :
  status_code response = 429 ->
  object_or_text response = true ->
  exists e,
    _handle_error response = Gotrs e
    /\ cls e = cls_RateLimitError
    /\ Exceptions.status_code e = Some 429
    /\ code e = VStr "RATE_LIMITED"
    /\ retry_after e
       = if headers_contains (headers response) "Retry-After"
         then py_int (headers_get (headers response) "Retry-After")
         else None.
Proof.
  intros Hs Hb. unfold _handle_error. rewrite (error_data_of response Hb), Hs.
  cbn [Z.eqb Pos.eqb]. eexists. split; [reflexivity | ]. repeat split.
Qed.

(** For such a body, a 5xx is classified as [ServerError] with the status
    of the response; its code is the ["code"] of the body, and the empty
    string when the body has none. *)
Lemma server_error_classified (response : Response) :
  500 <= status_code response < 600 ->
  object_or_text response = true ->
  exists e,
    _handle_error response = Gotrs e
    /\ cls e = cls_ServerError
    /\ Exceptions.status_code e = Some (status_code response)
    /\ code e = dict_get_default (error_fields response) "code" (VStr "").
Proof.
  intros Hs Hb. unfold _handle_error. rewrite (error_data_of response Hb).
  assert (H404 : (status_code response =? 404) = false) by (apply Z.eqb_neq; lia).
  assert (H401 : (status_code response =? 401) = false) by (apply Z.eqb_neq; lia).
  assert (H403 : (status_code response =? 403) = false) by (apply Z.eqb_neq; lia).
  assert (H429 : (status_code response =? 429) = false) by (apply Z.eqb_neq; lia).
  assert (H5 : ((500 <=? status_code response) && (status_code response <? 600)) = true).
  { apply andb_true_iff. split; [apply Z.leb_le | apply Z.ltb_lt]; lia. }
  rewrite H404, H401, H403, H429, H5.
  eexists. split; [reflexivity | ]. repeat split.
Qed.

(** For such a body, what [_handle_error] raises is in the taxonomy. *)
Lemma classified_in_taxonomy (response : Response) :
  object_or_text response = true ->
  is_taxonomy (_handle_error response) = true.
Proof.
  intro Hb. unfold _handle_error. rewrite (error_data_of response Hb).
  repeat match goal with
         | |- context [if ?b then _ else _] => destruct b
         end; reflexivity.
Qed.

(** A JSON body that is not an object makes [_handle_error] fail on
    [error_data.get], whatever the status. *)
Lemma unclassified_body (response : Response) :
  object_or_text response = false ->
  _handle_error response = AttributeError.
Proof.
  unfold object_or_text, _handle_error.
  destruct (json response) as [[ | | | | | | d | ] | ]; simpl; intro H;
    try discriminate; reflexivity.
Qed.

Section Surfaced.

Variable str : value -> string.

(** A response with a status in [400,500) other than 429 and a body that
    is not JSON or is a JSON object, got after [k] retried attempts, ends
    the loop at once with an error of the taxonomy: [k + 1] calls were
    made and nothing was slept after the last one. *)
Lemma client_error_law (c : HTTPClient) (transport : nat -> transport_outcome)
    (k : nat) (response : Response) :
  Z.of_nat k <= retries c ->
  (forall i, (i < k)%nat -> retryable (transport i) = true) ->
  transport k = Responds response ->
  400 <= status_code response < 500 ->
  status_code response <> 429 ->
  object_or_text response = true ->
  exists e,
    snd (_make_request_with_retries str c transport) = Raise (Gotrs e)
    /\ Gotrs e = _handle_error response
    /\ requests (fst (_make_request_with_retries str c transport)) = S k
    /\ delays (fst (_make_request_with_retries str c transport))
       = map (fun i => 2 ^ Z.of_nat i) (seq 0 k).
Proof.
  intros Hk Hretry Hr Hrange Hnot Hb.
  destruct (RetryFacts.no_retry_law str c transport k response Hk Hretry Hr Hrange Hnot)
    as (Hraise & Hrequests & Hdelays & _).
  pose proof (classified_in_taxonomy response Hb) as Htax.
  destruct (_handle_error response) as [e | | key | | text | text] eqn:He;
    try discriminate.
  exists e. repeat split; assumption.
Qed.

(** A 429 got on the last attempt, with a body that is not JSON or is a
    JSON object, is surfaced as a [RateLimitError] whose [retry_after] is
    the integer of the [Retry-After] header, absent when [int] refuses it
    or when there is no such header. *)
Lemma rate_limit_law (c : HTTPClient) (transport : nat -> transport_outcome)
    (response : Response) :
  0 <= retries c ->
  (forall i, (i < Z.to_nat (retries c))%nat -> retryable (transport i) = true) ->
  transport (Z.to_nat (retries c)) = Responds response ->
  status_code response = 429 ->
  object_or_text response = true ->
  exists e,
    snd (_make_request_with_retries str c transport) = Raise (Gotrs e)
    /\ cls e = cls_RateLimitError
    /\ Exceptions.status_code e = Some 429
    /\ code e = VStr "RATE_LIMITED"
    /\ retry_after e
       = if headers_contains (headers response) "Retry-After"
         then py_int (headers_get (headers response) "Retry-After")
         else None.
Proof.
  intros Hr Hretry Hlast Hs Hb.
  destruct (rate_limit_classified response Hs Hb) as (e & He & Hrest).
  exists e. split; [ | exact Hrest].
  rewrite <- He.
  apply (RetryFacts.exhausted_law str c transport response Hr Hretry Hlast).
  unfold retryable, is_success. rewrite Hs. reflexivity.
Qed.

(** [Retry-After: 30] gives [retry_after = 30], [Retry-After: abc] gives
    no [retry_after]; the name of the header is read without case. *)
Lemma retry_after_examples :
  (exists e, snd (_make_request_with_retries str client (fun _ => Responds (slow_down "30")))
             = Raise (Gotrs e)
             /\ cls e = cls_RateLimitError /\ retry_after e = Some 30)
  /\ (exists e, snd (_make_request_with_retries str client
                       (fun _ => Responds (slow_down "abc")))
                = Raise (Gotrs e)
                /\ cls e = cls_RateLimitError /\ retry_after e = None).
Proof.
  split; eexists; (split; [reflexivity | split; reflexivity]).
Qed.

(** A 5xx got on the last attempt, with a body that is not JSON or is a
    JSON object, is surfaced as a [ServerError] with the status of the
    response; its code is the body's ["code"], and the empty string when
    the body has none. *)
Lemma server_error_law (c : HTTPClient) (transport : nat -> transport_outcome)
    (response : Response) :
  0 <= retries c ->
  (forall i, (i < Z.to_nat (retries c))%nat -> retryable (transport i) = true) ->
  transport (Z.to_nat (retries c)) = Responds response ->
  500 <= status_code response < 600 ->
  object_or_text response = true ->
  exists e,
    snd (_make_request_with_retries str c transport) = Raise (Gotrs e)
    /\ cls e = cls_ServerError
    /\ Exceptions.status_code e = Some (status_code response)
    /\ code e = dict_get_default (error_fields response) "code" (VStr "").
Proof.
  intros Hr Hretry Hlast Hs Hb.
  destruct (server_error_classified response Hs Hb) as (e & He & Hrest).
  exists e. split; [ | exact Hrest].
  rewrite <- He.
  apply (RetryFacts.exhausted_law str c transport response Hr Hretry Hlast).
  unfold retryable, is_success.
  assert (H2 : (status_code response <=? 299) = false) by (apply Z.leb_gt; lia).
  assert (H4 : (status_code response <? 500) = false) by (apply Z.ltb_ge; lia).
  rewrite H2, H4, !andb_false_r. reflexivity.
Qed.

(** C3. A first response of status 400 whose body is the JSON array [[]]:
    the loop stops at once, having made one call and slept nothing, but
    what it raises is the [AttributeError] of [error_data.get], not an
    error of the taxonomy. *)
Theorem client_error_with_array_body :
  _make_request_with_retries str client
    (fun _ => Responds (mk_Response 400 [] "[]" (Some (VList []))))
  = ([Requested], Raise AttributeError)
  /\ is_taxonomy AttributeError = false.
Proof. split; reflexivity. Qed.

(** C6. A response of status 500 whose body [{"error": "boom"}] has no
    ["code"], surfaced once the retries are exhausted: a [ServerError]
    with status 500 is raised, and its code is the empty string, not
    ["SERVER_ERROR"]. *)
Theorem server_error_without_code :
  exists e,
    snd (_make_request_with_retries str client
           (fun _ => Responds boom_response))
    = Raise (Gotrs e)
    /\ cls e = cls_ServerError
    /\ Exceptions.status_code e = Some 500
    /\ code e = VStr ""
    /\ code e <> VStr "SERVER_ERROR".
Proof.
  eexists. split; [reflexivity | ]. repeat split. discriminate.
Qed.

(** C7. A response of status 429 with the header [Retry-After: abc] and
    the JSON array [[]] as body, surfaced once the retries are exhausted:
    no [RateLimitError] is raised, the call fails with the
    [AttributeError] of [error_data.get]. *)
Theorem rate_limited_with_array_body :
  snd (_make_request_with_retries str client
         (fun _ => Responds (mk_Response 429 [("Retry-After", "abc")] "[]" (Some (VList [])))))
  = Raise AttributeError
  /\ requests (fst (_make_request_with_retries str client
         (fun _ => Responds (mk_Response 429 [("Retry-After", "abc")] "[]" (Some (VList []))))))
     = 4%nat.
Proof. split; reflexivity. Qed.

End Surfaced.

End ClassificationFacts.

(** ** Unwrapping the envelope and building the URL *)

Module EnvelopeFacts.

Import HttpClient.

(** The part of the envelope law that holds. For a response whose parsed
    body is a mapping with a [success] key: when [success] is falsy,
    [_extract_data] raises a [GotrsError] whose message is the ["error"]
    field of the body, or ["API request failed"] when the body has none,
    with the status of the response, whatever target shape was asked for,
    so the ["data"] field is not returned; when [success] is truthy, the
    value unwrapped is the ["data"] field, or the whole body when there
    is none, returned as it is when no target shape was asked for. The
    two examples of the specification are instances. *)
Theorem envelope_law (response : Response) (d : list (string * value)) (success : value)
    (model_class : option (value -> result value)) :
  json response = Some (VDict d) ->
  dict_get d "success" = Some success ->
  (truthy success = false ->
   exists e,
     _extract_data response model_class = Raise (Gotrs e)
     /\ cls e = cls_GotrsError
     /\ message e = dict_get_default d "error" (VStr "API request failed")
     /\ Exceptions.status_code e = Some (status_code response))
  /\ (truthy success = true ->
      _extract_data response model_class
      = parse_with_model model_class (dict_get_default d "data" (VDict d))
      /\ _extract_data response None = Return (dict_get_default d "data" (VDict d)))
  /\ _extract_data success_with_data None = Return (VDict [("id", VInt 7)])
  /\ (exists e, _extract_data failure_with_error None = Raise (Gotrs e)
                /\ message e = VStr "boom").
Proof.
  intros Hjson Hkey. unfold _extract_data. rewrite Hjson, Hkey.
  split; [ | split; [ | split]].
  - intro Hfalse. rewrite Hfalse. cbn [negb].
    eexists. split; [reflexivity | ]. repeat split.
  - intro Htrue. rewrite Htrue. split; reflexivity.
  - reflexivity.
  - eexists. split; reflexivity.
Qed.

Lemma envelope_law_witness :
  json failure_with_error = Some (VDict [("success", VBool false); ("error", VStr "boom")])
  /\ dict_get [("success", VBool false); ("error", VStr "boom")] "success"
     = Some (VBool false)
  /\ exists e,
       _extract_data failure_with_error None = Raise (Gotrs e)
       /\ cls e = cls_GotrsError
       /\ message e = VStr "boom"
       /\ Exceptions.status_code e = Some 200.
Proof.
  split; [reflexivity | ]. split; [reflexivity | ].
  exact (proj1 (envelope_law failure_with_error
                  [("success", VBool false); ("error", VStr "boom")] (VBool false) None
                  eq_refl eq_refl) eq_refl).
Defined.

(** C2. The body [{"success": false, "message": "boom"}], answered with
    status 200: [_extract_data] raises a [GotrsError] with the status of
    the response and returns no data, but the message of the error is
    ["API request failed"], not ["boom"]: the ["message"] field of the
    body is dropped, while [_handle_error] surfaces it for the same body.
    So it is for every failure envelope that has a ["message"] and no
    ["error"], whatever target shape was asked for; the envelope law as
    the specification states it does not hold. *)
Theorem failure_message_dropped :
  (exists e,
      _extract_data failure_with_message None = Raise (Gotrs e)
      /\ cls e = cls_GotrsError
      /\ Exceptions.status_code e = Some 200
      /\ message e = VStr "API request failed"
      /\ message e <> VStr "boom")
  /\ (exists e, _handle_error failure_with_message = Gotrs e /\ message e = VStr "boom")
  /\ (forall (response : Response) (d : list (string * value)) (success m : value)
             (model_class : option (value -> result value)),
         json response = Some (VDict d) ->
         dict_get d "success" = Some success ->
         truthy success = false ->
         dict_get d "error" = None ->
         dict_get d "message" = Some m ->
         exists e,
           _extract_data response model_class = Raise (Gotrs e)
           /\ message e = VStr "API request failed"
           /\ Exceptions.status_code e = Some (status_code response))
  /\ stated_message [("success", VBool false); ("message", VStr "boom")]
     = Some (VStr "boom")
  /\ ~ stated_envelope_law.
Proof.
  split; [ | split; [ | split; [ | split]]].
  - eexists. split; [reflexivity | ]. repeat split. discriminate.
  - eexists. split; reflexivity.
  - intros response d success m model_class Hjson Hkey Hfalse Herror _.
    unfold _extract_data. rewrite Hjson, Hkey, Hfalse. cbn [negb].
    unfold dict_get_default. rewrite Herror.
    eexists. split; [reflexivity | ]. split; reflexivity.
  - reflexivity.
  - intro H.
    destruct (H failure_with_message
                [("success", VBool false); ("message", VStr "boom")]
                (VBool false) (VStr "boom") eq_refl eq_refl eq_refl eq_refl)
      as (e & Hraise & Hmsg & _).
    cbv in Hraise. injection Hraise as He. subst e. discriminate.
Qed.

Section Url.

Variable str : value -> string.
Variable urlencode : list (string * string) -> string.

Lemma lstrip_leading_slash (path : string) :
  lstrip_char "/" (String "/" path) = lstrip_char "/" path.
Proof. reflexivity. Qed.

(** C9. Against the base URL [https://x.test], the paths [/a/b] and [a/b]
    give the same URL, [https://x.test/a/b]; and for every client, every
    [urljoin], every path and every parameters, a slash put before the
    path does not change what [_build_url] returns. *)
Theorem leading_slash_insensitive :
  (forall auth timeout retries user_agent debug,
      let c := init "https://x.test" auth timeout retries user_agent debug in
      _build_url str Urllib.urljoin urlencode c "/a/b" None = Return "https://x.test/a/b"
      /\ _build_url str Urllib.urljoin urlencode c "a/b" None = Return "https://x.test/a/b")
  /\ (forall urljoin c path params,
         _build_url str urljoin urlencode c (String "/" path) params
         = _build_url str urljoin urlencode c path params).
Proof.
  split.
  - intros auth timeout retries user_agent debug. split; reflexivity.
  - intros urljoin c path params. unfold _build_url.
    rewrite lstrip_leading_slash. reflexivity.
Qed.

End Url.

End EnvelopeFacts.

(** ** Concurrent refresh *)

Module ConcurrentFacts.

Import Auth Concurrent.

Lemma length_set_caller (l : list position) :
  forall i p, List.length (set_caller i p l) = List.length l.
Proof.
  induction l as [ | q l IH]; intros i p; [reflexivity | ].
  destruct i; simpl; [reflexivity | ]. rewrite IH. reflexivity.
Qed.

Lemma nth_error_set_caller_eq (l : list position) :
  forall i p q, nth_error l i = Some q -> nth_error (set_caller i p l) i = Some p.
Proof.
  induction l as [ | x l IH]; intros i p q H; destruct i; simpl in *;
    try discriminate; [reflexivity | ].
  exact (IH i p q H).
Qed.

Lemma nth_error_set_caller_neq (l : list position) :
  forall i j p, i <> j -> nth_error (set_caller i p l) j = nth_error l j.
Proof.
  induction l as [ | x l IH]; intros i j p H; [reflexivity | ].
  destruct i, j; simpl; try reflexivity; [contradiction | ].
  apply IH. intro E. apply H. f_equal. exact E.
Qed.

Lemma set_caller_overwrite (l : list position) :
  forall i p q, set_caller i p (set_caller i q l) = set_caller i p l.
Proof.
  induction l as [ | x l IH]; intros i p q; [reflexivity | ].
  destruct i; simpl; [reflexivity | ]. rewrite IH. reflexivity.
Qed.

Lemma set_caller_swap (l : list position) :
  forall i j p q, i <> j ->
    set_caller i p (set_caller j q l) = set_caller j q (set_caller i p l).
Proof.
  induction l as [ | x l IH]; intros i j p q H; [reflexivity | ].
  destruct i, j; simpl; try reflexivity; [contradiction | ].
  rewrite IH; [reflexivity | ]. intro E. apply H. f_equal. exact E.
Qed.

Lemma Forall_set_caller (P : position -> Prop) (l : list position) :
  forall i p, Forall P l -> P p -> Forall P (set_caller i p l).
Proof.
  induction l as [ | x l IH]; intros i p Hl Hp; [constructor | ].
  inversion Hl; subst. destruct i; simpl; constructor; auto.
Qed.

Lemma set_caller_after (pre : list position) :
  forall p q rest,
    set_caller (List.length pre) p (pre ++ q :: rest) = pre ++ p :: rest.
Proof.
  induction pre as [ | x pre IH]; intros p q rest; [reflexivity | ].
  simpl. rewrite IH. reflexivity.
Qed.

Lemma nth_error_after (pre : list position) (q : position) (rest : list position) :
  nth_error (pre ++ q :: rest) (List.length pre) = Some q.
Proof. induction pre as [ | x pre IH]; [reflexivity | exact IH]. Qed.

Section OneRefresh.

Variable fromisoformat : string -> Q + string.
Variable subscript_error : value -> string.
Variable a0 : Authenticator.
Variables s0 s1 : token_state.
Variable procedure : refresh_procedure.
Variables old_expiry new_expiry : Q.

Hypothesis Htokens : tokens_of a0 = Some s0.
Hypothesis Hprocedure : refresh_function s0 = Some procedure.
Hypothesis Htoken : truthy (refresh_token s0) = true.
Hypothesis Hold : expires_at s0 = VDatetime old_expiry.
Hypothesis Hstore :
  store_refreshed fromisoformat subscript_error s0 (procedure 0%nat (refresh_token s0))
  = (s1, Return tt).
Hypothesis Hnew : expires_at s1 = VDatetime new_expiry.

Lemma store_keeps_procedure (s s' : token_state) (out : callback_outcome) (r : result unit) :
  store_refreshed fromisoformat subscript_error s out = (s', r) ->
  refresh_function s' = refresh_function s.
Proof.
  unfold store_refreshed.
  destruct out as [[ | | | | | | d | ] | text]; try (intro E; injection E as E _; subst s'; reflexivity).
  destruct (dict_get d "access_token") as [access | ];
    [ | intro E; injection E as E _; subst s'; reflexivity].
  destruct (dict_get d "expires_at") as [[ | | | | iso | | | ] | ];
    try (intro E; injection E as E _; subst s'; reflexivity).
  destruct (fromisoformat (replace_Z iso));
    intro E; injection E as E _; subst s'; reflexivity.
Qed.

Lemma refreshed_tokens : tokens_of (with_tokens a0 s1) = Some s1.
Proof.
  destruct a0; simpl in *; try discriminate; reflexivity.
Qed.

Lemma refreshed_procedure : refresh_function s1 = Some procedure.
Proof.
  rewrite (store_keeps_procedure _ _ _ _ Hstore). exact Hprocedure.
Qed.

Lemma old_is_expired (now : Q) :
  in_window old_expiry new_expiry now = true -> token_is_expired s0 now = Return true.
Proof.
  unfold in_window, token_is_expired. rewrite Hold. simpl.
  intro H. apply andb_prop in H. destruct H as [H _]. rewrite H. reflexivity.
Qed.

Lemma new_is_fresh (now : Q) :
  in_window old_expiry new_expiry now = true -> token_is_expired s1 now = Return false.
Proof.
  unfold in_window, token_is_expired. rewrite Hnew. simpl.
  intro H. apply andb_prop in H. destruct H as [_ H].
  apply negb_true_iff in H. rewrite H. reflexivity.
Qed.

Lemma launch_stage (n : nat) : stage a0 s1 (procedure 0%nat (refresh_token s0)) (launch a0 n).
Proof.
  apply Untouched; try reflexivity.
  simpl. induction n; simpl; constructor; auto.
Qed.

Lemma step_stage (i : nat) (now : Q) (st : state) :
  in_window old_expiry new_expiry now = true ->
  stage a0 s1 (procedure 0%nat (refresh_token s0)) st ->
  stage a0 s1 (procedure 0%nat (refresh_token s0)) (step fromisoformat subscript_error i now st).
Proof.
  intros Hnow Hst. pose proof Hst as Hsame.
  destruct Hst as [Ha Hl Hc Hall | j others Ha Hl Hc Hcs Hj Hall | Ha Hl Hc Hall];
    unfold step.
  - (* nobody has run *)
    destruct (nth_error (callers st) i) as [p | ] eqn:Hp; [ | exact Hsame].
    assert (p = Start).
    { symmetry. apply (proj1 (Forall_forall _ _) Hall). exact (nth_error_In _ _ Hp). }
    subst p. rewrite Ha, Htokens, Hprocedure, Htoken, Hl. cbn [negb].
    unfold under_lock. rewrite (old_is_expired now Hnow), Hprocedure, Hc.
    apply Refreshing with (i := i) (others := callers st); try reflexivity.
    + simpl. exact Ha.
    + apply nth_error_Some. rewrite Hp. discriminate.
    + eapply Forall_impl; [ | exact Hall]. intros p Hp0. left. symmetry. exact Hp0.
  - (* one caller awaits the procedure *)
    rewrite Hcs.
    destruct (Nat.eq_dec j i) as [E | N].
    + subst i.
      destruct (nth_error others j) as [q | ] eqn:Hq;
        [ | apply nth_error_None in Hq; lia].
      rewrite (nth_error_set_caller_eq others j (Awaiting (procedure 0%nat (refresh_token s0))) q Hq).
      rewrite Ha, Htokens. rewrite Hstore.
      apply Refreshed; [reflexivity | reflexivity | exact Hc | ].
      simpl. rewrite set_caller_overwrite. apply Forall_set_caller.
      * eapply Forall_impl; [ | exact Hall]. intros p Hp0. left. exact Hp0.
      * right. left. reflexivity.
    + rewrite (nth_error_set_caller_neq others j i (Awaiting (procedure 0%nat (refresh_token s0))) N).
      destruct (nth_error others i) as [p | ] eqn:Hp; [ | exact Hsame].
      assert (Hidle : idle p).
      { apply (proj1 (Forall_forall _ _) Hall). exact (nth_error_In _ _ Hp). }
      destruct Hidle as [E | E]; subst p.
      * rewrite Ha, Htokens, Hprocedure, Htoken, Hl. cbn [negb].
        apply Refreshing with (i := j) (others := set_caller i Waiting others);
          simpl; try reflexivity; try assumption.
        -- apply set_caller_swap. intro E. apply N. symmetry. exact E.
        -- rewrite length_set_caller. exact Hj.
        -- apply Forall_set_caller; [exact Hall | right; reflexivity].
      * rewrite Hl. exact Hsame.
  - (* the credential is refreshed *)
    destruct (nth_error (callers st) i) as [p | ] eqn:Hp; [ | exact Hsame].
    assert (Hp0 : idle p \/ finished s1 p).
    { apply (proj1 (Forall_forall _ _) Hall). exact (nth_error_In _ _ Hp). }
    destruct Hp0 as [[E | E] | [E | [E _]]]; subst p; try exact Hsame.
    + rewrite Ha, refreshed_tokens, refreshed_procedure.
      destruct (truthy (refresh_token s1)) eqn:Hrt; cbn [negb].
      * rewrite Hl. unfold under_lock. rewrite (new_is_fresh now Hnow).
        apply Refreshed; simpl; try reflexivity; try assumption.
        apply Forall_set_caller; [exact Hall | right; left; reflexivity].
      * apply Refreshed; simpl; try reflexivity; try assumption.
        apply Forall_set_caller; [exact Hall | right; right; split; [reflexivity | exact Hrt]].
    + rewrite Hl, Ha, refreshed_tokens. unfold under_lock. rewrite (new_is_fresh now Hnow).
      apply Refreshed; simpl; try reflexivity; try assumption.
      apply Forall_set_caller; [exact Hall | right; left; reflexivity].
Qed.

Lemma run_stage (schedule : list (nat * Q)) :
  forall st,
    forallb (fun ev => in_window old_expiry new_expiry (snd ev)) schedule = true ->
    stage a0 s1 (procedure 0%nat (refresh_token s0)) st ->
    stage a0 s1 (procedure 0%nat (refresh_token s0)) (run fromisoformat subscript_error schedule st).
Proof.
  induction schedule as [ | [i now] rest IH]; intros st Hclock Hst; [exact Hst | ].
  simpl in Hclock. apply andb_prop in Hclock. destruct Hclock as [Hnow Hrest].
  simpl. apply IH; [exact Hrest | ]. apply step_stage; assumption.
Qed.

Lemma step_keeps_callers (i : nat) (now : Q) (st : state) :
  List.length (callers (step fromisoformat subscript_error i now st))
  = List.length (callers st).
Proof.
  unfold step, under_lock.
  repeat match goal with
         | |- context [match ?x with _ => _ end] => destruct x
         end; simpl; rewrite ?length_set_caller; reflexivity.
Qed.

Lemma run_keeps_callers (schedule : list (nat * Q)) :
  forall st,
    List.length (callers (run fromisoformat subscript_error schedule st))
    = List.length (callers st).
Proof.
  induction schedule as [ | [i now] rest IH]; intro st; [reflexivity | ].
  simpl. rewrite IH. apply step_keeps_callers.
Qed.

(** Once the credential is refreshed, a caller that starts finishes in
    one step, without calling the refresh procedure. *)
Lemma others_in_turn (now : Q) (m : nat) :
  in_window old_expiry new_expiry now = true ->
  forall pre,
    forallb is_done pre = true ->
    all_done (run fromisoformat subscript_error
                (map (fun i => (i, now)) (seq (List.length pre) m))
                (mk_state (with_tokens a0 s1) false 1 (pre ++ repeat Start m))) = true.
Proof.
  intro Hnow. induction m as [ | m IH]; intros pre Hpre.
  - simpl. unfold all_done. simpl. rewrite app_nil_r. exact Hpre.
  - cbn [seq map run repeat].
    assert (Hnext : forall r,
              all_done (run fromisoformat subscript_error
                          (map (fun i => (i, now)) (seq (S (List.length pre)) m))
                          (mk_state (with_tokens a0 s1) false 1
                             (set_caller (List.length pre) (Done r)
                                (pre ++ Start :: repeat Start m)))) = true).
    { intro r. rewrite set_caller_after.
      replace (pre ++ Done r :: repeat Start m)
        with ((pre ++ [Done r]) ++ repeat Start m)
        by (rewrite <- app_assoc; reflexivity).
      replace (S (List.length pre)) with (List.length (pre ++ [Done r]))
        by (rewrite length_app; simpl; lia).
      apply IH. rewrite forallb_app, Hpre. reflexivity. }
    unfold step at 1. cbn [callers auth locked calls].
    rewrite nth_error_after, refreshed_tokens, refreshed_procedure.
    destruct (truthy (refresh_token s1)); cbn [negb].
    + unfold under_lock. cbn [callers auth locked calls].
      rewrite (new_is_fresh now Hnow). apply Hnext.
    + apply Hnext.
Qed.

Lemma in_turn_completes (n : nat) (now : Q) :
  (1 <= n)%nat ->
  in_window old_expiry new_expiry now = true ->
  all_done (run fromisoformat subscript_error (in_turn n now) (launch a0 n)) = true.
Proof.
  intros Hn Hnow. destruct n as [ | m]; [lia | ].
  unfold in_turn, launch. replace (S m - 1)%nat with m by lia.
  cbn [run repeat].
  unfold step at 2. cbn [callers auth locked calls nth_error].
  rewrite Htokens, Hprocedure, Htoken. cbn [negb].
  unfold under_lock. cbn [callers auth locked calls set_caller].
  rewrite (old_is_expired now Hnow), Hprocedure.
  unfold step at 1. cbn [callers auth locked calls nth_error].
  rewrite Htokens, Hstore. cbn [set_caller].
  exact (others_in_turn now m Hnow [Done (Return tt)] eq_refl).
Qed.

(** C5, amended. [n >= 1] callers run [refresh] concurrently on a JWT or
    OAuth2 authenticator that has a refresh procedure and a refresh token.
    The first answer of the procedure is a result that [refresh] stores
    without error, that leaves a refresh token in place (it has none of
    its own, or one that is not empty) and that sets a new expiry; at
    every clock reading of the run the check of the old expiry reports
    expired and the check of the new one does not. Then under every
    schedule, once all the callers are done, the procedure has been
    invoked exactly once, the authenticator holds the credential stored
    from that one answer, and every caller has returned without an
    error. Such runs exist: the callers do all finish when they run in
    turn. *)
Theorem one_refresh_for_all_callers (n : nat) :
  (1 <= n)%nat ->
  truthy (refresh_token s1) = true ->
  (forall schedule,
      forallb (fun ev => in_window old_expiry new_expiry (snd ev)) schedule = true ->
      all_done (run fromisoformat subscript_error schedule (launch a0 n)) = true ->
      calls (run fromisoformat subscript_error schedule (launch a0 n)) = 1%nat
      /\ auth (run fromisoformat subscript_error schedule (launch a0 n)) = with_tokens a0 s1
      /\ Forall (fun p => p = Done (Return tt))
           (callers (run fromisoformat subscript_error schedule (launch a0 n))))
  /\ (forall now,
         in_window old_expiry new_expiry now = true ->
         forallb (fun ev => in_window old_expiry new_expiry (snd ev)) (in_turn n now) = true
         /\ all_done (run fromisoformat subscript_error (in_turn n now) (launch a0 n)) = true).
Proof.
  intros Hn Hagain. split.
  - intros schedule Hclock Hdone.
    pose proof (run_stage schedule (launch a0 n) Hclock (launch_stage n)) as Hst.
    pose proof (run_keeps_callers schedule (launch a0 n)) as Hlen.
    simpl in Hlen. rewrite repeat_length in Hlen.
    unfold all_done in Hdone. rewrite forallb_forall in Hdone.
    destruct Hst as [Ha Hl Hc Hall | j others Ha Hl Hc Hcs Hj Hall | Ha Hl Hc Hall].
    + exfalso.
      destruct (callers (run fromisoformat subscript_error schedule (launch a0 n)))
        as [ | p rest]; [simpl in Hlen; lia | ].
      inversion Hall as [ | x l Hp Hrest]; subst.
      specialize (Hdone Start (or_introl eq_refl)). discriminate.
    + exfalso.
      destruct (nth_error others j) as [q | ] eqn:Hq;
        [ | apply nth_error_None in Hq; lia].
      pose proof (nth_error_set_caller_eq others j (Awaiting (procedure 0%nat (refresh_token s0))) q Hq) as Hin.
      rewrite <- Hcs in Hin. apply nth_error_In in Hin.
      specialize (Hdone _ Hin). discriminate.
    + split; [exact Hc | ]. split; [exact Ha | ].
      apply Forall_forall. intros p Hp.
      destruct (proj1 (Forall_forall _ _) Hall p Hp) as [[E | E] | [F | [_ F]]];
        [subst p; specialize (Hdone _ Hp); discriminate
        | subst p; specialize (Hdone _ Hp); discriminate
        | exact F
        | rewrite Hagain in F; discriminate].
  - intros now Hnow. split.
    + unfold in_turn. cbn [forallb snd]. rewrite Hnow. cbn [andb].
      apply forallb_forall. intros ev Hev. apply in_map_iff in Hev.
      destruct Hev as (i & E & _). subst ev. exact Hnow.
    + apply in_turn_completes; assumption.
Qed.

End OneRefresh.

(** C5, as stated, fails. Two callers refresh [stale_jwt], whose refresh
    procedure answers with a new access token and no expiry: the first
    caller takes the lock and calls the procedure, the second waits, the
    first stores the token and frees the lock, and the second, finding
    the credential still expired, calls the procedure again. Both callers
    are done and the procedure was invoked twice. *)
Lemma refreshed_twice :
  all_done (run no_isoformat not_subscriptable two_callers (launch stale_jwt 2)) = true
  /\ calls (run no_isoformat not_subscriptable two_callers (launch stale_jwt 2)) = 2%nat
  /\ ~ stated_single_refresh.
Proof.
  split; [reflexivity | ]. split; [reflexivity | ].
  intro H.
  specialize (H 2%nat stale_jwt
                (mk_token_state (VStr "old") (VStr "again") (VDatetime 0)
                   (Some (fun _ _ => Returns (VDict [("access_token", VStr "new")]))))
                (fun _ _ => Returns (VDict [("access_token", VStr "new")]))
                two_callers).
  assert (Hcalls : 2%nat = 1%nat).
  { apply H.
    - lia.
    - reflexivity.
    - reflexivity.
    - reflexivity.
    - intros ev Hev. simpl in Hev.
      repeat (destruct Hev as [Hev | Hev]; [subst ev; reflexivity | ]).
      contradiction.
    - reflexivity. }
  discriminate.
Qed.

Lemma one_refresh_for_all_callers_witness :
  tokens_of stale_oauth2
  = Some (mk_token_state (VStr "old") (VStr "again") (VDatetime 0)
            (Some (fun _ _ => Returns (VDict [("access_token", VStr "new");
                                              ("expires_at", VDatetime 1000)]))))
  /\ (1 <= 3)%nat
  /\ calls (run no_isoformat not_subscriptable
              three_callers
              (launch stale_oauth2 3)) = 1%nat
  /\ Forall (fun p => p = Done (Return tt))
       (callers (run no_isoformat not_subscriptable three_callers (launch stale_oauth2 3))).
Proof.
  split; [reflexivity | ]. split; [lia | ].
  assert (H := proj1 (one_refresh_for_all_callers no_isoformat not_subscriptable
             stale_oauth2 _ _ _ 0 1000 eq_refl eq_refl eq_refl eq_refl eq_refl eq_refl
             3%nat ltac:(lia) eq_refl)
             three_callers
             eq_refl eq_refl).
  split; [exact (proj1 H) | exact (proj2 (proj2 H))].
Defined.

End ConcurrentFacts.

(** ** The retry loop, whatever the transport does *)

Module LoopFacts.

Import HttpClient Verbs.

Section Loop.

Variable str : value -> string.
Variable c : HTTPClient.
Variable transport : nat -> transport_outcome.

(** When the attempts that remain are the last [n] of the [retries + 1],
    the loop makes a request, and before each further request it sleeps. *)
Lemma attempts_shape (n : nat) :
  forall (m : nat) (last : option exn),
    Z.of_nat (m + n) = retries c + 1 ->
    (1 <= n)%nat ->
    exists j,
      (j < n)%nat
      /\ quiet (fst (attempts str c transport (map Z.of_nat (seq m n)) m last))
         = backoffs m j ++ [Requested].
Proof.
  induction n as [ | n IH]; intros m last Hsum Hn; [lia | ].
  assert (Hgo : forall last0 what,
             (Z.of_nat m <? retries c) = true ->
             exists j,
               (j < S n)%nat
               /\ quiet (Requested
                           :: retry_notice str c what (Z.of_nat m) (2 ^ Z.of_nat m)
                           ++ Slept (2 ^ Z.of_nat m)
                           :: fst (attempts str c transport (map Z.of_nat (seq (S m) n))
                                     (S m) last0))
                  = backoffs m j ++ [Requested]).
  { intros last0 what Hlt. apply Z.ltb_lt in Hlt.
    destruct (IH (S m) last0) as (j & Hj & Hq); [lia | lia | ].
    exists (S j). split; [lia | ].
    cbn [quiet filter]. fold (quiet (retry_notice str c what (Z.of_nat m) (2 ^ Z.of_nat m)
                                       ++ Slept (2 ^ Z.of_nat m)
                                       :: fst (attempts str c transport
                                                 (map Z.of_nat (seq (S m) n)) (S m) last0))).
    rewrite RetryFacts.quiet_app, RetryFacts.quiet_notice. cbn [app quiet filter].
    fold (quiet (fst (attempts str c transport (map Z.of_nat (seq (S m) n)) (S m) last0))).
    rewrite Hq. reflexivity. }
  assert (Hstop : forall last0,
             (Z.of_nat m <? retries c) = false ->
             attempts str c transport (map Z.of_nat (seq (S m) n)) (S m) last0
             = attempts str c transport [] (S m) last0).
  { intros last0 Hge. apply Z.ltb_ge in Hge.
    destruct n as [ | n']; [reflexivity | lia]. }
  cbn [seq map attempts].
  destruct (transport m) as [response | | text | e].
  - destruct (is_success response); [exists 0%nat; split; [lia | reflexivity] | ].
    destruct ((400 <=? status_code response) && (status_code response <? 500)
              && negb (status_code response =? 429));
      [exists 0%nat; split; [lia | reflexivity] | ].
    destruct (Z.of_nat m <? retries c) eqn:Hlt;
      [ | exists 0%nat; split; [lia | reflexivity]].
    destruct (Hgo last "Request failed" eq_refl) as (j & Hj & Hq).
    exists j. split; [exact Hj | ].
    destruct (attempts str c transport (map Z.of_nat (seq (S m) n)) (S m) last).
    exact Hq.
  - destruct (Z.of_nat m <? retries c) eqn:Hlt.
    + match goal with
      | |- context [attempts str c transport _ (S m) ?l] =>
          destruct (Hgo l "Request timed out" eq_refl) as (j & Hj & Hq);
          exists j; split; [exact Hj | ];
          destruct (attempts str c transport (map Z.of_nat (seq (S m) n)) (S m) l)
      end.
      exact Hq.
    + rewrite Hstop by reflexivity. exists 0%nat. split; [lia | reflexivity].
  - destruct (Z.of_nat m <? retries c) eqn:Hlt.
    + match goal with
      | |- context [attempts str c transport _ (S m) ?l] =>
          destruct (Hgo l "Network error" eq_refl) as (j & Hj & Hq);
          exists j; split; [exact Hj | ];
          destruct (attempts str c transport (map Z.of_nat (seq (S m) n)) (S m) l)
      end.
      exact Hq.
    + rewrite Hstop by reflexivity. exists 0%nat. split; [lia | reflexivity].
  - exists 0%nat. split; [lia | reflexivity].
Qed.

(** X1. Whatever the transport does, a client whose retry count is not
    negative makes at least one request and at most [retries + 1]; it
    sleeps exactly once between two consecutive requests and at no other
    time, and the delay slept after the request numbered [i] (from 0) is
    [2^i]. *)
Theorem loop_shape :
  0 <= retries c ->
  requests (fst (_make_request_with_retries str c transport))
  = S (List.length (delays (fst (_make_request_with_retries str c transport))))
  /\ Z.of_nat (requests (fst (_make_request_with_retries str c transport)))
     <= retries c + 1
  /\ delays (fst (_make_request_with_retries str c transport))
     = map (fun i => 2 ^ Z.of_nat i)
         (seq 0 (List.length (delays (fst (_make_request_with_retries str c transport)))))
  /\ quiet (fst (_make_request_with_retries str c transport))
     = backoffs 0 (List.length (delays (fst (_make_request_with_retries str c transport))))
       ++ [Requested].
Proof.
  intro Hr. unfold _make_request_with_retries, range.
  destruct (attempts_shape (Z.to_nat (retries c + 1)) 0 None) as (j & Hj & Hq);
    [lia | lia | ].
  set (evs := fst (attempts str c transport
                     (map Z.of_nat (seq 0 (Z.to_nat (retries c + 1)))) 0%nat None)) in *.
  assert (Hd : delays evs = map (fun i => 2 ^ Z.of_nat i) (seq 0 j)).
  { rewrite <- RetryFacts.delays_quiet, Hq, RetryFacts.delays_app,
      RetryFacts.delays_backoffs.
    unfold delays. simpl. apply app_nil_r. }
  assert (Hl : List.length (delays evs) = j).
  { rewrite Hd, length_map, length_seq. reflexivity. }
  assert (Hq' : requests evs = S j).
  { rewrite <- RetryFacts.requests_quiet, Hq, RetryFacts.requests_app,
      RetryFacts.requests_backoffs.
    unfold requests. simpl. lia. }
  rewrite Hl. repeat split; try assumption. lia.
Qed.

(** X4. A client whose retry count is negative makes no request at all:
    the loop body never runs and the generic error is raised. *)
Theorem negative_retries :
  retries c < 0 ->
  _make_request_with_retries str c transport
  = ([], Raise (Gotrs (GotrsError (VStr "Request failed after all retry attempts")
                         no_kwargs))).
Proof.
  intro Hr. unfold _make_request_with_retries, range.
  replace (Z.to_nat (retries c + 1)) with 0%nat by lia.
  reflexivity.
Qed.

(** X2. Transient failures of any kind are retried alike: after [k]
    outcomes that are timeouts, network failures, or responses that are
    neither a success nor a client error other than 429, a success on an
    attempt that remains ([k <= retries]) is returned, [k + 1] requests
    having been made and the delays [2^0 .. 2^(k-1)] slept. *)
Theorem transient_failures_law (k : nat) (ok : Response) :
  Z.of_nat k <= retries c ->
  (forall i, (i < k)%nat -> retryable (transport i) = true) ->
  transport k = Responds ok ->
  is_success ok = true ->
  snd (_make_request_with_retries str c transport) = Return ok
  /\ requests (fst (_make_request_with_retries str c transport)) = S k
  /\ delays (fst (_make_request_with_retries str c transport))
     = map (fun i => 2 ^ Z.of_nat i) (seq 0 k).
Proof.
  intros Hk Hretry Hok Hs.
  destruct (RetryFacts.after_retries str c transport k ([Requested], Return ok))
    as (pre & E & Q).
  - exact Hretry.
  - exact Hk.
  - intros rest last. cbn [attempts]. rewrite Hok, Hs. reflexivity.
  - rewrite E. cbn [fst snd]. split; [reflexivity | ].
    destruct (RetryFacts.observed pre k Q) as (H1 & H2 & _). split; assumption.
Qed.

(** X5. An exception of the transport that is neither a timeout nor a
    network error is not retried and not wrapped: it leaves the loop as
    it is, after the request that raised it. *)
Theorem uncaught_exception_law (k : nat) (e : exn) :
  Z.of_nat k <= retries c ->
  (forall i, (i < k)%nat -> retryable (transport i) = true) ->
  transport k = Crashes e ->
  snd (_make_request_with_retries str c transport) = Raise e
  /\ requests (fst (_make_request_with_retries str c transport)) = S k
  /\ delays (fst (_make_request_with_retries str c transport))
     = map (fun i => 2 ^ Z.of_nat i) (seq 0 k).
Proof.
  intros Hk Hretry He.
  destruct (RetryFacts.after_retries str c transport k ([Requested], Raise e))
    as (pre & E & Q).
  - exact Hretry.
  - exact Hk.
  - intros rest last. cbn [attempts]. rewrite He. reflexivity.
  - rewrite E. cbn [fst snd]. split; [reflexivity | ].
    destruct (RetryFacts.observed pre k Q) as (H1 & H2 & _). split; assumption.
Qed.

(** The loop when the last attempt ends without a response. *)
Lemma last_attempt_fails (what : exn) :
  0 <= retries c ->
  (forall i, (i < Z.to_nat (retries c))%nat -> retryable (transport i) = true) ->
  (forall last,
      attempts str c transport [retries c] (Z.to_nat (retries c)) last
      = ([Requested], Raise what)) ->
  snd (_make_request_with_retries str c transport) = Raise what
  /\ requests (fst (_make_request_with_retries str c transport))
     = S (Z.to_nat (retries c)).
Proof.
  intros Hr Hretry Hfinal.
  unfold _make_request_with_retries, range.
  destruct (RetryFacts.retried_attempts str c transport (Z.to_nat (retries c)) 0
              (Z.to_nat (retries c + 1)) None) as (pre & last' & E & Q);
    [exact Hretry | lia | lia | ].
  rewrite E. cbn [Nat.add].
  replace (Z.to_nat (retries c + 1) - Z.to_nat (retries c))%nat with 1%nat by lia.
  cbn [seq map]. rewrite Z2Nat.id by exact Hr. rewrite Hfinal. cbn [fst snd].
  split; [reflexivity | ].
  apply (RetryFacts.observed pre _ Q).
Qed.

(** X3. When every attempt fails and the last one fails without a
    response, the failure of the last attempt decides: a timeout raises
    [TimeoutError] with the configured timeout in its message, a network
    failure raises [NetworkError] with the text of the failure; in both
    cases [retries + 1] requests were made. *)
Theorem last_failure_law :
  0 <= retries c ->
  (forall i, (i < Z.to_nat (retries c))%nat -> retryable (transport i) = true) ->
  (transport (Z.to_nat (retries c)) = TimesOut ->
   snd (_make_request_with_retries str c transport)
   = Raise (Gotrs (TimeoutError
                     (VStr ("Request timed out after " ++ str (timeout c) ++ "s")%string)
                     no_kwargs))
   /\ requests (fst (_make_request_with_retries str c transport))
      = S (Z.to_nat (retries c)))
  /\ (forall text,
         transport (Z.to_nat (retries c)) = NetworkFails text ->
         snd (_make_request_with_retries str c transport)
         = Raise (Gotrs (NetworkError (VStr ("Network error: " ++ text)%string) no_kwargs))
         /\ requests (fst (_make_request_with_retries str c transport))
            = S (Z.to_nat (retries c))).
Proof.
  intros Hr Hretry.
  assert (Hno : (retries c <? retries c) = false) by (apply Z.ltb_irrefl).
  split.
  - intro Hlast. apply last_attempt_fails; try assumption.
    intro last. cbn [attempts]. rewrite Hlast, Hno. reflexivity.
  - intros text Hlast. apply last_attempt_fails; try assumption.
    intro last. cbn [attempts]. rewrite Hlast, Hno. reflexivity.
Qed.

Lemma attempts_return (todo : list Z) :
  forall (made : nat) (last : option exn) (r : Response),
    snd (attempts str c transport todo made last) = Return r ->
    is_success r = true
    /\ exists n, (made <= n < made + List.length todo)%nat /\ transport n = Responds r.
Proof.
  induction todo as [ | attempt rest IH]; intros made last r.
  - simpl. destruct last; discriminate.
  - assert (Hnext : forall last0,
               snd (attempts str c transport rest (S made) last0) = Return r ->
               is_success r = true
               /\ exists n, (made <= n < made + List.length (attempt :: rest))%nat
                            /\ transport n = Responds r).
    { intros last0 H. destruct (IH (S made) last0 r H) as (Hs & n & Hn & Hr).
      split; [exact Hs | ]. exists n. split; [simpl; lia | exact Hr]. }
    cbn [attempts].
    destruct (transport made) as [response | | text | e] eqn:Ht.
    + destruct (is_success response) eqn:Hs.
      * cbn [snd]. intro E. injection E as E. subst response.
        split; [exact Hs | ]. exists made. split; [simpl; lia | exact Ht].
      * destruct ((400 <=? status_code response) && (status_code response <? 500)
                  && negb (status_code response =? 429)); [discriminate | ].
        destruct (attempt <? retries c); [ | discriminate].
        destruct (attempts str c transport rest (S made) last) as [later out] eqn:E.
        cbn [snd]. intro H. apply (Hnext last). rewrite E. exact H.
    + destruct (attempt <? retries c);
        match goal with
        | |- context [attempts str c transport rest (S made) ?l] =>
            destruct (attempts str c transport rest (S made) l) as [later out] eqn:E;
            cbn [snd]; intro H; apply (Hnext l); rewrite E; exact H
        end.
    + destruct (attempt <? retries c);
        match goal with
        | |- context [attempts str c transport rest (S made) ?l] =>
            destruct (attempts str c transport rest (S made) l) as [later out] eqn:E;
            cbn [snd]; intro H; apply (Hnext l); rewrite E; exact H
        end.
    + discriminate.
Qed.

(** X6. A response that [_make_request_with_retries] returns is always a
    success, and it is what the transport answered to one of the at most
    [retries + 1] requests. *)
Theorem returned_response_law (r : Response) :
  snd (_make_request_with_retries str c transport) = Return r ->
  is_success r = true
  /\ exists n, Z.of_nat n <= retries c /\ transport n = Responds r.
Proof.
  intro H. unfold _make_request_with_retries in H.
  destruct (attempts_return _ _ _ _ H) as (Hs & n & Hn & Hr).
  split; [exact Hs | ]. exists n. split; [ | exact Hr].
  unfold range in Hn. rewrite length_map, length_seq in Hn. lia.
Qed.

End Loop.

Lemma loop_shape_witness :
  0 <= retries client
  /\ requests (fst (_make_request_with_retries silent client recovers))
     = S (List.length (delays (fst (_make_request_with_retries silent client recovers))))
  /\ Z.of_nat (requests (fst (_make_request_with_retries silent client recovers)))
     <= retries client + 1
  /\ delays (fst (_make_request_with_retries silent client recovers))
     = map (fun i => 2 ^ Z.of_nat i)
         (seq 0 (List.length
                   (delays (fst (_make_request_with_retries silent client recovers)))))
  /\ quiet (fst (_make_request_with_retries silent client recovers))
     = backoffs 0
         (List.length (delays (fst (_make_request_with_retries silent client recovers))))
       ++ [Requested].
Proof.
  split; [discriminate | ].
  apply (loop_shape silent client recovers). discriminate.
Defined.

Lemma negative_retries_witness :
  retries no_attempt_client < 0
  /\ _make_request_with_retries silent no_attempt_client recovers
     = ([], Raise (Gotrs (GotrsError (VStr "Request failed after all retry attempts")
                            no_kwargs))).
Proof.
  split; [reflexivity | ].
  apply (negative_retries silent no_attempt_client recovers). reflexivity.
Defined.

Lemma transient_failures_law_witness :
  Z.of_nat 2 <= retries client
  /\ snd (_make_request_with_retries silent client recovers) = Return success_with_data
  /\ requests (fst (_make_request_with_retries silent client recovers)) = 3%nat
  /\ delays (fst (_make_request_with_retries silent client recovers)) = [1; 2].
Proof.
  split; [discriminate | ].
  refine (transient_failures_law silent client recovers 2 success_with_data
            _ _ eq_refl eq_refl).
  - discriminate.
  - intros i Hi. destruct i as [ | [ | i]]; [reflexivity | reflexivity | lia].
Defined.

Lemma uncaught_exception_law_witness :
  Z.of_nat 1 <= retries client
  /\ snd (_make_request_with_retries silent client breaks)
     = Raise (TransportError "too many redirects")
  /\ requests (fst (_make_request_with_retries silent client breaks)) = 2%nat
  /\ delays (fst (_make_request_with_retries silent client breaks)) = [1].
Proof.
  split; [discriminate | ].
  refine (uncaught_exception_law silent client breaks 1
            (TransportError "too many redirects") _ _ eq_refl).
  - discriminate.
  - intros i Hi. destruct i as [ | i]; [reflexivity | lia].
Defined.

Lemma last_failure_law_witness :
  0 <= retries client
  /\ snd (_make_request_with_retries silent client always_late)
     = Raise (Gotrs (TimeoutError (VStr "Request timed out after s") no_kwargs))
  /\ requests (fst (_make_request_with_retries silent client always_late)) = 4%nat.
Proof.
  split; [discriminate | ].
  refine (proj1 (last_failure_law silent client always_late _ _) eq_refl).
  - discriminate.
  - intros i Hi. reflexivity.
Defined.

Lemma returned_response_law_witness :
  snd (_make_request_with_retries silent client recovers) = Return success_with_data
  /\ is_success success_with_data = true
  /\ exists n, Z.of_nat n <= retries client /\ recovers n = Responds success_with_data.
Proof.
  split; [reflexivity | ].
  exact (returned_response_law silent client recovers success_with_data eq_refl).
Defined.

End LoopFacts.

(** ** What an error response and a success response become *)

Module ResponseFacts.

Import HttpClient Verbs.

(** X7. Whatever its status, a response whose body is not JSON or is a
    JSON object is turned by [_handle_error] into an error of the
    taxonomy that carries the status of the response, the fields read as
    [response_data], their ["details"] (or the empty string), and as
    message their ["message"], or else their ["error"], or else
    ["Unknown error"]. *)
Theorem handle_error_keeps_response (response : Response) :
  object_or_text response = true ->
  exists e,
    _handle_error response = Gotrs e
    /\ Exceptions.status_code e = Some (status_code response)
    /\ message e
       = dict_get_default (error_fields response) "message"
           (dict_get_default (error_fields response) "error" (VStr "Unknown error"))
    /\ details e = dict_get_default (error_fields response) "details" (VStr "")
    /\ response_data e = VDict (error_fields response).
Proof.
  intro Hb. unfold _handle_error.
  rewrite (ClassificationFacts.error_data_of response Hb).
  destruct (status_code response =? 404) eqn:H404;
    [apply Z.eqb_eq in H404; rewrite H404; eexists; split; [reflexivity | ];
     repeat split | ].
  destruct (status_code response =? 401) eqn:H401;
    [apply Z.eqb_eq in H401; rewrite H401; eexists; split; [reflexivity | ];
     repeat split | ].
  destruct (status_code response =? 403) eqn:H403;
    [apply Z.eqb_eq in H403; rewrite H403; eexists; split; [reflexivity | ];
     repeat split | ].
  destruct (status_code response =? 429) eqn:H429;
    [apply Z.eqb_eq in H429; rewrite H429; eexists; split; [reflexivity | ];
     repeat split | ].
  destruct ((500 <=? status_code response) && (status_code response <? 600));
    eexists; (split; [reflexivity | ]); repeat split.
Qed.

Lemma handle_error_keeps_response_witness :
  object_or_text not_found = true
  /\ exists e,
       _handle_error not_found = Gotrs e
       /\ Exceptions.status_code e = Some 404
       /\ message e = VStr "no such ticket"
       /\ details e = VStr "id 7"
       /\ response_data e = VDict (error_fields not_found).
Proof.
  split; [reflexivity | ].
  exact (handle_error_keeps_response not_found eq_refl).
Defined.

(** X8. The ["code"] of the body reaches the error only for the statuses
    that have no class of their own: for 404, 401, 403 and 429 the class
    fixes the code and the body's code is dropped; for every other
    status the code is the body's, or the empty string when it has none,
    and the class is [ServerError] for a 5xx and [GotrsError] otherwise.
    Only a 429 gives a [retry_after]. *)
Theorem handle_error_code (response : Response) :
  object_or_text response = true ->
  exists e,
    _handle_error response = Gotrs e
    /\ (status_code response = 404 ->
        cls e = cls_NotFoundError /\ code e = VStr "NOT_FOUND")
    /\ (status_code response = 401 ->
        cls e = cls_UnauthorizedError /\ code e = VStr "UNAUTHORIZED")
    /\ (status_code response = 403 ->
        cls e = cls_ForbiddenError /\ code e = VStr "FORBIDDEN")
    /\ (status_code response = 429 ->
        cls e = cls_RateLimitError /\ code e = VStr "RATE_LIMITED")
    /\ (status_code response <> 404 -> status_code response <> 401 ->
        status_code response <> 403 -> status_code response <> 429 ->
        code e = dict_get_default (error_fields response) "code" (VStr "")
        /\ cls e = if (500 <=? status_code response) && (status_code response <? 600)
                   then cls_ServerError else cls_GotrsError)
    /\ (status_code response <> 429 -> retry_after e = None).
Proof.
  intro Hb. unfold _handle_error.
  rewrite (ClassificationFacts.error_data_of response Hb).
  destruct (status_code response =? 404) eqn:H404.
  { apply Z.eqb_eq in H404. eexists. split; [reflexivity | ].
    repeat split; intros; try lia; try reflexivity. }
  destruct (status_code response =? 401) eqn:H401.
  { apply Z.eqb_eq in H401. eexists. split; [reflexivity | ].
    repeat split; intros; try lia; try reflexivity. }
  destruct (status_code response =? 403) eqn:H403.
  { apply Z.eqb_eq in H403. eexists. split; [reflexivity | ].
    repeat split; intros; try lia; try reflexivity. }
  destruct (status_code response =? 429) eqn:H429.
  { apply Z.eqb_eq in H429. eexists. split; [reflexivity | ].
    repeat split; intros; try lia; try reflexivity. }
  apply Z.eqb_neq in H404, H401, H403, H429.
  destruct ((500 <=? status_code response) && (status_code response <? 600));
    eexists; (split; [reflexivity | ]);
    repeat split; intros; try contradiction; try reflexivity.
Qed.

Lemma handle_error_code_witness :
  object_or_text not_found = true
  /\ exists e,
       _handle_error not_found = Gotrs e
       /\ cls e = cls_NotFoundError /\ code e = VStr "NOT_FOUND".
Proof.
  split; [reflexivity | ].
  destruct (handle_error_code not_found eq_refl) as (e & He & H404 & _).
  exists e. split; [exact He | ]. apply H404. reflexivity.
Defined.

Lemma validate_each_returns (model_validate : value -> result value) (items : list value) :
  forall models,
    validate_each model_validate items = Return models
    <-> Forall2 (fun item model => model_validate item = Return model) items models.
Proof.
  induction items as [ | item rest IH]; intro models.
  - simpl. split.
    + intro E. injection E as E. subst models. constructor.
    + intro F. inversion F. reflexivity.
  - simpl. destruct (model_validate item) as [model | e] eqn:Hitem.
    + destruct (validate_each model_validate rest) as [done | e] eqn:Hrest.
      * split.
        -- intro E. injection E as E. subst models. constructor; [exact Hitem | ].
           apply IH. reflexivity.
        -- intro F. inversion F as [ | x y l l' Hx Hl]; subst.
           rewrite Hitem in Hx. injection Hx as Hx. subst y.
           apply IH in Hl. injection Hl as Hl. subst l'. reflexivity.
      * split; [discriminate | ].
        intro F. inversion F as [ | x y l l' Hx Hl]; subst.
        apply IH in Hl. discriminate.
    + split; [discriminate | ].
      intro F. inversion F as [ | x y l l' Hx Hl]; subst.
      rewrite Hitem in Hx. discriminate.
Qed.

Lemma validate_each_raises (model_validate : value -> result value) (items : list value) :
  forall e,
    validate_each model_validate items = Raise e
    <-> exists before item after,
          items = before ++ item :: after
          /\ Forall (fun x => exists model, model_validate x = Return model) before
          /\ model_validate item = Raise e.
Proof.
  induction items as [ | item rest IH]; intro e.
  - simpl. split; [discriminate | ].
    intros (before & x & after & E & _). destruct before; discriminate.
  - simpl. specialize (IH e).
    destruct (model_validate item) as [model | e0] eqn:Hitem.
    + destruct (validate_each model_validate rest) as [done | e1].
      * split; [discriminate | ].
        intros (before & x & after & E & Hbefore & Hx).
        destruct before as [ | b before]; simpl in E; injection E as E1 E2.
        -- subst x. rewrite Hitem in Hx. discriminate.
        -- assert (Hfail : Return done = Raise e); [ | discriminate].
           apply IH. exists before, x, after.
           inversion Hbefore; subst. auto.
      * split.
        -- intro E. injection E as E. subst e1.
           destruct (proj1 IH eq_refl) as (before & x & after & E & Hbefore & Hx).
           exists (item :: before), x, after. subst rest.
           split; [reflexivity | ]. split; [ | exact Hx].
           constructor; [exists model; exact Hitem | exact Hbefore].
        -- intros (before & x & after & E & Hbefore & Hx).
           destruct before as [ | b before]; simpl in E; injection E as E1 E2.
           ++ subst x. rewrite Hitem in Hx. discriminate.
           ++ assert (Hfail : Raise (A := list value) e1 = Raise e).
              { apply IH. exists before, x, after.
                inversion Hbefore; subst. auto. }
              injection Hfail as Hfail. subst e1. reflexivity.
    + split.
      * intro E. injection E as E. subst e0.
        exists [], item, rest. split; [reflexivity | ]. split; [constructor | exact Hitem].
      * intros (before & x & after & E & Hbefore & Hx).
        destruct before as [ | b before]; simpl in E; injection E as E1 E2.
        -- subst x. rewrite Hitem in Hx. injection Hx as Hx. subst e0. reflexivity.
        -- subst b. inversion Hbefore as [ | y l Hy Hl]; subst.
           destruct Hy as (model & Hy). rewrite Hitem in Hy. discriminate.
Qed.

(** With a target shape, [_extract_data] applies the last block to the
    value it returns without one. *)
Lemma shaped_after_unwrapping (response : Response) (v : value)
    (model_validate : value -> result value) :
  _extract_data response None = Return v ->
  json response <> None ->
  _extract_data response (Some model_validate)
  = parse_with_model (Some model_validate) v.
Proof.
  unfold _extract_data.
  destruct (json response) as [data | ]; [ | intros _ H; contradiction].
  intros H _.
  destruct data as [ | b | n | x | s | items | d | ts];
    try (simpl in H; injection H as H; subst v; reflexivity).
  destruct (dict_get d "success") as [success | ];
    [ | simpl in H; injection H as H; subst v; reflexivity].
  destruct (negb (truthy success)); [discriminate | ].
  simpl in H. injection H as H. subst v. reflexivity.
Qed.

(** X9. When the value unwrapped from a JSON response is a list and a
    target shape is asked for, [_extract_data] returns the list of the
    validated items, in order and of the same length, exactly when every
    item validates; otherwise it raises the error of the first item that
    does not validate, the items before it having validated. *)
Theorem list_hydration (response : Response) (items : list value)
    (model_validate : value -> result value) :
  json response <> None ->
  _extract_data response None = Return (VList items) ->
  (forall v,
      _extract_data response (Some model_validate) = Return v
      <-> exists models,
            v = VList models
            /\ Forall2 (fun item model => model_validate item = Return model) items models)
  /\ (forall e,
         _extract_data response (Some model_validate) = Raise e
         <-> exists before item after,
               items = before ++ item :: after
               /\ Forall (fun x => exists model, model_validate x = Return model) before
               /\ model_validate item = Raise e).
Proof.
  intros Hjson Hlist.
  rewrite (shaped_after_unwrapping response (VList items) model_validate Hlist Hjson).
  cbn [parse_with_model]. split.
  - intro v. destruct (validate_each model_validate items) as [models | e] eqn:Hv.
    + split.
      * intro E. injection E as E. subst v. exists models. split; [reflexivity | ].
        apply validate_each_returns. exact Hv.
      * intros (models' & E & F). subst v. apply validate_each_returns in F.
        rewrite Hv in F. injection F as F. subst models'. reflexivity.
    + split; [discriminate | ].
      intros (models' & E & F). apply validate_each_returns in F.
      rewrite Hv in F. discriminate.
  - intro e. rewrite <- validate_each_raises.
    destruct (validate_each model_validate items) as [models | e0].
    + split; discriminate.
    + split; intro E; injection E as E; subst; reflexivity.
Qed.

Lemma list_hydration_witness :
  json two_items <> None
  /\ _extract_data two_items None = Return (VList [VInt 1; VInt 2])
  /\ _extract_data two_items (Some integers_only)
     = Return (VList [VDict [("value", VInt 1)]; VDict [("value", VInt 2)]]).
Proof.
  split; [discriminate | ]. split; [reflexivity | ].
  apply (proj1 (list_hydration two_items [VInt 1; VInt 2] integers_only
                  ltac:(discriminate) eq_refl)).
  exists [VDict [("value", VInt 1)]; VDict [("value", VInt 2)]].
  split; [reflexivity | ]. repeat constructor.
Defined.

(** X10. Asking for a target shape does not guarantee it: a body that is
    not JSON is returned as its text, and a value unwrapped as [None]
    (a JSON [null], or a ["data"] that is [null]) is returned as [None],
    in both cases without the model being applied. *)
Theorem shape_not_guaranteed (response : Response)
    (model_validate : value -> result value) :
  (json response = None ->
   _extract_data response (Some model_validate) = Return (VStr (text response)))
  /\ (json response <> None ->
      _extract_data response None = Return VNone ->
      _extract_data response (Some model_validate) = Return VNone).
Proof.
  split.
  - intro H. unfold _extract_data. rewrite H. reflexivity.
  - intros Hjson H.
    rewrite (shaped_after_unwrapping response VNone model_validate H Hjson).
    reflexivity.
Qed.

Lemma shape_not_guaranteed_witness :
  _extract_data (mk_Response 200 [] "null" (Some VNone)) (Some integers_only)
  = Return VNone
  /\ _extract_data (mk_Response 200 [] "pong" None) (Some integers_only)
     = Return (VStr "pong").
Proof.
  split.
  - exact (proj2 (shape_not_guaranteed (mk_Response 200 [] "null" (Some VNone))
                    integers_only) ltac:(discriminate) eq_refl).
  - exact (proj1 (shape_not_guaranteed (mk_Response 200 [] "pong" None) integers_only)
             eq_refl).
Defined.

End ResponseFacts.

(** ** The URL of a request *)

Module UrlFacts.

Import HttpClient.

Lemma append_empty (s : string) : (s ++ "")%string = s.
Proof. induction s as [ | a s IH]; simpl; [reflexivity | rewrite IH; reflexivity]. Qed.

Lemma append_shift (s : string) (a : ascii) (t : string) :
  (s ++ String a t)%string = ((s ++ String a "") ++ t)%string.
Proof. induction s as [ | b s IH]; simpl; [reflexivity | rewrite IH; reflexivity]. Qed.

Lemma rstrip_one_more (c : ascii) (s : string) :
  rstrip_char c (s ++ String c "")%string = rstrip_char c s.
Proof.
  induction s as [ | a s IH]; simpl.
  - rewrite Ascii.eqb_refl. reflexivity.
  - rewrite IH. reflexivity.
Qed.

Lemma rstrip_slashes (n : nat) :
  forall s, rstrip_char "/" (s ++ slashes n)%string = rstrip_char "/" s.
Proof.
  induction n as [ | n IH]; intro s; simpl.
  - rewrite append_empty. reflexivity.
  - rewrite append_shift, IH. apply rstrip_one_more.
Qed.

Lemma lstrip_slashes (m : nat) (path : string) :
  lstrip_char "/" (slashes m ++ path)%string = lstrip_char "/" path.
Proof. induction m as [ | m IH]; simpl; [reflexivity | exact IH]. Qed.

Lemma rstrip_never_ends (c : ascii) (s : string) :
  forall t, rstrip_char c s <> (t ++ String c "")%string.
Proof.
  induction s as [ | a s IH]; intros t E; simpl in E.
  - destruct t; discriminate.
  - destruct (rstrip_char c s) as [ | k kept] eqn:Hs.
    + destruct (a =? c)%char eqn:Hac.
      * destruct t; discriminate.
      * destruct t as [ | x t]; simpl in E.
        -- injection E as E. subst a. rewrite Ascii.eqb_refl in Hac. discriminate.
        -- injection E as _ E. destruct t; discriminate.
    + destruct t as [ | x t]; simpl in E.
      * discriminate.
      * injection E as _ E. exact (IH t E).
Qed.

Lemma clean_nothing (str : value -> string) (params : list (string * value)) :
  clean str params = [] <-> forallb (fun p => is_None (snd p)) params = true.
Proof.
  induction params as [ | [key v] rest IH]; simpl.
  - split; reflexivity.
  - destruct v; simpl; try (split; discriminate). exact IH.
Qed.

Section Url.

Variable str : value -> string.
Variable urljoin : string -> string -> result string.
Variable urlencode : list (string * string) -> string.

(** X11. The parameters whose value is [None] do not reach the query
    string: parameters that are all [None] give the URL that no
    parameters give, without a question mark; otherwise the encoded
    parameters are those that are not [None], with their keys in the
    order given, a list as its items joined by commas and any other
    value as its [str]. *)
Theorem query_string_law (c : HTTPClient) (path : string)
    (params : list (string * value)) :
  _build_url str urljoin urlencode c path (Some params)
  = match _build_url str urljoin urlencode c path None with
    | Raise e => Raise e
    | Return url =>
        if forallb (fun p => is_None (snd p)) params then Return url
        else Return (url ++ "?" ++ urlencode (clean str params))%string
    end
  /\ map fst (clean str params)
     = map fst (filter (fun p => negb (is_None (snd p))) params)
  /\ (forall key v,
         In (key, v) params -> v <> VNone ->
         In (key, match v with
                  | VList items => join "," (map str items)
                  | _ => str v
                  end) (clean str params)).
Proof.
  split; [ | split].
  - unfold _build_url.
    destruct (urljoin (base_url c ++ "/")%string (lstrip_char "/" path)) as [url | e];
      [ | reflexivity].
    destruct params as [ | p rest]; [reflexivity | ].
    destruct (forallb (fun p => is_None (snd p)) (p :: rest)) eqn:Hall.
    + apply (clean_nothing str) in Hall. rewrite Hall. reflexivity.
    + destruct (clean str (p :: rest)) as [ | kv kept] eqn:Hclean; [ | reflexivity].
      apply (clean_nothing str) in Hclean. rewrite Hclean in Hall. discriminate.
  - induction params as [ | [key v] rest IH]; [reflexivity | ].
    destruct v; simpl; first [exact IH | f_equal; exact IH].
  - induction params as [ | [k w] rest IH]; intros key v Hin Hv; [contradiction | ].
    destruct Hin as [E | Hin].
    + injection E as E1 E2. subst k w.
      destruct v; try (left; reflexivity). contradiction.
    + specialize (IH key v Hin Hv).
      destruct w; simpl; first [exact IH | right; exact IH].
Qed.

(** X12. Slashes at the joint do not count, in any number: slashes that
    end the base URL given to the constructor and slashes that start the
    path leave the URL built as it is without them; and the base URL a
    client holds never ends with a slash. *)
Theorem joint_slashes_law (n m : nat) (base : string) (auth : option Auth.Authenticator)
    (timeout : value) (retries : Z) (user_agent : string) (debug : bool)
    (path : string) (params : option (list (string * value))) :
  _build_url str urljoin urlencode
    (init (base ++ slashes n)%string auth timeout retries user_agent debug)
    (slashes m ++ path)%string params
  = _build_url str urljoin urlencode
      (init base auth timeout retries user_agent debug) path params
  /\ (forall t,
         base_url (init base auth timeout retries user_agent debug)
         <> (t ++ "/")%string).
Proof.
  split.
  - unfold _build_url, init. simpl base_url.
    rewrite rstrip_slashes, lstrip_slashes. reflexivity.
  - intro t. unfold init. simpl base_url. apply rstrip_never_ends.
Qed.

(** X13. With the [urljoin] of the standard library, a path that is
    empty or made of slashes only gives the base URL followed by one
    slash, for every client. *)
Theorem bare_path_law (c : HTTPClient) (m : nat) :
  _build_url str Urllib.urljoin urlencode c (slashes m) None
  = Return (base_url c ++ "/")%string.
Proof.
  unfold _build_url.
  replace (lstrip_char "/" (slashes m)) with EmptyString.
  - unfold Urllib.urljoin.
    replace (Urllib.nonempty (base_url c ++ "/")%string) with true;
      [reflexivity | ].
    destruct (base_url c); reflexivity.
  - induction m as [ | m IH]; [reflexivity | exact IH].
Qed.

End Url.

End UrlFacts.

(** ** What one call of refresh does to an authenticator *)

Module TokenRefreshFacts.

Import Auth.

Section Laws.

Variable fromisoformat : string -> Q + string.
Variable subscript_error : value -> string.

Lemma store_frame (s : token_state) (out : callback_outcome) :
  refresh_function (fst (store_refreshed fromisoformat subscript_error s out))
  = refresh_function s.
Proof.
  unfold store_refreshed.
  destruct out as [[ | | | | | | d | ] | text]; try reflexivity.
  destruct (dict_get d "access_token") as [access | ]; [ | reflexivity].
  destruct (dict_get d "expires_at") as [[ | | | | iso | | | ] | ]; try reflexivity.
  destruct (fromisoformat (replace_Z iso)); reflexivity.
Qed.

Lemma store_raises (s s' : token_state) (out : callback_outcome) (e : exn) :
  store_refreshed fromisoformat subscript_error s out = (s', Raise e) ->
  exists text,
    e = refresh_failed text
    /\ (s' = s
        \/ exists d access iso,
             out = Returns (VDict d)
             /\ dict_get d "access_token" = Some access
             /\ dict_get d "expires_at" = Some (VStr iso)
             /\ fromisoformat (replace_Z iso) = inr text
             /\ token s' = access
             /\ expires_at s' = expires_at s).
Proof.
  unfold store_refreshed.
  destruct out as [[ | | | | | | d | ] | text];
    try (intro E; injection E as E1 E2; subst s' e; eexists; split;
         [reflexivity | left; reflexivity]).
  destruct (dict_get d "access_token") as [access | ] eqn:Haccess;
    [ | intro E; injection E as E1 E2; subst s' e; eexists; split;
        [reflexivity | left; reflexivity]].
  destruct (dict_get d "expires_at") as [[ | | | | iso | | | ] | ] eqn:Hexpiry;
    try discriminate.
  destruct (fromisoformat (replace_Z iso)) as [expiry | text] eqn:Hiso; [discriminate | ].
  intro E. injection E as E1 E2. subst s' e. exists text. split; [reflexivity | ].
  right. exists d, access, iso. repeat split; assumption.
Qed.

Lemma check_raises (s : token_state) (now : Q) (e : exn) :
  token_is_expired s now = Raise e -> e = AttributeError.
Proof.
  unfold token_is_expired. destruct (negb (truthy (expires_at s))); [discriminate | ].
  destruct (expires_at s); try discriminate; intro E; injection E as E; subst e; reflexivity.
Qed.

Lemma token_refresh_law (s : token_state) (calls : nat) (now : Q) :
  (snd (fst (token_refresh fromisoformat subscript_error s calls now)) = S calls
   <-> exists procedure,
         refresh_function s = Some procedure
         /\ truthy (refresh_token s) = true
         /\ token_is_expired s now = Return true)
  /\ (snd (fst (token_refresh fromisoformat subscript_error s calls now)) <> S calls ->
      snd (fst (token_refresh fromisoformat subscript_error s calls now)) = calls
      /\ fst (fst (token_refresh fromisoformat subscript_error s calls now)) = s)
  /\ refresh_function (fst (fst (token_refresh fromisoformat subscript_error s calls now)))
     = refresh_function s.
Proof.
  unfold token_refresh.
  destruct (refresh_function s) as [procedure | ] eqn:Hp.
  - destruct (truthy (refresh_token s)) eqn:Ht; simpl.
    + destruct (token_is_expired s now) as [[ | ] | e] eqn:He.
      * pose proof (store_frame s (procedure calls (refresh_token s))) as Hframe.
        destruct (store_refreshed fromisoformat subscript_error s
                    (procedure calls (refresh_token s))) as [s' r].
        simpl in *. split; [ | split].
        -- split; [intros _; exists procedure; auto | reflexivity].
        -- intro H. contradiction.
        -- rewrite Hframe. exact Hp.
      * simpl. split; [ | split; [auto | exact Hp]].
        split; [intro E; exfalso; exact (n_Sn _ E) | ].
        intros (p & _ & _ & H). discriminate.
      * simpl. split; [ | split; [auto | exact Hp]].
        split; [intro E; exfalso; exact (n_Sn _ E) | ].
        intros (p & _ & _ & H). discriminate.
    + split; [ | split; [auto | exact Hp]].
      split; [intro E; exfalso; exact (n_Sn _ E) | ].
      intros (p & _ & H & _). discriminate.
  - simpl. split; [ | split; [auto | exact Hp]].
    split; [intro E; exfalso; exact (n_Sn _ E) | ].
    intros (p & H & _). discriminate.
Qed.

(** X14. One call of [refresh] invokes the refresh procedure at most
    once, and exactly when the authenticator is a JWT or OAuth2 one that
    has a procedure and a refresh token and is expired at the check made
    under the lock; when the procedure is not invoked the authenticator
    is left as it was. In every case the authenticator keeps its type and
    its procedure. *)
Theorem refresh_invocation_law (a : Authenticator) (calls : nat) (now : Q) :
  (snd (fst (refresh fromisoformat subscript_error a calls now)) = S calls
   <-> exists s procedure,
         tokens_of a = Some s
         /\ refresh_function s = Some procedure
         /\ truthy (refresh_token s) = true
         /\ token_is_expired s now = Return true)
  /\ (snd (fst (refresh fromisoformat subscript_error a calls now)) <> S calls ->
      snd (fst (refresh fromisoformat subscript_error a calls now)) = calls
      /\ fst (fst (refresh fromisoformat subscript_error a calls now)) = a)
  /\ auth_type (fst (fst (refresh fromisoformat subscript_error a calls now)))
     = auth_type a
  /\ option_map refresh_function
       (tokens_of (fst (fst (refresh fromisoformat subscript_error a calls now))))
     = option_map refresh_function (tokens_of a).
Proof.
  destruct a as [ | api_key header_name | s | token_type s]; simpl.
  - split; [ | auto].
    split; [intro E; exfalso; exact (n_Sn _ E) | ].
    intros (s & p & H & _). discriminate.
  - split; [ | auto].
    split; [intro E; exfalso; exact (n_Sn _ E) | ].
    intros (s & p & H & _). discriminate.
  - destruct (token_refresh_law s calls now) as (Hiff & Hsame & Hframe).
    destruct (token_refresh fromisoformat subscript_error s calls now) as [[s' calls'] r].
    simpl in *. split; [ | split; [ | split]].
    + rewrite Hiff. split.
      * intros (p & H). exists s, p. auto.
      * intros (s0 & p & E & H). injection E as E. subst s0. exists p. exact H.
    + intro H. destruct (Hsame H) as [H1 H2]. subst. auto.
    + reflexivity.
    + rewrite Hframe. reflexivity.
  - destruct (token_refresh_law s calls now) as (Hiff & Hsame & Hframe).
    destruct (token_refresh fromisoformat subscript_error s calls now) as [[s' calls'] r].
    simpl in *. split; [ | split; [ | split]].
    + rewrite Hiff. split.
      * intros (p & H). exists s, p. auto.
      * intros (s0 & p & E & H). injection E as E. subst s0. exists p. exact H.
    + intro H. destruct (Hsame H) as [H1 H2]. subst. auto.
    + reflexivity.
    + rewrite Hframe. reflexivity.
Qed.

Lemma token_refresh_raises (s s' : token_state) (calls calls' : nat) (now : Q) (e : exn) :
  token_refresh fromisoformat subscript_error s calls now = (s', calls', Raise e) ->
  (calls' = calls /\ s' = s /\ (e = no_refresh_available \/ e = AttributeError))
  \/ (calls' = S calls
      /\ exists text,
           e = refresh_failed text
           /\ (s' = s
               \/ exists procedure d access iso,
                    refresh_function s = Some procedure
                    /\ procedure calls (refresh_token s) = Returns (VDict d)
                    /\ dict_get d "access_token" = Some access
                    /\ dict_get d "expires_at" = Some (VStr iso)
                    /\ fromisoformat (replace_Z iso) = inr text
                    /\ token s' = access
                    /\ expires_at s' = expires_at s)).
Proof.
  unfold token_refresh.
  destruct (refresh_function s) as [procedure | ] eqn:Hp;
    [ | intro E; injection E as E1 E2 E3; subst; left; auto].
  destruct (negb (truthy (refresh_token s)));
    [intro E; injection E as E1 E2 E3; subst; left; auto | ].
  destruct (token_is_expired s now) as [[ | ] | e0] eqn:He.
  - destruct (store_refreshed fromisoformat subscript_error s
                (procedure calls (refresh_token s))) as [s1 r] eqn:Hstore.
    intro E. injection E as E1 E2 E3. subst s1 calls' r.
    right. split; [reflexivity | ].
    destruct (store_raises s s' _ e Hstore) as (text & Htext & [Hsame | Hpartial]).
    + exists text. split; [exact Htext | left; exact Hsame].
    + destruct Hpartial as (d & access & iso & H1 & H2 & H3 & H4 & H5 & H6).
      exists text. split; [exact Htext | right].
      exists procedure, d, access, iso. repeat split; assumption.
  - discriminate.
  - intro E. injection E as E1 E2 E3. subst s' calls' e. left.
    split; [reflexivity | split; [reflexivity | right]].
    exact (check_raises s now e0 He).
Qed.

(** X15. When [refresh] raises, either the refresh procedure was not
    invoked and the authenticator is unchanged (the error is the
    [AuthenticationError] for a missing procedure or refresh token, or
    the [AttributeError] of an expiry that is not a datetime), or the
    procedure was invoked once and the error is the
    [AuthenticationError] ["Failed to refresh token: ..."]. In the
    second case the authenticator is unchanged as well, unless the
    result's ["expires_at"] is a string that [fromisoformat] refuses:
    then the new access token is already stored, with the old expiry. *)
Theorem refresh_failure_law (a a' : Authenticator) (calls calls' : nat) (now : Q)
    (e : exn) :
  refresh fromisoformat subscript_error a calls now = (a', calls', Raise e) ->
  (calls' = calls /\ a' = a /\ (e = no_refresh_available \/ e = AttributeError))
  \/ (calls' = S calls
      /\ exists text,
           e = refresh_failed text
           /\ (a' = a
               \/ exists s procedure d access iso,
                    tokens_of a = Some s
                    /\ refresh_function s = Some procedure
                    /\ procedure calls (refresh_token s) = Returns (VDict d)
                    /\ dict_get d "access_token" = Some access
                    /\ dict_get d "expires_at" = Some (VStr iso)
                    /\ fromisoformat (replace_Z iso) = inr text
                    /\ credential a' = access
                    /\ stored_expiry a' = stored_expiry a)).
Proof.
  destruct a as [ | api_key header_name | s | token_type s]; simpl; try discriminate.
  - destruct (token_refresh fromisoformat subscript_error s calls now)
      as [[s' n] r] eqn:Hrun.
    intro E. injection E as E1 E2 E3. subst a' n r.
    destruct (token_refresh_raises s s' calls calls' now e Hrun)
      as [(H1 & H2 & H3) | (H1 & text & H2 & [H3 | H3])].
    + left. subst. auto.
    + right. split; [exact H1 | ]. exists text. split; [exact H2 | left]. subst. reflexivity.
    + right. split; [exact H1 | ]. exists text. split; [exact H2 | right].
      destruct H3 as (p & d & access & iso & G1 & G2 & G3 & G4 & G5 & G6 & G7).
      exists s, p, d, access, iso. simpl. repeat split; assumption.
  - destruct (token_refresh fromisoformat subscript_error s calls now)
      as [[s' n] r] eqn:Hrun.
    intro E. injection E as E1 E2 E3. subst a' n r.
    destruct (token_refresh_raises s s' calls calls' now e Hrun)
      as [(H1 & H2 & H3) | (H1 & text & H2 & [H3 | H3])].
    + left. subst. auto.
    + right. split; [exact H1 | ]. exists text. split; [exact H2 | left]. subst. reflexivity.
    + right. split; [exact H1 | ]. exists text. split; [exact H2 | right].
      destruct H3 as (p & d & access & iso & G1 & G2 & G3 & G4 & G5 & G6 & G7).
      exists s, p, d, access, iso. simpl. repeat split; assumption.
Qed.

(** X16. When the authenticator is expired and the refresh procedure
    answers with an access token and an expiry, given as a datetime or as
    an ISO string that [fromisoformat] reads once its [Z] are replaced by
    [+00:00], [refresh] invokes the procedure once and stores both: the
    credential is the new access token, and the check of the expiry is
    from then on the check of the new one, in the arithmetic of doubles;
    between the epoch and [2 ^ 32] seconds it reports not expired at
    every instant that precedes the new expiry by 60 seconds and two
    microseconds or more. *)
Theorem refresh_stores_expiry (a : Authenticator) (s : token_state)
    (procedure : refresh_procedure) (d : list (string * value)) (access : value)
    (expiry : Q) (calls : nat) (now : Q) :
  tokens_of a = Some s ->
  refresh_function s = Some procedure ->
  truthy (refresh_token s) = true ->
  token_is_expired s now = Return true ->
  procedure calls (refresh_token s) = Returns (VDict d) ->
  dict_get d "access_token" = Some access ->
  (dict_get d "expires_at" = Some (VDatetime expiry)
   \/ exists iso, dict_get d "expires_at" = Some (VStr iso)
                  /\ fromisoformat (replace_Z iso) = inl expiry) ->
  exists a',
    refresh fromisoformat subscript_error a calls now = (a', S calls, Return tt)
    /\ credential a' = access
    /\ stored_expiry a' = VDatetime expiry
    /\ auth_type a' = auth_type a
    /\ (forall t,
           is_expired a' t
           = Return (Qle_bool (timestamp expiry) (Double.add (timestamp t) 60)))
    /\ (forall t,
           (0 <= t)%Q -> (expiry <= 4294967296)%Q ->
           (t + 60 + (2 # 1000000) <= expiry)%Q ->
           is_expired a' t = Return false).
Proof.
  intros Htokens Hp Htoken Hexpired Hanswer Haccess Hexpiry.
  assert (Hfresh : forall t,
             (0 <= t)%Q -> (expiry <= 4294967296)%Q ->
             (t + 60 + (2 # 1000000) <= expiry)%Q ->
             Qle_bool (timestamp expiry) (Double.add (timestamp t) 60) = false).
  { intros t Ht He Hgap.
    apply (ExpiryFacts.far_from_boundary expiry t); lra. }
  assert (Hstore :
            exists s',
              store_refreshed fromisoformat subscript_error s (Returns (VDict d))
              = (s', Return tt)
              /\ token s' = access /\ expires_at s' = VDatetime expiry).
  { unfold store_refreshed. rewrite Haccess.
    destruct Hexpiry as [Hnative | (iso & Hiso & Hparse)].
    - rewrite Hnative. eexists. split; [reflexivity | split; reflexivity].
    - rewrite Hiso, Hparse. eexists. split; [reflexivity | split; reflexivity]. }
  destruct Hstore as (s' & Hstore & Htok & Hexp).
  assert (Hrun : token_refresh fromisoformat subscript_error s calls now
                 = (s', S calls, Return tt)).
  { unfold token_refresh. rewrite Hp, Htoken, Hexpired, Hanswer, Hstore. reflexivity. }
  assert (Hcheck : forall t,
             token_is_expired s' t
             = Return (Qle_bool (timestamp expiry) (Double.add (timestamp t) 60))).
  { intro t. unfold token_is_expired. rewrite Hexp. reflexivity. }
  destruct a as [ | api_key header_name | s0 | token_type s0]; simpl in Htokens;
    try discriminate; injection Htokens as Htokens; subst s0.
  - exists (JWTAuth s'). simpl. rewrite Hrun.
    repeat split; try assumption.
    intros t Ht He Hgap. rewrite Hcheck, (Hfresh t Ht He Hgap). reflexivity.
  - exists (OAuth2Auth token_type s'). simpl. rewrite Hrun.
    repeat split; try assumption.
    intros t Ht He Hgap. rewrite Hcheck, (Hfresh t Ht He Hgap). reflexivity.
Qed.

End Laws.

Lemma refresh_failure_law_witness :
  let a' := fst (fst (refresh Concurrent.no_isoformat Concurrent.not_subscriptable
                        Verbs.garbled_jwt 0 1)) in
  credential a' = VStr "new"
  /\ stored_expiry a' = VDatetime 0
  /\ ((1 = 0 /\ a' = Verbs.garbled_jwt
       /\ (refresh_failed "Invalid isoformat string" = no_refresh_available
           \/ refresh_failed "Invalid isoformat string" = AttributeError))
      \/ (1 = 1
          /\ exists text,
               refresh_failed "Invalid isoformat string" = refresh_failed text
               /\ (a' = Verbs.garbled_jwt
                   \/ exists s procedure d access iso,
                        tokens_of Verbs.garbled_jwt = Some s
                        /\ refresh_function s = Some procedure
                        /\ procedure 0 (refresh_token s) = Returns (VDict d)
                        /\ dict_get d "access_token" = Some access
                        /\ dict_get d "expires_at" = Some (VStr iso)
                        /\ Concurrent.no_isoformat (replace_Z iso) = inr text
                        /\ credential a' = access
                        /\ stored_expiry a' = stored_expiry Verbs.garbled_jwt)))%nat.
Proof.
  split; [reflexivity | ]. split; [reflexivity | ].
  exact (refresh_failure_law Concurrent.no_isoformat Concurrent.not_subscriptable
           Verbs.garbled_jwt _ 0 1 1 _ eq_refl).
Defined.

Lemma refresh_stores_expiry_witness :
  token_is_expired
    (mk_token_state (VStr "old") (VStr "again") (VDatetime 0)
       (Some (fun _ _ => Returns (VDict [("access_token", VStr "new");
                                         ("expires_at", VDatetime 1000)]))))
    100 = Return true
  /\ exists a',
       refresh Concurrent.no_isoformat Concurrent.not_subscriptable
         Concurrent.stale_oauth2 0 100 = (a', 1%nat, Return tt)
       /\ credential a' = VStr "new"
       /\ stored_expiry a' = VDatetime 1000
       /\ auth_type a' = "oauth2"
       /\ (forall t,
              is_expired a' t
              = Return (Qle_bool (timestamp 1000) (Double.add (timestamp t) 60)))
       /\ (forall t,
              (0 <= t)%Q -> (1000 <= 4294967296)%Q ->
              (t + 60 + (2 # 1000000) <= 1000)%Q ->
              is_expired a' t = Return false).
Proof.
  split; [reflexivity | ].
  exact (refresh_stores_expiry Concurrent.no_isoformat Concurrent.not_subscriptable
           Concurrent.stale_oauth2 _ _
           [("access_token", VStr "new"); ("expires_at", VDatetime 1000)]
           (VStr "new") 1000 0 100
           eq_refl eq_refl eq_refl eq_refl eq_refl eq_refl (or_introl eq_refl)).
Defined.

End TokenRefreshFacts.

(** ** The headers and the verbs *)

Module VerbFacts.

Import Auth AuthHeaders HttpClient Verbs.

Lemma dict_get_set {A : Type} (d : list (string * A)) (key : string) (v : A) (name : string) :
  dict_get (dict_set d key v) name
  = if (key =? name)%string then Some v else dict_get d name.
Proof.
  induction d as [ | [k old] rest IH]; simpl.
  - reflexivity.
  - destruct (k =? key)%string eqn:Hk; simpl.
    + apply String.eqb_eq in Hk. subst k.
      destruct (key =? name)%string; reflexivity.
    + rewrite IH. destruct (k =? name)%string eqn:Hn; [ | reflexivity].
      apply String.eqb_eq in Hn. subst k. rewrite String.eqb_sym, Hk. reflexivity.
Qed.

Lemma dict_get_absent {A : Type} (d : list (string * A)) (key : string) :
  ~ In key (map fst d) -> dict_get d key = None.
Proof.
  induction d as [ | [k v] rest IH]; simpl; intro H; [reflexivity | ].
  destruct (k =? key)%string eqn:Hk.
  - apply String.eqb_eq in Hk. exfalso. apply H. left. exact Hk.
  - apply IH. intro Hin. apply H. right. exact Hin.
Qed.

Lemma dict_get_update {A : Type} (other : list (string * A)) :
  forall (d : list (string * A)) (name : string),
    is_a_dict other ->
    dict_get (dict_update d other) name
    = match dict_get other name with
      | Some v => Some v
      | None => dict_get d name
      end.
Proof.
  unfold dict_update, is_a_dict.
  induction other as [ | [k v] rest IH]; intros d name Hdict; simpl.
  - reflexivity.
  - inversion Hdict as [ | x keys Hnew Hrest]; subst.
    rewrite (IH _ name Hrest), dict_get_set.
    destruct (k =? name)%string eqn:Hk; [ | reflexivity].
    apply String.eqb_eq in Hk. subst k.
    rewrite (dict_get_absent rest name Hnew). reflexivity.
Qed.

Lemma in_dict_set_keys {A : Type} (d : list (string * A)) (key : string) (v : A) (x : string) :
  In x (map fst (dict_set d key v)) <-> x = key \/ In x (map fst d).
Proof.
  induction d as [ | [k old] rest IH]; simpl.
  - split; [intros [H | []]; left; symmetry; exact H | intros [H | []]; left; symmetry; exact H].
  - destruct (k =? key)%string eqn:Hk; simpl.
    + apply String.eqb_eq in Hk. subst k. split.
      * intros [H | H]; [left; symmetry; exact H | right; right; exact H].
      * intros [H | [H | H]]; [left; symmetry; exact H | left; exact H | right; exact H].
    + rewrite IH. split.
      * intros [H | [H | H]]; [right; left; exact H | left; exact H | right; right; exact H].
      * intros [H | [H | H]]; [right; left; exact H | left; exact H | right; right; exact H].
Qed.

Lemma dict_set_is_a_dict {A : Type} (d : list (string * A)) (key : string) (v : A) :
  is_a_dict d -> is_a_dict (dict_set d key v).
Proof.
  unfold is_a_dict. induction d as [ | [k old] rest IH]; simpl; intro Hd.
  - constructor; [intros [] | constructor].
  - inversion Hd as [ | x keys Hnew Hrest]; subst.
    destruct (k =? key)%string eqn:Hk; simpl.
    + apply String.eqb_eq in Hk. subst k. constructor; assumption.
    + constructor; [ | exact (IH Hrest)].
      intro Hin. apply in_dict_set_keys in Hin. destruct Hin as [E | Hin].
      * subst k. rewrite String.eqb_refl in Hk. discriminate.
      * exact (Hnew Hin).
Qed.

Lemma dict_update_is_a_dict {A : Type} (other : list (string * A)) :
  forall d : list (string * A), is_a_dict d -> is_a_dict (dict_update d other).
Proof.
  unfold dict_update.
  induction other as [ | [k v] rest IH]; intros d Hd; simpl; [exact Hd | ].
  apply IH. apply dict_set_is_a_dict. exact Hd.
Qed.

Lemma dict_get_del {A : Type} (d : list (string * A)) (key name : string) :
  dict_get (dict_del d key) name
  = if (key =? name)%string then None else dict_get d name.
Proof.
  unfold dict_del. induction d as [ | [k v] rest IH]; simpl.
  - destruct (key =? name)%string; reflexivity.
  - destruct (k =? key)%string eqn:Hk; simpl.
    + apply String.eqb_eq in Hk. subst k. rewrite IH.
      destruct (key =? name)%string; reflexivity.
    + rewrite IH. destruct (k =? name)%string eqn:Hn; [ | reflexivity].
      apply String.eqb_eq in Hn. subst k. rewrite String.eqb_sym, Hk. reflexivity.
Qed.

Lemma set_auth_same (c : HTTPClient) : set_auth c (auth c) = c.
Proof. destruct c. reflexivity. Qed.

Section Laws.

Variable str : value -> string.
Variable urljoin : string -> string -> result string.
Variable urlencode : list (string * string) -> string.
Variable fromisoformat : string -> Q + string.
Variable subscript_error : value -> string.
Variable content : Response -> string.

Lemma auth_headers_are_a_dict (a : Authenticator) : is_a_dict (get_auth_headers str a).
Proof.
  unfold is_a_dict.
  destruct a; simpl; repeat constructor; intros [].
Qed.

(** The headers before the authentication is added. *)
Lemma caller_headers_layer (headers : option (list (string * string))) :
  is_a_dict match headers with Some given => given | None => [] end ->
  is_a_dict match headers with
            | Some ((_ :: _) as given) =>
                dict_update [("Content-Type", "application/json")] given
            | _ => [("Content-Type", "application/json")]
            end
  /\ forall name,
       dict_get match headers with
                | Some ((_ :: _) as given) =>
                    dict_update [("Content-Type", "application/json")] given
                | _ => [("Content-Type", "application/json")]
                end name
       = match dict_get match headers with Some given => given | None => [] end name with
         | Some v => Some v
         | None => if ("Content-Type" =? name)%string then Some "application/json" else None
         end.
Proof.
  assert (Hbase : is_a_dict [("Content-Type", "application/json")]).
  { unfold is_a_dict. simpl. repeat constructor. intros []. }
  destruct headers as [[ | h given] | ]; intro Hd.
  - split; [exact Hbase | reflexivity].
  - split; [apply dict_update_is_a_dict; exact Hbase | ].
    intro name. rewrite (dict_get_update (h :: given) _ name Hd). reflexivity.
  - split; [exact Hbase | reflexivity].
Qed.

(** X17. The headers [_prepare_headers] returns are layered: a name is
    looked up in the headers of the authenticator the client holds when
    it returns (after the refresh, if there was one), then in the headers
    of the caller, then in the default [Content-Type: application/json].
    So the credential overrides a header of the same name given by the
    caller, and the caller can override the content type. No name is
    bound twice. *)
Theorem header_layers (c c' : HTTPClient) (headers : option (list (string * string)))
    (calls calls' : nat) (now now_locked : Q) (hs : list (string * string)) :
  is_a_dict match headers with Some given => given | None => [] end ->
  _prepare_headers str fromisoformat subscript_error c headers calls now now_locked
  = (c', calls', Return hs) ->
  is_a_dict hs
  /\ forall name,
       dict_get hs name
       = match dict_get (get_auth_headers str (auth c')) name with
         | Some v => Some v
         | None =>
             match dict_get match headers with Some given => given | None => [] end name with
             | Some v => Some v
             | None =>
                 if ("Content-Type" =? name)%string then Some "application/json" else None
             end
         end.
Proof.
  intros Hd. destruct (caller_headers_layer headers Hd) as [Hlayer Hlookup].
  unfold _prepare_headers.
  destruct (is_expired (auth c) now) as [[ | ] | e].
  - destruct (refresh fromisoformat subscript_error (auth c) calls now_locked)
      as [[a n] [[] | e]]; [ | discriminate].
    intro E. injection E as E1 E2 E3. subst c' calls' hs. simpl auth. split.
    + apply dict_update_is_a_dict. exact Hlayer.
    + intro name. rewrite (dict_get_update _ _ name (auth_headers_are_a_dict a)).
      rewrite Hlookup. reflexivity.
  - intro E. injection E as E1 E2 E3. subst c' calls' hs. split.
    + apply dict_update_is_a_dict. exact Hlayer.
    + intro name. rewrite (dict_get_update _ _ name (auth_headers_are_a_dict (auth c))).
      rewrite Hlookup. reflexivity.
  - discriminate.
Qed.

Lemma url_with_parameters (c : HTTPClient) (path url : string)
    (params : option (list (string * value))) :
  _build_url str urljoin urlencode c path None = Return url ->
  exists url', _build_url str urljoin urlencode c path params = Return url'.
Proof.
  unfold _build_url.
  destruct (urljoin (base_url c ++ "/")%string (lstrip_char "/" path)) as [u | e];
    [ | discriminate].
  intros _. destruct params as [[ | p rest] | ]; try (eexists; reflexivity).
  destruct (clean str (p :: rest)); eexists; reflexivity.
Qed.

(** X18. When the headers cannot be prepared (the expiry check or the
    refresh raises), none of the seven verbs sends a request: each raises
    the error of [_prepare_headers] with an empty trace, whatever the
    server would answer, and leaves the client as [_prepare_headers]
    left it. *)
Theorem no_request_without_headers (c c' : HTTPClient)
    (server : Request -> nat -> transport_outcome) (path url : string)
    (params : option (list (string * value))) (data : value) (json : json_argument)
    (file_data filename : string) (content_type : option string)
    (additional_fields : option (list (string * string)))
    (headers : option (list (string * string)))
    (model_class : option (value -> result value))
    (calls calls' : nat) (now now_locked : Q) (e : exn) :
  _build_url str urljoin urlencode c path None = Return url ->
  _prepare_headers str fromisoformat subscript_error c headers calls now now_locked
  = (c', calls', Raise e) ->
  get str urljoin urlencode fromisoformat subscript_error c server path params headers
    model_class calls now now_locked = (c', calls', [], Raise e)
  /\ post str urljoin urlencode fromisoformat subscript_error c server path data json
       headers model_class calls now now_locked = (c', calls', [], Raise e)
  /\ put str urljoin urlencode fromisoformat subscript_error c server path data json
       headers model_class calls now now_locked = (c', calls', [], Raise e)
  /\ delete str urljoin urlencode fromisoformat subscript_error c server path headers
       model_class calls now now_locked = (c', calls', [], Raise e)
  /\ patch str urljoin urlencode fromisoformat subscript_error c server path data json
       headers model_class calls now now_locked = (c', calls', [], Raise e)
  /\ upload_file str urljoin urlencode fromisoformat subscript_error c server path
       file_data filename content_type additional_fields headers model_class calls now
       now_locked = (c', calls', [], Raise e)
  /\ download_file str urljoin urlencode fromisoformat subscript_error content c server
       path headers calls now now_locked = (c', calls', [], Raise e).
Proof.
  intros Hurl Hheaders.
  destruct (url_with_parameters c path url params Hurl) as [url' Hurl'].
  unfold get, post, put, delete, patch, upload_file, download_file, prepared.
  rewrite Hurl, Hurl', Hheaders.
  repeat split.
Qed.

(** X19. [download_file] does what [get] without parameters does up to
    the response, and then returns the bytes of the body instead of
    extracting the data: when it raises, [get] raises the same error
    after the same trace; when it returns, what it returns is the
    content of a 2xx response from which [get] would extract its result
    after the same trace. Its own call of [_handle_error] is never
    reached. *)
Theorem download_skips_envelope (c : HTTPClient)
    (server : Request -> nat -> transport_outcome) (path : string)
    (headers : option (list (string * string))) (calls : nat) (now now_locked : Q) :
  let '(c', calls', evs, downloaded) :=
    download_file str urljoin urlencode fromisoformat subscript_error content c server
      path headers calls now now_locked in
  match downloaded with
  | Raise e =>
      forall model_class,
        get str urljoin urlencode fromisoformat subscript_error c server path None
          headers model_class calls now now_locked = (c', calls', evs, Raise e)
  | Return bytes =>
      exists r,
        is_success r = true
        /\ bytes = content r
        /\ forall model_class,
             get str urljoin urlencode fromisoformat subscript_error c server path None
               headers model_class calls now now_locked
             = (c', calls', evs, _extract_data r model_class)
  end.
Proof.
  unfold download_file, get.
  destruct (prepared str urljoin urlencode fromisoformat subscript_error c path None
              headers calls now now_locked) as [[c' calls'] [[url hs] | e]];
    [ | intro model_class; reflexivity].
  unfold send.
  destruct (_make_request_with_retries str c'
              (server (mk_Request "GET" url hs None None None))) as [evs [r | e]] eqn:Hrun;
    [ | intro model_class; reflexivity].
  assert (Hs : is_success r = true).
  { apply (LoopFacts.attempts_return str c'
             (server (mk_Request "GET" url hs None None None))
             (range (retries c' + 1)) 0%nat None r).
    unfold _make_request_with_retries in Hrun. rewrite Hrun. reflexivity. }
  rewrite Hs. simpl negb. cbv iota.
  exists r. split; [exact Hs | ]. split; [reflexivity | ].
  intro model_class. reflexivity.
Qed.

(** X20. The request [upload_file] sends is a POST to the URL built, with
    the file as the one part ["file"] and the additional fields as form
    data, and without any JSON body; its headers are the prepared ones
    without ["Content-Type"], which is removed even when the caller gave
    it, every header of another name (the comparison is exact, so also
    ["content-type"]) being kept. *)
Theorem upload_request_law (c c' : HTTPClient) (path url : string)
    (file_data filename : string) (content_type : option string)
    (additional_fields : option (list (string * string)))
    (headers : option (list (string * string)))
    (calls calls' : nat) (now now_locked : Q) (hs : list (string * string)) :
  prepared str urljoin urlencode fromisoformat subscript_error c path None headers calls
    now now_locked = (c', calls', Return (url, hs)) ->
  exists request,
    (forall server model_class,
        upload_file str urljoin urlencode fromisoformat subscript_error c server path
          file_data filename content_type additional_fields headers model_class calls now
          now_locked
        = send str c' calls' server request model_class)
    /\ req_method request = "POST"
    /\ req_url request = url
    /\ dict_get (req_headers request) "Content-Type" = None
    /\ (forall name, name <> "Content-Type" ->
                     dict_get (req_headers request) name = dict_get hs name)
    /\ req_json request = None
    /\ req_files request = Some (mk_file_part filename file_data content_type)
    /\ req_data request
       = Some (VDict match additional_fields with
                     | Some fields => map (fun f => (fst f, VStr (snd f))) fields
                     | None => []
                     end).
Proof.
  intro Hprepared.
  exists (mk_Request "POST" url (upload_headers hs) None
            (Some (upload_fields additional_fields))
            (Some (mk_file_part filename file_data content_type))).
  split; [ | split; [ | split; [ | split; [ | split; [ | split; [ | split]]]]]];
    try reflexivity.
  - intros server model_class. unfold upload_file. rewrite Hprepared. reflexivity.
  - simpl req_headers. unfold upload_headers.
    destruct (dict_get hs "Content-Type") eqn:Hct; [ | exact Hct].
    rewrite dict_get_del. reflexivity.
  - intros name Hname. simpl req_headers. unfold upload_headers.
    destruct (dict_get hs "Content-Type"); [ | reflexivity].
    rewrite dict_get_del.
    destruct ("Content-Type" =? name)%string eqn:E; [ | reflexivity].
    apply String.eqb_eq in E. symmetry in E. contradiction.
  - simpl req_data. unfold upload_fields.
    destruct additional_fields as [[ | f fields] | ]; reflexivity.
Qed.

End Laws.

Lemma header_layers_witness :
  let c := init "https://x.test" (Some (APIKeyAuth "secret" "X-API-Key")) (VFloat 30) 3
             "gotrs-python-sdk/1.0.0" false in
  let given := [("Accept", "text/plain"); ("X-API-Key", "mine")] in
  is_a_dict given
  /\ exists hs,
       _prepare_headers silent Concurrent.no_isoformat Concurrent.not_subscriptable c
         (Some given) 0 0 0 = (c, 0%nat, Return hs)
       /\ dict_get hs "X-API-Key" = Some "secret"
       /\ dict_get hs "Accept" = Some "text/plain"
       /\ dict_get hs "Content-Type" = Some "application/json".
Proof.
  assert (Hd : is_a_dict [("Accept", "text/plain"); ("X-API-Key", "mine")]).
  { unfold is_a_dict. simpl. repeat constructor.
    - intros [H | []]. discriminate.
    - intros []. }
  cbv zeta. split; [exact Hd | ]. eexists. split; [reflexivity | ].
  destruct (header_layers silent Concurrent.no_isoformat Concurrent.not_subscriptable
              (init "https://x.test" (Some (APIKeyAuth "secret" "X-API-Key")) (VFloat 30) 3
                 "gotrs-python-sdk/1.0.0" false)
              (init "https://x.test" (Some (APIKeyAuth "secret" "X-API-Key")) (VFloat 30) 3
                 "gotrs-python-sdk/1.0.0" false)
              (Some [("Accept", "text/plain"); ("X-API-Key", "mine")]) 0 0 0 0 _
              Hd eq_refl) as [_ Hlookup].
  split; [ | split]; rewrite Hlookup; reflexivity.
Defined.

Lemma no_request_without_headers_witness :
  let c := set_auth client stuck_jwt in
  _build_url silent Urllib.urljoin (fun _ => EmptyString) c "tickets" None
  = Return "https://x.test/tickets"
  /\ get silent Urllib.urljoin (fun _ => EmptyString) Concurrent.no_isoformat
       Concurrent.not_subscriptable c obliging "tickets" None None None 0 100 100
     = (c, 0%nat, [], Raise no_refresh_available).
Proof.
  cbv zeta. split; [reflexivity | ].
  exact (proj1 (no_request_without_headers silent Urllib.urljoin (fun _ => EmptyString)
                  Concurrent.no_isoformat Concurrent.not_subscriptable text_bytes
                  (set_auth client stuck_jwt) (set_auth client stuck_jwt) obliging
                  "tickets" "https://x.test/tickets" None VNone (Plain VNone)
                  EmptyString EmptyString None None None None 0 0 100 100
                  no_refresh_available eq_refl eq_refl)).
Defined.

Lemma upload_request_law_witness :
  let given := [("Content-Type", "text/csv"); ("content-type", "text/csv")] in
  exists hs,
    prepared silent Urllib.urljoin (fun _ => EmptyString) Concurrent.no_isoformat
      Concurrent.not_subscriptable client "files" None (Some given) 0 0 0
    = (client, 0%nat, Return ("https://x.test/files", hs))
    /\ exists request,
         (forall server model_class,
             upload_file silent Urllib.urljoin (fun _ => EmptyString)
               Concurrent.no_isoformat Concurrent.not_subscriptable client server "files"
               "a,b" "t.csv" (Some "text/csv") None (Some given) model_class 0 0 0
             = send silent client 0 server request model_class)
         /\ dict_get (req_headers request) "Content-Type" = None
         /\ dict_get (req_headers request) "content-type" = Some "text/csv".
Proof.
  cbv zeta. eexists. split; [reflexivity | ].
  destruct (upload_request_law silent Urllib.urljoin (fun _ => EmptyString)
              Concurrent.no_isoformat Concurrent.not_subscriptable client client
              "files" "https://x.test/files" "a,b" "t.csv" (Some "text/csv") None
              (Some [("Content-Type", "text/csv"); ("content-type", "text/csv")])
              0 0 0 0 _ eq_refl) as (request & Hsend & _ & _ & Hct & Hother & _).
  exists request. split; [exact Hsend | ]. split; [exact Hct | ].
  rewrite Hother; [reflexivity | discriminate].
Defined.

End VerbFacts.

(** ** The rendering of an error *)

Module RenderingFacts.

Import HttpClient Rendering.

Lemma append_associative (a b c : string) :
  ((a ++ b) ++ c)%string = (a ++ (b ++ c))%string.
Proof. induction a as [ | x a IH]; simpl; [reflexivity | rewrite IH; reflexivity]. Qed.

Section Laws.

Variable str : value -> string.

(** [str] of a string is the string. *)
Hypothesis str_of_str : forall s, str (VStr s) = s.

Lemma prefixed_rendering (e : error) (status : Z) :
  Exceptions.status_code e = Some status ->
  status <> 0 ->
  __str__ str e
  = Return ("HTTP " ++ str (VInt status) ++ ": " ++ str (message e)
              ++ (if truthy (details e) then " - " ++ str (details e) else ""))%string.
Proof.
  intros Hs Hnz. unfold __str__. rewrite Hs.
  apply Z.eqb_neq in Hnz. rewrite Hnz. simpl negb. cbv iota.
  destruct (truthy (details e)).
  - rewrite str_of_str. f_equal. cbn [append].
    rewrite !append_associative. reflexivity.
  - rewrite UrlFacts.append_empty. reflexivity.
Qed.

(** X21. [__str__] of an error with a status that is not 0 is
    ["HTTP <status>: <message>"], followed by [" - <details>"] when the
    details are truthy, whatever the message is. Without such a status,
    truthy details give ["<message> - <details>"]; with neither, the
    message itself is returned, which raises [TypeError] when it is not a
    string. *)
Theorem rendering_law (e : error) :
  (forall status,
      Exceptions.status_code e = Some status -> status <> 0 ->
      __str__ str e
      = Return ("HTTP " ++ str (VInt status) ++ ": " ++ str (message e)
                  ++ (if truthy (details e) then " - " ++ str (details e) else ""))%string)
  /\ (Exceptions.status_code e = None \/ Exceptions.status_code e = Some 0 ->
      truthy (details e) = true ->
      __str__ str e = Return (str (message e) ++ " - " ++ str (details e))%string)
  /\ (Exceptions.status_code e = None \/ Exceptions.status_code e = Some 0 ->
      truthy (details e) = false ->
      __str__ str e = match message e with
                      | VStr rendered => Return rendered
                      | _ => Raise TypeError
                      end).
Proof.
  split; [exact (prefixed_rendering e) | split].
  - intros Hs Hd. unfold __str__. rewrite Hd.
    destruct Hs as [Hs | Hs]; rewrite Hs; reflexivity.
  - intros Hs Hd. unfold __str__. rewrite Hd.
    destruct Hs as [Hs | Hs]; rewrite Hs; reflexivity.
Qed.

Lemma handled_status (response : Response) :
  object_or_text response = true ->
  exists e,
    _handle_error response = Gotrs e
    /\ Exceptions.status_code e = Some (status_code response).
Proof.
  intro Hb. unfold _handle_error.
  rewrite (ClassificationFacts.error_data_of response Hb).
  destruct (status_code response =? 404) eqn:H404;
    [apply Z.eqb_eq in H404; rewrite H404; eexists; split; reflexivity | ].
  destruct (status_code response =? 401) eqn:H401;
    [apply Z.eqb_eq in H401; rewrite H401; eexists; split; reflexivity | ].
  destruct (status_code response =? 403) eqn:H403;
    [apply Z.eqb_eq in H403; rewrite H403; eexists; split; reflexivity | ].
  destruct (status_code response =? 429) eqn:H429;
    [apply Z.eqb_eq in H429; rewrite H429; eexists; split; reflexivity | ].
  destruct ((500 <=? status_code response) && (status_code response <? 600));
    eexists; split; reflexivity.
Qed.

(** X22. The error [_handle_error] raises for a response whose body is
    not JSON or is a JSON object always renders, and its text starts
    with ["HTTP <status>: "] for the status of the response: [__str__]
    never raises on it, whatever the types of the fields of the body. *)
Theorem handled_error_renders (response : Response) :
  object_or_text response = true ->
  status_code response <> 0 ->
  exists e,
    _handle_error response = Gotrs e
    /\ __str__ str e
       = Return ("HTTP " ++ str (VInt (status_code response)) ++ ": " ++ str (message e)
                   ++ (if truthy (details e) then " - " ++ str (details e) else ""))%string.
Proof.
  intros Hb Hnz. destruct (handled_status response Hb) as (e & He & Hs).
  exists e. split; [exact He | ]. exact (prefixed_rendering e _ Hs Hnz).
Qed.

End Laws.

Lemma rendering_law_witness :
  (forall s, str_of_text_or_int (VStr s) = s)
  /\ __str__ str_of_text_or_int (NotFoundError (VStr "no such ticket") (Some (VStr "id 7")) None)
     = Return "HTTP 404: no such ticket - id 7"
  /\ __str__ str_of_text_or_int (GotrsError (VInt 5) no_kwargs) = Raise TypeError.
Proof.
  split; [reflexivity | ].
  destruct (rendering_law str_of_text_or_int (fun s => eq_refl)
              (NotFoundError (VStr "no such ticket") (Some (VStr "id 7")) None)) as (H & _).
  destruct (rendering_law str_of_text_or_int (fun s => eq_refl)
              (GotrsError (VInt 5) no_kwargs)) as (_ & _ & H').
  split.
  - rewrite (H 404 eq_refl ltac:(discriminate)). reflexivity.
  - rewrite (H' (or_introl eq_refl) eq_refl). reflexivity.
Defined.

Lemma handled_error_renders_witness :
  (forall s, str_of_text_or_int (VStr s) = s)
  /\ object_or_text Verbs.not_found = true
  /\ exists e,
       _handle_error Verbs.not_found = Gotrs e
       /\ __str__ str_of_text_or_int e = Return "HTTP 404: no such ticket - id 7".
Proof.
  split; [reflexivity | ]. split; [reflexivity | ].
  destruct (handled_error_renders str_of_text_or_int (fun s => eq_refl) Verbs.not_found
              eq_refl ltac:(discriminate)) as (e & He & Hr).
  exists e. split; [exact He | ]. rewrite Hr.
  injection He as He. subst e. reflexivity.
Defined.

End RenderingFacts.

(** ** Callers of refresh that run concurrently, in general *)

Module CensusFacts.

Import Auth Concurrent Census.

Lemma census_set_caller (f : position -> bool) (l : list position) :
  forall (i : nat) (p q : position),
    nth_error l i = Some q ->
    (census f (set_caller i p l) + (if f q then 1 else 0)
     = census f l + (if f p then 1 else 0))%nat.
Proof.
  induction l as [ | x rest IH]; intros i p q Hn.
  - destruct i; discriminate.
  - destruct i as [ | j]; simpl in *.
    + injection Hn as Hn. subst x. lia.
    + specialize (IH j p q Hn). lia.
Qed.

Lemma census_bound (f : position -> bool) (l : list position) :
  (census f l <= List.length l)%nat.
Proof.
  induction l as [ | x rest IH]; simpl; [lia | ]. destruct (f x); lia.
Qed.

Lemma census_launch (f : position -> bool) (n : nat) :
  f Start = false -> census f (repeat Start n) = 0%nat.
Proof.
  intro H. induction n as [ | n IH]; simpl; [reflexivity | ]. rewrite H, IH. reflexivity.
Qed.

Lemma set_caller_length (l : list position) :
  forall (i : nat) (p : position), List.length (set_caller i p l) = List.length l.
Proof.
  induction l as [ | x rest IH]; intros i p; [reflexivity | ].
  destruct i; simpl; [reflexivity | rewrite IH; reflexivity].
Qed.

Lemma none_awaiting_when_done (l : list position) :
  forallb is_done l = true -> census is_awaiting l = 0%nat.
Proof.
  induction l as [ | x rest IH]; simpl; intro H; [reflexivity | ].
  apply andb_prop in H. destruct H as [Hx Hrest].
  rewrite (IH Hrest). destruct x; try discriminate; reflexivity.
Qed.

Ltac moved Hn :=
  match goal with
  | |- context [set_caller ?i ?p (callers ?st)] =>
      let Ha := fresh "Ha" in
      let He := fresh "He" in
      pose proof (census_set_caller is_awaiting _ i p _ Hn) as Ha;
      pose proof (census_set_caller has_entered _ i p _ Hn) as He;
      unfold balanced, awaiting, entered in *; simpl in *;
      repeat match goal with
             | H : locked _ = _ |- _ => rewrite H in *
             end;
      try (destruct (locked st)); simpl in *; lia
  end.

Section Runs.

Variable fromisoformat : string -> Q + string.
Variable subscript_error : value -> string.

Lemma under_lock_balanced (st : state) (i : nat) (s : token_state) (now : Q)
    (q : position) :
  nth_error (callers st) i = Some q ->
  is_awaiting q = false ->
  has_entered q = false ->
  locked st = false ->
  balanced st ->
  balanced (under_lock st i s now).
Proof.
  intros Hn Hq1 Hq2 Hl Hb. unfold under_lock.
  destruct (token_is_expired s now) as [[ | ] | e].
  - destruct (refresh_function s) as [procedure | ].
    + pose proof (census_set_caller is_awaiting _ i
                    (Awaiting (procedure (calls st) (refresh_token s))) _ Hn) as Ha.
      pose proof (census_set_caller has_entered _ i
                    (Awaiting (procedure (calls st) (refresh_token s))) _ Hn) as He.
      unfold balanced, awaiting, entered in *. rewrite Hl in Hb. rewrite Hq1 in Ha.
      rewrite Hq2 in He. simpl in *. lia.
    + pose proof (census_set_caller is_awaiting _ i
                    (Done (Raise (refresh_failed "'NoneType' object is not callable")))
                    _ Hn) as Ha.
      pose proof (census_set_caller has_entered _ i
                    (Done (Raise (refresh_failed "'NoneType' object is not callable")))
                    _ Hn) as He.
      unfold balanced, awaiting, entered in *. rewrite Hl in Hb. rewrite Hq1 in Ha.
      rewrite Hq2 in He. simpl in *. lia.
  - pose proof (census_set_caller is_awaiting _ i (Done (Return tt)) _ Hn) as Ha.
    pose proof (census_set_caller has_entered _ i (Done (Return tt)) _ Hn) as He.
    unfold balanced, awaiting, entered in *. rewrite Hl in Hb. rewrite Hq1 in Ha.
    rewrite Hq2 in He. simpl in *. lia.
  - pose proof (census_set_caller is_awaiting _ i (Done (Raise e)) _ Hn) as Ha.
    pose proof (census_set_caller has_entered _ i (Done (Raise e)) _ Hn) as He.
    unfold balanced, awaiting, entered in *. rewrite Hl in Hb. rewrite Hq1 in Ha.
    rewrite Hq2 in He. simpl in *. lia.
Qed.

Lemma step_balanced (i : nat) (now : Q) (st : state) :
  balanced st -> balanced (step fromisoformat subscript_error i now st).
Proof.
  intro Hb. unfold step.
  destruct (nth_error (callers st) i) as [[ | | outcome | r] | ] eqn:Hn; try exact Hb.
  - destruct (tokens_of (auth st)) as [s | ]; [ | moved Hn].
    destruct (refresh_function s) as [procedure | ]; [ | moved Hn].
    destruct (negb (truthy (refresh_token s))); [moved Hn | ].
    destruct (locked st) eqn:Hl; [moved Hn | ].
    exact (under_lock_balanced st i s now Start Hn eq_refl eq_refl Hl Hb).
  - destruct (locked st) eqn:Hl; [exact Hb | ].
    destruct (tokens_of (auth st)) as [s | ]; [ | exact Hb].
    exact (under_lock_balanced st i s now Waiting Hn eq_refl eq_refl Hl Hb).
  - destruct (tokens_of (auth st)) as [s | ]; [ | exact Hb].
    destruct (store_refreshed fromisoformat subscript_error s outcome) as [s' r].
    pose proof (census_set_caller is_awaiting _ i (Done r) _ Hn) as Ha.
    pose proof (census_set_caller has_entered _ i (Done r) _ Hn) as He.
    unfold balanced, awaiting, entered in *. simpl in *.
    destruct (locked st); lia.
Qed.

Lemma run_balanced (schedule : list (nat * Q)) :
  forall st, balanced st -> balanced (run fromisoformat subscript_error schedule st).
Proof.
  induction schedule as [ | [i now] rest IH]; intros st Hb; simpl; [exact Hb | ].
  apply IH. apply step_balanced. exact Hb.
Qed.

Lemma launch_balanced (a : Authenticator) (n : nat) : balanced (launch a n).
Proof.
  unfold balanced, awaiting, entered, launch. simpl.
  rewrite (census_launch is_awaiting n eq_refl), (census_launch has_entered n eq_refl).
  split; [reflexivity | lia].
Qed.

Lemma step_length (i : nat) (now : Q) (st : state) :
  List.length (callers (step fromisoformat subscript_error i now st))
  = List.length (callers st).
Proof.
  unfold step, under_lock.
  destruct (nth_error (callers st) i) as [[ | | outcome | r] | ]; try reflexivity.
  - destruct (tokens_of (auth st)) as [s | ]; simpl; [ | apply set_caller_length].
    destruct (refresh_function s); simpl; [ | apply set_caller_length].
    destruct (negb (truthy (refresh_token s))); simpl; [apply set_caller_length | ].
    destruct (locked st); simpl; [apply set_caller_length | ].
    destruct (token_is_expired s now) as [[ | ] | e]; simpl; apply set_caller_length.
  - destruct (locked st); [reflexivity | ].
    destruct (tokens_of (auth st)) as [s | ]; [ | reflexivity].
    destruct (token_is_expired s now) as [[ | ] | e]; simpl; try apply set_caller_length.
    destruct (refresh_function s); simpl; apply set_caller_length.
  - destruct (tokens_of (auth st)) as [s | ]; [ | reflexivity].
    destruct (store_refreshed fromisoformat subscript_error s outcome) as [s' r].
    simpl. apply set_caller_length.
Qed.

Lemma run_length (schedule : list (nat * Q)) :
  forall st,
    List.length (callers (run fromisoformat subscript_error schedule st))
    = List.length (callers st).
Proof.
  induction schedule as [ | [i now] rest IH]; intro st; simpl; [reflexivity | ].
  rewrite IH. apply step_length.
Qed.

(** X23. Under every schedule of any number of concurrent callers of
    [refresh] on one authenticator, whatever the refresh procedure
    answers, the lock is held exactly while one caller awaits the
    refresh procedure, and never by two; and once every caller is done
    the lock is free, also when callers have failed. *)
Theorem mutual_exclusion (a : Authenticator) (n : nat) (schedule : list (nat * Q)) :
  awaiting (run fromisoformat subscript_error schedule (launch a n))
  = (if locked (run fromisoformat subscript_error schedule (launch a n)) then 1 else 0)%nat
  /\ (all_done (run fromisoformat subscript_error schedule (launch a n)) = true ->
      locked (run fromisoformat subscript_error schedule (launch a n)) = false).
Proof.
  destruct (run_balanced schedule _ (launch_balanced a n)) as [Hlock _].
  split; [exact Hlock | ].
  intro Hdone. unfold all_done in Hdone. apply none_awaiting_when_done in Hdone.
  unfold awaiting in Hlock. rewrite Hdone in Hlock.
  destruct (locked (run fromisoformat subscript_error schedule (launch a n)));
    [discriminate | reflexivity].
Qed.

(** X24. Under every schedule of [n] concurrent callers of [refresh] on
    one authenticator, the refresh procedure is invoked at most once for
    each caller that has taken the lock or was refused before it, hence
    at most [n] times. *)
Theorem at_most_one_invocation_per_caller (a : Authenticator) (n : nat)
    (schedule : list (nat * Q)) :
  (calls (run fromisoformat subscript_error schedule (launch a n))
   <= entered (run fromisoformat subscript_error schedule (launch a n)))%nat
  /\ (entered (run fromisoformat subscript_error schedule (launch a n)) <= n)%nat.
Proof.
  destruct (run_balanced schedule _ (launch_balanced a n)) as [_ Hcalls].
  split; [exact Hcalls | ].
  unfold entered.
  pose proof (census_bound has_entered
                (callers (run fromisoformat subscript_error schedule (launch a n)))) as H.
  rewrite run_length in H. unfold launch in H. simpl in H.
  rewrite repeat_length in H. exact H.
Qed.

End Runs.

End CensusFacts.

(** ** The convenience functions on the errors of the transport layer *)

Module HelperFacts.

Import HttpClient Helpers.

(** X25. On the error [_handle_error] raises for a response whose body is
    not JSON or is a JSON object, the convenience functions read the
    status: [is_not_found_error] holds exactly for a 404,
    [is_unauthorized_error] for a 401, [is_forbidden_error] for a 403 and
    [is_rate_limit_error] for a 429; [is_gotrs_error] always holds, and
    [is_validation_error], [is_network_error] and [is_timeout_error]
    never do: no status, 400 and 422 included, gives a
    [ValidationError]. *)
Theorem helpers_on_handled_errors (response : Response) :
  object_or_text response = true ->
  is_gotrs_error (_handle_error response) = true
  /\ is_not_found_error (_handle_error response) = (status_code response =? 404)
  /\ is_unauthorized_error (_handle_error response) = (status_code response =? 401)
  /\ is_forbidden_error (_handle_error response) = (status_code response =? 403)
  /\ is_rate_limit_error (_handle_error response) = (status_code response =? 429)
  /\ is_validation_error (_handle_error response) = false
  /\ is_network_error (_handle_error response) = false
  /\ is_timeout_error (_handle_error response) = false.
Proof.
  intro Hb. unfold _handle_error.
  rewrite (ClassificationFacts.error_data_of response Hb).
  destruct (status_code response =? 404) eqn:H404.
  { apply Z.eqb_eq in H404. rewrite H404. repeat split. }
  destruct (status_code response =? 401) eqn:H401.
  { apply Z.eqb_eq in H401. rewrite H401. repeat split. }
  destruct (status_code response =? 403) eqn:H403.
  { apply Z.eqb_eq in H403. rewrite H403. repeat split. }
  destruct (status_code response =? 429) eqn:H429.
  { repeat split. }
  destruct ((500 <=? status_code response) && (status_code response <? 600));
    repeat split.
Qed.

Lemma helpers_on_handled_errors_witness :
  object_or_text Verbs.not_found = true
  /\ is_not_found_error (_handle_error Verbs.not_found) = true
  /\ is_validation_error (_handle_error Verbs.not_found) = false.
Proof.
  split; [reflexivity | ].
  destruct (helpers_on_handled_errors Verbs.not_found eq_refl)
    as (_ & H404 & _ & _ & _ & Hv & _).
  split; [exact H404 | exact Hv].
Defined.

End HelperFacts.

(** ** The debug flag *)

Module DebugFacts.

Import HttpClient.

Section Flag.

Variable str : value -> string.
Variables c1 c2 : HTTPClient.
Variable transport : nat -> transport_outcome.

Hypothesis same_retries : retries c1 = retries c2.
Hypothesis same_timeout : timeout c1 = timeout c2.

Lemma attempts_whatever_the_flag (todo : list Z) :
  forall (made : nat) (last : option exn),
    snd (attempts str c1 transport todo made last)
    = snd (attempts str c2 transport todo made last)
    /\ quiet (fst (attempts str c1 transport todo made last))
       = quiet (fst (attempts str c2 transport todo made last)).
Proof.
  induction todo as [ | attempt rest IH]; intros made last.
  - simpl. destruct last; split; reflexivity.
  - cbn [attempts]. rewrite same_retries, same_timeout.
    destruct (transport made) as [response | | text | e].
    + destruct (is_success response); [split; reflexivity | ].
      destruct ((400 <=? status_code response) && (status_code response <? 500)
                && negb (status_code response =? 429)); [split; reflexivity | ].
      destruct (attempt <? retries c2); [ | split; reflexivity].
      destruct (IH (S made) last) as [Hs Hq].
      destruct (attempts str c1 transport rest (S made) last) as [later1 out1].
      destruct (attempts str c2 transport rest (S made) last) as [later2 out2].
      simpl in *. split; [exact Hs | ].
      rewrite !RetryFacts.quiet_app, !RetryFacts.quiet_notice. simpl.
      rewrite Hq. reflexivity.
    + destruct (attempt <? retries c2);
        match goal with
        | |- context [attempts str c1 transport rest (S made) ?l] =>
            destruct (IH (S made) l) as [Hs Hq];
            destruct (attempts str c1 transport rest (S made) l) as [later1 out1];
            destruct (attempts str c2 transport rest (S made) l) as [later2 out2]
        end; simpl in *; (split; [exact Hs | ]).
      * rewrite !RetryFacts.quiet_app, !RetryFacts.quiet_notice. simpl.
        rewrite Hq. reflexivity.
      * rewrite Hq. reflexivity.
    + destruct (attempt <? retries c2);
        match goal with
        | |- context [attempts str c1 transport rest (S made) ?l] =>
            destruct (IH (S made) l) as [Hs Hq];
            destruct (attempts str c1 transport rest (S made) l) as [later1 out1];
            destruct (attempts str c2 transport rest (S made) l) as [later2 out2]
        end; simpl in *; (split; [exact Hs | ]).
      * rewrite !RetryFacts.quiet_app, !RetryFacts.quiet_notice. simpl.
        rewrite Hq. reflexivity.
      * rewrite Hq. reflexivity.
    + split; reflexivity.
Qed.

Lemma attempts_print_nothing (todo : list Z) :
  debug c1 = false ->
  forall (made : nat) (last : option exn),
    quiet (fst (attempts str c1 transport todo made last))
    = fst (attempts str c1 transport todo made last).
Proof.
  intro Hoff. induction todo as [ | attempt rest IH]; intros made last.
  - simpl. destruct last; reflexivity.
  - cbn [attempts]. unfold retry_notice. rewrite Hoff.
    destruct (transport made) as [response | | text | e].
    + destruct (is_success response); [reflexivity | ].
      destruct ((400 <=? status_code response) && (status_code response <? 500)
                && negb (status_code response =? 429)); [reflexivity | ].
      destruct (attempt <? retries c1); [ | reflexivity].
      specialize (IH (S made) last).
      destruct (attempts str c1 transport rest (S made) last) as [later out].
      simpl in *. rewrite IH. reflexivity.
    + destruct (attempt <? retries c1);
        match goal with
        | |- context [attempts str c1 transport rest (S made) ?l] =>
            specialize (IH (S made) l);
            destruct (attempts str c1 transport rest (S made) l) as [later out]
        end; simpl in *; rewrite IH; reflexivity.
    + destruct (attempt <? retries c1);
        match goal with
        | |- context [attempts str c1 transport rest (S made) ?l] =>
            specialize (IH (S made) l);
            destruct (attempts str c1 transport rest (S made) l) as [later out]
        end; simpl in *; rewrite IH; reflexivity.
    + reflexivity.
Qed.

(** X26. The debug flag changes what is printed and nothing else: two
    clients with the same retry count and the same timeout get the same
    result from [_make_request_with_retries] against the same transport,
    after the same requests and the same sleeps in the same order,
    whatever their debug flags; and a client whose flag is off prints
    nothing. *)
Theorem debug_only_prints :
  snd (_make_request_with_retries str c1 transport)
  = snd (_make_request_with_retries str c2 transport)
  /\ quiet (fst (_make_request_with_retries str c1 transport))
     = quiet (fst (_make_request_with_retries str c2 transport))
  /\ (debug c1 = false ->
      quiet (fst (_make_request_with_retries str c1 transport))
      = fst (_make_request_with_retries str c1 transport)).
Proof.
  unfold _make_request_with_retries. rewrite same_retries.
  destruct (attempts_whatever_the_flag (range (retries c2 + 1)) 0%nat None) as [Hs Hq].
  split; [exact Hs | split; [exact Hq | ]].
  intro Hoff. rewrite <- same_retries. apply attempts_print_nothing. exact Hoff.
Qed.

End Flag.

Lemma debug_only_prints_witness :
  let loud := init "https://x.test" None (VFloat 30) 3 "gotrs-python-sdk/1.0.0" true in
  retries loud = retries client
  /\ timeout loud = timeout client
  /\ snd (_make_request_with_retries Rendering.str_of_text_or_int loud Verbs.recovers)
     = snd (_make_request_with_retries Rendering.str_of_text_or_int client Verbs.recovers)
  /\ quiet (fst (_make_request_with_retries Rendering.str_of_text_or_int loud
                   Verbs.recovers))
     = quiet (fst (_make_request_with_retries Rendering.str_of_text_or_int client
                     Verbs.recovers))
  /\ fst (_make_request_with_retries Rendering.str_of_text_or_int loud Verbs.recovers)
     = [Requested; Printed "Request failed (attempt 1), retrying in 1s..."; Slept 1;
        Requested; Printed "Request timed out (attempt 2), retrying in 2s..."; Slept 2;
        Requested].
Proof.
  cbv zeta. split; [reflexivity | ]. split; [reflexivity | ].
  destruct (debug_only_prints Rendering.str_of_text_or_int
              (init "https://x.test" None (VFloat 30) 3 "gotrs-python-sdk/1.0.0" true)
              client Verbs.recovers eq_refl eq_refl) as (Hs & Hq & _).
  split; [exact Hs | ]. split; [exact Hq | reflexivity].
Defined.

End DebugFacts.
